(** * Employment-trend pipeline (app.py, regressao.py)

    A shallow embedding of the data pipeline shared by the dashboard
    ([app.py], function [load_and_process_data]) and by the command-line
    script ([regressao.py], function [analyze_job_trends]):

      load the ten yearly sheets -> concatenate -> coerce TOT_EMP ->
      keep the "detailed" rows -> one least-squares slope per OCC_CODE ->
      join with the latest title -> sort by slope -> rank.

    Numbers.  A float cell is an exact rational ([Q]); the pandas missing
    value NaN is the constructor [NaN] of [cell] (and [None] in
    [option Q]).  Rounding of binary floating point and the non-finite
    values inf/-inf are outside this model.  The 64-bit integer cast of
    [app.py] is modelled on [Z] with its range written out.

    Sheets.  A data frame has one column per label.  A sheet that carries
    both spellings of the group column, [O_GROUP] and [OCC_GROUP], gets
    two columns of one label from [DataFrame.rename]; such sheets are
    outside this model.

    Library calls (pandas, numpy, scipy) are embedded from their
    documented behaviour; each definition names the call it stands for.
    Two of them are parameters of the pipeline: the parser of numeric
    literals behind [pd.to_numeric], and the sort algorithm behind
    [sort_values], known by its contract only. *)

From Stdlib Require Import List String Ascii Bool ZArith QArith.
From Stdlib Require Import Lia Permutation Sorted DecimalString OrderedTypeEx.
From Stdlib Require Import Lqa.
Import ListNotations.

Local Open Scope string_scope.
Local Open Scope Z_scope.

(** ** Exceptions and the error monad *)

(** The exceptions the pipeline can raise.  [FileNotFoundError] and
    [ReadError] are the two [raise] statements of the loader of [app.py];
    [NoDataLoaded] and [NoDetailedData] are its two stage checks;
    [KeyError] is pandas' error for a column label that is not in the
    frame; [ValueError] is what [scipy.stats.linregress] raises. *)
Inductive exn : Type :=
| FileNotFoundError (filename : string)
| ReadError (filename : string) (cause : string)
| NoDataLoaded
| NoDetailedData
| KeyError (column : string)
| ValueError (msg : string).

Inductive result (A : Type) : Type :=
| Ok (a : A)
| Raise (e : exn).
Arguments Ok {A} a.
Arguments Raise {A} e.

Definition bind {A B : Type} (m : result A) (k : A -> result B) : result B :=
  match m with
  | Ok a => k a
  | Raise e => Raise e
  end.

Notation "x <- m ;; k" := (bind m (fun x => k))
  (at level 61, m at next level, right associativity).

(** [mapM f l]: apply [f] to the elements of [l] from left to right and
    stop at the first exception, as a Python loop or [apply] does. *)
Fixpoint mapM {A B : Type} (f : A -> result B) (l : list A) : result (list B) :=
  match l with
  | [] => Ok []
  | a :: l' => b <- f a ;; bs <- mapM f l' ;; Ok (b :: bs)
  end.

(** The text of an exception, as the f-strings of [app.py] build it. *)
Definition str_exn (e : exn) : string :=
  match e with
  | FileNotFoundError filename =>
      "Arquivo não encontrado: " ++ filename ++ ". Verifique a pasta 'base_dados'."
  | ReadError filename cause => "Erro ao ler " ++ filename ++ ": " ++ cause
  | NoDataLoaded =>
      "Nenhum dado foi carregado. A pasta 'base_dados' está vazia ou os arquivos estão nomeados incorretamente."
  | NoDetailedData => "Nenhum dado 'detailed' encontrado. Verifique os arquivos."
  | KeyError column => "'" ++ column ++ "'"
  | ValueError msg => msg
  end.

(** ** Cells, rows and data frames *)

(** A cell of a sheet: missing (NaN / empty), a number, or text. *)
Inductive cell : Type :=
| NaN
| Num (q : Q)
| Str (s : string).

(** A row maps column labels to cells; the first binding of a label is the
    one in force, and a label without binding reads as NaN (what
    [pd.concat] fills in for a column a yearly frame lacks). *)
Definition row : Type := list (string * cell).

Fixpoint get (r : row) (c : string) : cell :=
  match r with
  | [] => NaN
  | (k, v) :: r' => if String.eqb k c then v else get r' c
  end.

Record DataFrame : Type := mkDataFrame {
  columns : list string;
  rows : list row
}.

Definition has_column (c : string) (cols : list string) : bool :=
  existsb (String.eqb c) cols.

(** [df[c] = v] with a scalar [v]: the column is overwritten, or appended
    when new. *)
Definition set_column (df : DataFrame) (c : string) (v : cell) : DataFrame :=
  {| columns := if has_column c (columns df) then columns df else columns df ++ [c];
     rows := map (fun r => (c, v) :: r) (rows df) |}.

(** [df.rename(columns={old: new})].  A sheet carrying both spellings
    would end up with two columns of one label, which [get] resolves to the
    first; that case is not modelled further. *)
Definition rename (df : DataFrame) (old new : string) : DataFrame :=
  let re := fun k => if String.eqb k old then new else k in
  {| columns := map re (columns df);
     rows := map (map (fun kv => (re (fst kv), snd kv))) (rows df) |}.

(** [df[cols]] for labels already known to be present. *)
Definition select (df : DataFrame) (cols : list string) : DataFrame :=
  {| columns := cols;
     rows := map (filter (fun kv => has_column (fst kv) cols)) (rows df) |}.

(** [pd.concat(dfs, ignore_index=True)]: rows in order, columns the union
    in order of first appearance. *)
Definition union_columns (a b : list string) : list string :=
  a ++ filter (fun c => negb (has_column c a)) b.

Definition concat (dfs : list DataFrame) : DataFrame :=
  {| columns := fold_left union_columns (map columns dfs) [];
     rows := flat_map rows dfs |}.

(** [isna] and [dropna(subset=...)]. *)
Definition isna (v : cell) : bool :=
  match v with
  | NaN => true
  | _ => false
  end.

Definition notna_all (subset : list string) (r : row) : bool :=
  forallb (fun c => negb (isna (get r c))) subset.

Definition dropna (subset : list string) (rs : list row) : list row :=
  filter (notna_all subset) rs.

(** ** The file system seen by [pd.read_excel] *)

Inductive file : Type :=
| Missing
| Unreadable (cause : string)
| Sheet (df : DataFrame).

Definition filesystem : Type := string -> file.

(** ** Loader: file names ([app.py] 28-32, [regressao.py] 15-23) *)

Definition folder : string := "base_dados".

(** [list(range(a, b))] *)
Definition range (a b : Z) : list Z :=
  map (fun i => a + Z.of_nat i) (seq 0 (Z.to_nat (b - a))).

Definition years : list Z := range 2015 2025.

Definition str_int (n : Z) : string := NilZero.string_of_int (Z.to_int n).

(** [os.path.join(folder, f"national_M{year}_dl.xlsx")] *)
Definition filename_of (year : Z) : string :=
  folder ++ "/" ++ ("national_M" ++ str_int year ++ "_dl.xlsx").

Definition filenames : list string := map filename_of years.

(** ** Loader: one sheet ([app.py] 41-50, [regressao.py] 36-47) *)

Definition cols_to_keep : list string :=
  ["Year"; "OCC_CODE"; "OCC_TITLE"; "OCC_GROUP"; "TOT_EMP"].

Definition year_cell (year : Z) : cell := Num (inject_Z year).

Definition standardize (year : Z) (df : DataFrame) : DataFrame :=
  let df := set_column df "Year" (year_cell year) in
  let df := if has_column "O_GROUP" (columns df)
            then rename df "O_GROUP" "OCC_GROUP" else df in
  let existing_cols := filter (fun col => has_column col (columns df)) cols_to_keep in
  select df existing_cols.

(** ** Loader loop of [app.py] (lines 37-58): any failure is fatal *)

Fixpoint load_loop (fs : filesystem) (todo : list (Z * string))
    (all_dfs : list DataFrame) : result (list DataFrame) :=
  match todo with
  | [] => Ok all_dfs
  | (year, filename) :: todo' =>
      match fs filename with
      | Missing => Raise (FileNotFoundError filename)
      | Unreadable cause => Raise (ReadError filename cause)
      | Sheet df => load_loop fs todo' (all_dfs ++ [standardize year df])
      end
  end.

(** ** Loader loop of [regressao.py] (lines 30-55): failures are printed *)

(** What the script writes to standard output: text lines, and the
    printed head of the sorted table. *)
Inductive output (T : Type) : Type :=
| Line (s : string)
| Table (t : list T).
Arguments Line {T} s.
Arguments Table {T} t.

Definition warn_missing (year : Z) (filename : string) : string :=
  "AVISO: Arquivo não encontrado para o ano " ++ str_int year ++ ": " ++ filename.

Definition warn_failed (filename cause : string) : list string :=
  ["Erro ao processar o arquivo " ++ filename ++ ": " ++ cause;
   "Lembrete: Se for um erro de 'engine', talvez você precise rodar 'pip install openpyxl'"].

Fixpoint load_loop_lenient (fs : filesystem) (todo : list (Z * string))
    (all_dfs : list DataFrame) (out : list string) : list DataFrame * list string :=
  match todo with
  | [] => (all_dfs, out)
  | (year, filename) :: todo' =>
      match fs filename with
      | Missing =>
          load_loop_lenient fs todo' all_dfs (out ++ [warn_missing year filename])
      | Unreadable cause =>
          load_loop_lenient fs todo' all_dfs (out ++ warn_failed filename cause)
      | Sheet df =>
          load_loop_lenient fs todo' (all_dfs ++ [standardize year df]) out
      end
  end.

(** ** Sorting ([DataFrame.sort_values]) *)

(** [sort_values] is called without [kind], so pandas hands the key column
    to numpy's [argsort(kind='quicksort')].  The documentation of both
    libraries promises for that kind an ascending rearrangement of the
    input and, unlike for [kind='stable'] or ['mergesort'], nothing about
    the order of equal keys.  A [SortKind] is any algorithm meeting that
    contract; the pipeline is parametrised by one. *)
Record SortKind : Type := mkSortKind {
  argsort : forall A : Type, (A -> Q) -> list A -> list A;
  argsort_perm : forall A (key : A -> Q) l, Permutation l (argsort A key l);
  argsort_sorted : forall A (key : A -> Q) l,
      Sorted (fun a b => (key a <= key b)%Q) (argsort A key l)
}.
Arguments argsort _ {A} _ _.

(** A kind is stable when rows of equal key keep their input order. *)
Definition stable (K : SortKind) : Prop :=
  forall A (key : A -> Q) (l : list A) (q : Q),
    filter (fun a => Qeq_bool (key a) q) (argsort K key l)
    = filter (fun a => Qeq_bool (key a) q) l.

(** [sort_values(by=key, ascending=False)] on a column without NaN, as
    pandas' [nargsort] does it: reverse, sort ascending, reverse back. *)
Definition sort_values_desc (K : SortKind) {A : Type} (key : A -> Q)
    (l : list A) : list A :=
  rev (argsort K key (rev l)).

(** Straight insertion sort, the textbook stable algorithm. *)
Fixpoint insert_by {A : Type} (key : A -> Q) (a : A) (l : list A) : list A :=
  match l with
  | [] => [a]
  | b :: l' => if Qle_bool (key b) (key a) then b :: insert_by key a l'
               else a :: l
  end.

Definition insertion_sort {A : Type} (key : A -> Q) (l : list A) : list A :=
  fold_left (fun acc a => insert_by key a acc) l [].

(** ** Aggregator ([app.py] 60-74, [regressao.py] 57-76) *)

(** [df[c]]: the column, or [KeyError] *)
Definition column (df : DataFrame) (c : string) : result (list cell) :=
  if has_column c (columns df) then Ok (map (fun r => get r c) (rows df))
  else Raise (KeyError c).

(** [df.empty]: some axis has length zero *)
Definition empty (df : DataFrame) : bool :=
  match columns df, rows df with
  | _ :: _, _ :: _ => false
  | _, _ => true
  end.

(** [series == s] for a text literal [s] *)
Definition eq_str (v : cell) (s : string) : bool :=
  match v with
  | Str t => String.eqb t s
  | _ => false
  end.

(** ** Least squares ([scipy.stats.linregress]) *)

Module Stats.

Definition qsum (l : list Q) : Q := fold_right Qplus 0%Q l.

(** [np.mean] *)
Definition mean (l : list Q) : Q := (qsum l / inject_Z (Z.of_nat (List.length l)))%Q.

(** [np.amax], [np.amin] on a non-empty array *)
Definition amax (l : list Q) : Q :=
  match l with
  | [] => 0%Q
  | a :: l' => fold_left (fun m b => if Qle_bool m b then b else m) l' a
  end.

Definition amin (l : list Q) : Q :=
  match l with
  | [] => 0%Q
  | a :: l' => fold_left (fun m b => if Qle_bool b m then b else m) l' a
  end.

(** The fields of scipy's [LinregressResult] the pipeline could read;
    [None] is the float NaN. *)
Record LinregressResult : Type := mkLinregressResult {
  slope : option Q;
  intercept : option Q
}.

(** [scipy.stats.linregress(x, y)] (SciPy 1.6 and later): the two input
    checks, then slope = ssxym / ssxm with the mean sums of squares taken
    from [np.cov(x, y, bias=1)].  A zero [ssxm] that passed the checks
    (one single point) makes the float division 0/0, NaN. *)
Definition linregress (x y : list Q) : result LinregressResult :=
  match x, y with
  | [], _ | _, [] => Raise (ValueError "Inputs must not be empty.")
  | _, _ =>
      if Qeq_bool (amax x) (amin x) && (1 <? List.length x)%nat
      then Raise (ValueError
             "Cannot calculate a linear regression if all x values are identical")
      else
        let xmean := mean x in
        let ymean := mean y in
        let ssxm := mean (map (fun xi => (xi - xmean) * (xi - xmean))%Q x) in
        let ssxym := mean (map (fun xy => (fst xy - xmean) * (snd xy - ymean))%Q
                               (combine x y)) in
        if Qeq_bool ssxm 0 then Ok {| slope := None; intercept := None |}
        else
          let slope := (ssxym / ssxm)%Q in
          Ok {| slope := Some (Qred slope);
                intercept := Some (Qred (ymean - slope * xmean)) |}
  end.

End Stats.

Section Pipeline.

(** pandas' parser of numeric literals, used by [pd.to_numeric] on text
    cells: [Some q] for a token that reads as the number [q], [None] for
    one that does not parse. *)
Variable parse_number : string -> option Q.

(** numpy's default sort, see [SortKind]. *)
Variable quicksort : SortKind.

(** [pd.to_numeric(_, errors='coerce')] on one cell *)
Definition to_numeric_coerce (v : cell) : cell :=
  match v with
  | NaN => NaN
  | Num q => Num q
  | Str s => match parse_number s with
             | Some q => Num q
             | None => NaN
             end
  end.

(** [full_data['TOT_EMP'] = pd.to_numeric(full_data['TOT_EMP'], errors='coerce')] *)
Definition coerce_tot_emp (full_data : DataFrame) : result DataFrame :=
  tot_emp <- column full_data "TOT_EMP" ;;
  Ok {| columns := columns full_data;
        rows := map (fun rv => ("TOT_EMP", to_numeric_coerce (snd rv)) :: fst rv)
                    (combine (rows full_data) tot_emp) |}.

(** [full_data[full_data['OCC_GROUP'] == 'detailed'].copy()] *)
Definition filter_detailed (full_data : DataFrame) : result DataFrame :=
  occ_group <- column full_data "OCC_GROUP" ;;
  Ok {| columns := columns full_data;
        rows := map fst (filter (fun rv => eq_str (snd rv) "detailed")
                                (combine (rows full_data) occ_group)) |}.

(** ** Trend Estimator *)

Definition int64_min : Z := - 2 ^ 63.
Definition int64_max : Z := 2 ^ 63 - 1.

(** [astype(np.int64)] on a finite float: the fraction is cut off (C
    conversion, towards zero).  A value outside the int64 range is not
    representable; pandas does not check for it and the conversion
    instruction of x86-64 delivers the minimum integer. *)
Definition astype_int64 (q : Q) : Z :=
  let t := Z.quot (Qnum q) (Z.pos (Qden q)) in
  if (int64_min <=? t) && (t <=? int64_max) then t else int64_min.

(** The float held by a cell of a numeric column. *)
Definition float_of (v : cell) : Q :=
  match v with
  | Num q => q
  | _ => 0%Q
  end.

(** [calculate_slope] of [app.py] (lines 77-90) *)
Definition calculate_slope_app (group : list row) : result (option Q) :=
  let group := dropna ["Year"; "TOT_EMP"] group in
  if (List.length group <? 2)%nat then Ok None
  else
    let years_int := map (fun r => astype_int64 (float_of (get r "Year"))) group in
    let tot_emp_int := map (fun r => astype_int64 (float_of (get r "TOT_EMP"))) group in
    result <- Stats.linregress (map inject_Z years_int) (map inject_Z tot_emp_int) ;;
    Ok (Stats.slope result).

(** [calculate_slope] of [regressao.py] (lines 81-98) *)
Definition calculate_slope_script (group : list row) : result (option Q) :=
  let group := dropna ["Year"; "TOT_EMP"] group in
  if (List.length group <? 2)%nat then Ok None
  else
    result <- Stats.linregress (map (fun r => float_of (get r "Year")) group)
                         (map (fun r => float_of (get r "TOT_EMP")) group) ;;
    Ok (Stats.slope result).

(** ** Grouping ([DataFrame.groupby('OCC_CODE')]) *)

(** Group keys are compared as pandas' sorted factorisation does: numbers
    among themselves, text among itself (by code point), numbers before
    text.  NaN is never a key ([dropna=True]). *)
Definition key_eqb (a b : cell) : bool :=
  match a, b with
  | Num p, Num q => Qeq_bool p q
  | Str s, Str t => String.eqb s t
  | _, _ => false
  end.

Definition key_ltb (a b : cell) : bool :=
  match a, b with
  | Num p, Num q => negb (Qle_bool q p)
  | Num _, Str _ => true
  | Str s, Str t => String.ltb s t
  | _, _ => false
  end.

Fixpoint insert_key (k : cell) (ks : list cell) : list cell :=
  match ks with
  | [] => [k]
  | k' :: ks' =>
      if key_eqb k k' then ks
      else if key_ltb k k' then k :: ks
      else k' :: insert_key k ks'
  end.

(** The distinct non-null keys of a column, ascending ([sort=True]). *)
Definition group_keys (col : list cell) : list cell :=
  fold_left (fun ks k => if isna k then ks else insert_key k ks) col [].

(** The rows of the group of key [k], in frame order. *)
Definition group_rows (df : DataFrame) (by_ : string) (k : cell) : list row :=
  filter (fun r => key_eqb (get r by_) k) (rows df).

(** The groups in key order. *)
Definition groupby (df : DataFrame) (by_ : string)
  : result (list (cell * list row)) :=
  col <- column df by_ ;;
  Ok (map (fun k => (k, group_rows df by_ k)) (group_keys col)).

(** [GroupBy.last()]: the last non-null value of the group, NaN if none *)
Definition last_notna (col : list cell) : cell :=
  fold_left (fun acc v => if isna v then acc else v) col NaN.

(** ** Trend table and Ranker ([app.py] 92-104, [regressao.py] 100-118) *)

(** A row of [final_results] before ranking. *)
Record TrendRow : Type := mkTrendRow {
  OCC_CODE : cell;
  slope : Q;
  OCC_TITLE : cell
}.

(** A row of the ranked table of [app.py]. *)
Record RankedRow : Type := mkRankedRow {
  trend : TrendRow;
  Rank : Z
}.

(** [groupby('OCC_CODE').apply(calculate_slope)] *)
Definition apply_groups (calculate_slope : list row -> result (option Q))
    (groups : list (cell * list row)) : result (list (cell * option Q)) :=
  mapM (fun kg => s <- calculate_slope (snd kg) ;; Ok (fst kg, s)) groups.

(** [trends.rename('slope').reset_index().dropna()] *)
Definition dropna_slope (trends : list (cell * option Q)) : list (cell * Q) :=
  flat_map (fun ks => match snd ks with
                      | Some s => [(fst ks, s)]
                      | None => []
                      end) trends.

(** [detailed_jobs.groupby('OCC_CODE')['OCC_TITLE'].last().reset_index()] *)
Definition last_titles (detailed_jobs : DataFrame) : result (list (cell * cell)) :=
  groups <- groupby detailed_jobs "OCC_CODE" ;;
  if has_column "OCC_TITLE" (columns detailed_jobs)
  then Ok (map (fun kg => (fst kg,
                           last_notna (map (fun r => get r "OCC_TITLE") (snd kg))))
               groups)
  else Raise (KeyError "OCC_TITLE").

(** [pd.merge(trends_df, job_names, on='OCC_CODE')]: inner join, in the
    order of the left frame *)
Definition merge (trends_df : list (cell * Q)) (job_names : list (cell * cell))
  : list TrendRow :=
  flat_map (fun ks =>
              map (fun kt => {| OCC_CODE := fst ks; slope := snd ks;
                                OCC_TITLE := snd kt |})
                  (filter (fun kt => key_eqb (fst ks) (fst kt)) job_names))
           trends_df.

(** Steps 4 of [app.py] and 5 of [regressao.py]: slopes, titles, join. *)
Definition trend_table (calculate_slope : list row -> result (option Q))
    (detailed_jobs : DataFrame) : result (list TrendRow) :=
  groups <- groupby detailed_jobs "OCC_CODE" ;;
  trends <- apply_groups calculate_slope groups ;;
  let trends_df := dropna_slope trends in
  job_names <- last_titles detailed_jobs ;;
  Ok (merge trends_df job_names).

(** [reset_index(drop=True)] followed by [Rank = index + 1] *)
Definition assign_rank (sorted : list TrendRow) : list RankedRow :=
  map (fun ir => {| trend := snd ir; Rank := Z.of_nat (fst ir) + 1 |})
      (combine (seq 0 (List.length sorted)) sorted).

(** Step 5 of [app.py] *)
Definition ranker (final_results : list TrendRow) : list RankedRow :=
  assign_rank (sort_values_desc quicksort slope final_results).

(** ** The two entry points *)

(** Steps 2 and the stage checks, shared by both files up to how the two
    empty cases are reported. *)
Definition clean_and_filter (all_dfs : list DataFrame) : result DataFrame :=
  let full_data := concat all_dfs in
  full_data <- coerce_tot_emp full_data ;;
  filter_detailed full_data.

(** [load_and_process_data()] of [app.py]; returns
    [(final_results, detailed_jobs)]. *)
Definition load_and_process_data (fs : filesystem)
  : result (list RankedRow * DataFrame) :=
  all_dfs <- load_loop fs (combine years filenames) [] ;;
  match all_dfs with
  | [] => Raise NoDataLoaded
  | _ :: _ =>
      detailed_jobs <- clean_and_filter all_dfs ;;
      if empty detailed_jobs then Raise NoDetailedData
      else
        final_results <- trend_table calculate_slope_app detailed_jobs ;;
        Ok (ranker final_results, detailed_jobs)
  end.

(** [analyze_job_trends()] of [regressao.py]: what it prints, and whether
    it returns or dies on an exception it does not catch. *)
Definition analyze_job_trends (fs : filesystem)
  : list (output TrendRow) * result unit :=
  let out := [Line "Iniciando carregamento e processamento de 10 arquivos anuais..."] in
  let loaded := load_loop_lenient fs (combine years filenames) [] [] in
  let all_dfs := fst loaded in
  let out := (out ++ map Line (snd loaded))%list in
  match all_dfs with
  | [] =>
      ((out ++ [Line "Nenhum dado foi carregado. Verifique os nomes e caminhos dos arquivos."])%list,
       Ok tt)
  | _ :: _ =>
      match clean_and_filter all_dfs with
      | Raise e => (out, Raise e)
      | Ok detailed_jobs =>
          if empty detailed_jobs
          then ((out ++ [Line "Nenhum dado de profissão 'detailed' encontrado. Verifique a coluna 'OCC_GROUP'."])%list,
                Ok tt)
          else
            let out := (out ++ [Line "Dados carregados. Calculando regressão linear para cada profissão..."])%list in
            match trend_table calculate_slope_script detailed_jobs with
            | Raise e => (out, Raise e)
            | Ok final_results =>
                let top_10_growing := sort_values_desc quicksort slope final_results in
                ((out ++ [Line "";
                         Line "--- Top 10 Profissões com Maior Tendência de Alta (2015-2024) ---";
                         Line "O 'slope' representa o crescimento médio de empregos por ano.";
                          Table (firstn 10 top_10_growing)])%list,
                 Ok tt)
            end
      end
  end.

End Pipeline.

(** ** Presentation layer of [app.py] (lines 129-243): the data it shows *)

(** Only the data handed to the widgets is modelled: their renaming of the
    columns and the formatting of the numbers are not. *)

(** [df.head(n)] and [df.tail(n)] *)
Definition head {A : Type} (n : nat) (l : list A) : list A := firstn n l.

Definition tail {A : Type} (n : nat) (l : list A) : list A :=
  skipn (List.length l - n) l.

(** [sort_values(by=key)], ascending, on a column without NaN: pandas'
    [nargsort] hands the column to [argsort] as it is. *)
Definition sort_values_asc (K : SortKind) {A : Type} (key : A -> Q)
    (l : list A) : list A :=
  argsort K key l.

(** A row of [final_results[['Rank', 'OCC_TITLE', 'slope']]] *)
Record DisplayRow : Type := mkDisplayRow {
  shown_Rank : Z;
  shown_title : cell;
  shown_slope : Q
}.

Definition display (r : RankedRow) : DisplayRow :=
  {| shown_Rank := Rank r; shown_title := OCC_TITLE (trend r);
     shown_slope := slope (trend r) |}.

(** [top_10_display] as assigned on line 139 *)
Definition top_10_display (final_results : list RankedRow) : list DisplayRow :=
  head 10 (map display final_results).

(** [bottom_10_display] as assigned on lines 154-155 *)
Definition bottom_10_display (K : SortKind) (final_results : list RankedRow)
  : list DisplayRow :=
  let bottom_10 := tail 10 final_results in
  sort_values_asc K shown_slope (map display bottom_10).

(** [Series.unique()]: the values in order of first appearance; NaN counts
    as one value. *)
Definition same_value (a b : cell) : bool :=
  (isna a && isna b) || key_eqb a b.

Fixpoint unique_from (seen : list cell) (col : list cell) : list cell :=
  match col with
  | [] => []
  | v :: col' =>
      if existsb (same_value v) seen then unique_from seen col'
      else v :: unique_from (v :: seen) col'
  end.

Definition unique (col : list cell) : list cell := unique_from [] col.

(** [all_titles] (line 171) *)
Definition all_titles (final_results : list RankedRow) : list cell :=
  unique (map (fun r => OCC_TITLE (trend r)) final_results).

(** [sub in s] on two [str] *)
Fixpoint occurs (sub s : string) : bool :=
  String.prefix sub s
  || match s with
     | EmptyString => false
     | String _ s' => occurs sub s'
     end.

Section Search.

(** [str.lower] *)
Variable lower : string -> string.

(** The comprehension of line 178; [None] stands for the [AttributeError]
    of [title.lower()] on a title that is no [str]. *)
Fixpoint comprehension (search_term : string) (titles : list cell)
  : option (list cell) :=
  match titles with
  | [] => Some []
  | title :: rest =>
      match title with
      | Str s =>
          match comprehension search_term rest with
          | Some found =>
              Some (if occurs (lower search_term) (lower s)
                    then title :: found else found)
          | None => None
          end
      | _ => None
      end
  end.

(** [matching_titles] (lines 176-184) *)
Definition matching_titles (all_titles : list cell) (search_term : string)
  : option (list cell) :=
  if String.eqb search_term "" then Some (firstn 100 all_titles)
  else comprehension search_term all_titles.

End Search.

(** [series == value], element by element: NaN equals nothing *)
Definition eq_value (v value : cell) : bool := key_eqb v value.

(** [final_results[final_results['OCC_TITLE'] == selected_title].iloc[0]]
    (line 194); [None] stands for the [IndexError] of [iloc[0]] on an
    empty selection. *)
Definition job_rank_data (final_results : list RankedRow) (selected_title : cell)
  : option RankedRow :=
  hd_error (filter (fun r => eq_value (OCC_TITLE (trend r)) selected_title)
                   final_results).

(** [chart_data] as it reaches the test on line 225 (lines 216-222) *)
Definition chart_point (r : row) : row :=
  [("Year", get r "Year"); ("TOT_EMP", get r "TOT_EMP")].

Definition chart_data (K : SortKind) (detailed_data : DataFrame) (occ_code : cell)
  : result (list row) :=
  code_column <- column detailed_data "OCC_CODE" ;;
  let chart_data :=
    map fst (filter (fun rv => eq_value (snd rv) occ_code)
                    (combine (rows detailed_data) code_column)) in
  if negb (has_column "Year" (columns detailed_data)) then Raise (KeyError "Year")
  else if negb (has_column "TOT_EMP" (columns detailed_data))
       then Raise (KeyError "TOT_EMP")
  else
    let chart_data := map chart_point chart_data in
    Ok (sort_values_asc K (fun p => float_of (get p "Year"))
                        (dropna ["Year"; "TOT_EMP"] chart_data)).

(** ** Sample inputs *)

(** A parser for the examples: unsigned decimal integers and nothing else. *)
Definition digit_of (c : ascii) : option Z :=
  let n := Z.of_nat (nat_of_ascii c) in
  if (48 <=? n) && (n <=? 57) then Some (n - 48) else None.

Fixpoint digits_value (s : string) (acc : Z) : option Z :=
  match s with
  | EmptyString => Some acc
  | String c s' => match digit_of c with
                   | Some d => digits_value s' (10 * acc + d)
                   | None => None
                   end
  end.

Definition parse_digits (s : string) : option Q :=
  match s with
  | EmptyString => None
  | _ => option_map inject_Z (digits_value s 0)
  end.

Definition sheet_columns : list string :=
  ["OCC_CODE"; "OCC_TITLE"; "OCC_GROUP"; "TOT_EMP"].

Definition sheet_row (code title group : string) (emp : cell) : row :=
  [("OCC_CODE", Str code); ("OCC_TITLE", Str title);
   ("OCC_GROUP", Str group); ("TOT_EMP", emp)].

Definition empty_sheet : DataFrame := {| columns := []; rows := [] |}.

(** Ten yearly files: the first ones as given, empty sheets after them. *)
Definition fs_of_sheets (sheets : list DataFrame) : filesystem :=
  fun f =>
    match find (fun p => String.eqb f (fst p))
               (combine filenames (sheets ++ repeat empty_sheet 10)) with
    | Some p => Sheet (snd p)
    | None => Missing
    end.

Definition without (f : string) (fs : filesystem) : filesystem :=
  fun g => if String.eqb g f then Missing else fs g.

(** Occupation "X" with 100, 110 and 120 employed in 2015, 2016, 2017. *)
Definition fs_X : filesystem :=
  fs_of_sheets
    (map (fun emp => {| columns := sheet_columns;
                        rows := [sheet_row "X" "X" "detailed" (Num (inject_Z emp))] |})
         [100; 110; 120]).

(** The same three files and no file for the later years. *)
Definition fs_X_three_files : filesystem :=
  fun f => if existsb (String.eqb f) (map filename_of [2015; 2016; 2017])
           then fs_X f else Missing.

(** Occupations X (three years) and Y (one count in 2015, a suppression
    marker in 2016). *)
Definition fs_XY : filesystem :=
  fs_of_sheets
    [ {| columns := sheet_columns;
         rows := [sheet_row "X" "X" "detailed" (Num 100);
                  sheet_row "Y" "Y" "detailed" (Num 7)] |};
      {| columns := sheet_columns;
         rows := [sheet_row "X" "X" "detailed" (Num 110);
                  sheet_row "Y" "Y" "detailed" (Str "*")] |};
      {| columns := sheet_columns;
         rows := [sheet_row "X" "X" "detailed" (Num 120)] |} ].

(** Occupations B and A, listed in that order, with the same counts in
    2015 and 2016. *)
Definition fs_tied : filesystem :=
  fs_of_sheets
    [ {| columns := sheet_columns;
         rows := [sheet_row "B" "B" "detailed" (Num 100);
                  sheet_row "A" "A" "detailed" (Num 100)] |};
      {| columns := sheet_columns;
         rows := [sheet_row "B" "B" "detailed" (Num 110);
                  sheet_row "A" "A" "detailed" (Num 110)] |} ].

(** The 2015 sheet lists occupation Z twice; Z is in no other year. *)
Definition fs_Z_twice : filesystem :=
  fs_of_sheets
    [ {| columns := sheet_columns;
         rows := [sheet_row "X" "X" "detailed" (Num 100);
                  sheet_row "Z" "Z" "detailed" (Num 100);
                  sheet_row "Z" "Z" "detailed" (Num 110)] |};
      {| columns := sheet_columns;
         rows := [sheet_row "X" "X" "detailed" (Num 110)] |};
      {| columns := sheet_columns;
         rows := [sheet_row "X" "X" "detailed" (Num 120)] |} ].

Definition identical_x : exn :=
  ValueError "Cannot calculate a linear regression if all x values are identical".

(** Occupation X, titled "Clerk" in 2015, "Clerks" in 2016, and without
    title in 2017. *)
Definition fs_retitled : filesystem :=
  fs_of_sheets
    [ {| columns := sheet_columns;
         rows := [sheet_row "X" "Clerk" "detailed" (Num 100)] |};
      {| columns := sheet_columns;
         rows := [sheet_row "X" "Clerks" "detailed" (Num 110)] |};
      {| columns := sheet_columns;
         rows := [[("OCC_CODE", Str "X"); ("OCC_TITLE", NaN);
                   ("OCC_GROUP", Str "detailed"); ("TOT_EMP", Num 120)]] |} ].


Definition series_X : list row :=
  map (fun ye => [("Year", year_cell (fst ye)); ("TOT_EMP", Num (inject_Z (snd ye)))])
      [(2015, 100); (2016, 110); (2017, 120)].

(** A two-year series with fractional employment values. *)
Definition series_fractional : list row :=
  [ [("Year", year_cell 2015); ("TOT_EMP", Num (201 # 2))];
    [("Year", year_cell 2016); ("TOT_EMP", Num (1019 # 10))] ].

(** A two-year series with integral employment values beyond the int64
    range. *)
Definition series_oversized : list row :=
  [ [("Year", year_cell 2015); ("TOT_EMP", Num (inject_Z (2 ^ 63)))];
    [("Year", year_cell 2016); ("TOT_EMP", Num (inject_Z (2 ^ 66)))] ].

(** Eighteen occupations, "01" to "18", all with the same slope, in the
    order the grouping step delivers them. *)
Definition tied_table : list TrendRow :=
  map (fun code => {| OCC_CODE := Str code; slope := 0; OCC_TITLE := Str code |})
      ["01"; "02"; "03"; "04"; "05"; "06"; "07"; "08"; "09";
       "10"; "11"; "12"; "13"; "14"; "15"; "16"; "17"; "18"].

(** The files of [fs_X], the one of 2016 damaged. *)
Definition fs_X_corrupt : filesystem :=
  fun f => if String.eqb f (filename_of 2016)
           then Unreadable "File is not a zip file" else fs_X f.

(** The 2016 sheet of [fs_X], and [fs_X] with the group column of that
    sheet spelled [O_GROUP]. *)
Definition sheet_X_2016 : DataFrame :=
  {| columns := sheet_columns;
     rows := [sheet_row "X" "X" "detailed" (Num (inject_Z 110))] |}.

Definition fs_X_o_group : filesystem :=
  fun f => if String.eqb f (filename_of 2016)
           then Sheet (rename sheet_X_2016 "OCC_GROUP" "O_GROUP") else fs_X f.


(** A table with the records of occupation B around one of A. *)
Definition table_BAB : DataFrame :=
  {| columns := sheet_columns;
     rows := [sheet_row "B" "B" "detailed" (Num 100);
              sheet_row "A" "A" "detailed" (Num 100);
              sheet_row "B" "B" "detailed" (Num 110)] |}.

(** ** Vocabulary of the statements *)

(** s contains sub *)
Definition contains (s sub : string) : Prop :=
  exists pre post, s = pre ++ sub ++ post.

Definition readable (fs : filesystem) (f : string) : Prop :=
  exists df, fs f = Sheet df.



(** The year tag of a record, and tables listed year by year. *)
Definition year_of (r : row) : Q := float_of (get r "Year").

Definition chronological (rs : list row) : Prop :=
  StronglySorted (fun a b => (year_of a <= year_of b)%Q) rs.

(** Floats without fraction, and those an int64 can hold. *)
Definition integral (q : Q) : Prop := exists z : Z, q == inject_Z z.

Definition in_int64 (q : Q) : Prop :=
  exists z : Z, q == inject_Z z /\ int64_min <= z <= int64_max.

(** Strict order of group keys. *)
Definition key_lt (a b : cell) : Prop := key_ltb a b = true.

(** The keys of the groups: none missing, strictly ascending. *)
Definition ascending_keys (ks : list cell) : Prop :=
  StronglySorted key_lt ks /\ Forall (fun k => isna k = false) ks.

(** A row binds a label; a sheet does not know a label at all. *)
Definition binds (r : row) (c : string) : bool :=
  existsb (fun kv => String.eqb (fst kv) c) r.

Definition unaware_of (c : string) (df : DataFrame) : Prop :=
  has_column c (columns df) = false /\
  Forall (fun r => binds r c = false) (rows df).

(** What [standardize] does to one label and to one row. *)
Definition respell (k : string) : string :=
  if String.eqb k "O_GROUP" then "OCC_GROUP" else k.

Definition standardize_row (year : Z) (df : DataFrame) (r : row) : row :=
  filter (fun kv => has_column (fst kv) (columns (standardize year df)))
         (if has_column "O_GROUP" (columns df)
          then ("Year", year_cell year) :: map (fun kv => (respell (fst kv), snd kv)) r
          else ("Year", year_cell year) :: r).

(** Two files agree up to the spelling of the group column. *)
Definition respelled (a b : file) : Prop :=
  a = b \/
  exists df, a = Sheet df /\ unaware_of "O_GROUP" df /\
             In "OCC_GROUP" (columns df) /\
             b = Sheet (rename df "OCC_GROUP" "O_GROUP").


(** What the lenient loop keeps of a year, and what it prints for it. *)
Definition kept_of (fs : filesystem) (year : Z) : list DataFrame :=
  match fs (filename_of year) with
  | Sheet df => [standardize year df]
  | _ => []
  end.

Definition printed_for (fs : filesystem) (year : Z) : list string :=
  match fs (filename_of year) with
  | Missing => [warn_missing year (filename_of year)]
  | Unreadable cause => warn_failed (filename_of year) cause
  | Sheet _ => []
  end.

(** * Properties *)

(** ** Two sorting algorithms meeting the contract *)

Lemma insert_by_perm {A : Type} (key : A -> Q) (a : A) (l : list A) :
  Permutation (a :: l) (insert_by key a l).
Proof.
  induction l as [|b l IH]; simpl.
  - apply Permutation_refl.
  - destruct (Qle_bool (key b) (key a)).
    + eapply perm_trans; [apply perm_swap|]. now apply perm_skip.
    + apply Permutation_refl.
Qed.

Lemma insertion_fold_perm {A : Type} (key : A -> Q) (l acc : list A) :
  Permutation (l ++ acc)
    (fold_left (fun acc a => insert_by key a acc) l acc).
Proof.
  revert acc. induction l as [|a l IH]; intro acc; simpl.
  - apply Permutation_refl.
  - eapply perm_trans; [|apply IH].
    eapply perm_trans; [apply Permutation_middle|].
    apply Permutation_app_head, insert_by_perm.
Qed.

Lemma insertion_sort_perm {A : Type} (key : A -> Q) (l : list A) :
  Permutation l (insertion_sort key l).
Proof.
  unfold insertion_sort.
  rewrite <- (app_nil_r l) at 1. apply insertion_fold_perm.
Qed.

Lemma insert_by_hd {A : Type} (key : A -> Q) (a b : A) (l : list A) :
  (key b <= key a)%Q ->
  HdRel (fun x y => (key x <= key y)%Q) b l ->
  HdRel (fun x y => (key x <= key y)%Q) b (insert_by key a l).
Proof.
  intros Hba Hl. destruct l as [|c l]; simpl.
  - now constructor.
  - destruct (Qle_bool (key c) (key a)); constructor; trivial.
    now inversion Hl.
Qed.

Lemma insert_by_sorted {A : Type} (key : A -> Q) (a : A) (l : list A) :
  Sorted (fun x y => (key x <= key y)%Q) l ->
  Sorted (fun x y => (key x <= key y)%Q) (insert_by key a l).
Proof.
  induction 1 as [|b l Hs IH Hhd]; simpl.
  - repeat constructor.
  - destruct (Qle_bool (key b) (key a)) eqn:E.
    + apply Qle_bool_iff in E. constructor; [exact IH|].
      now apply insert_by_hd.
    + constructor; [now constructor|]. constructor.
      apply Qlt_le_weak, Qnot_le_lt. intro H.
      apply Qle_bool_iff in H. congruence.
Qed.

Lemma insertion_fold_sorted {A : Type} (key : A -> Q) (l acc : list A) :
  Sorted (fun x y => (key x <= key y)%Q) acc ->
  Sorted (fun x y => (key x <= key y)%Q)
    (fold_left (fun acc a => insert_by key a acc) l acc).
Proof.
  revert acc. induction l as [|a l IH]; intros acc Hacc; simpl; trivial.
  apply IH. now apply insert_by_sorted.
Qed.

Lemma insertion_sort_sorted {A : Type} (key : A -> Q) (l : list A) :
  Sorted (fun x y => (key x <= key y)%Q) (insertion_sort key l).
Proof. apply insertion_fold_sorted. constructor. Qed.

(** The contract met by a stable algorithm ([kind='stable']). *)
Definition stable_kind : SortKind :=
  {| argsort := fun A key l => insertion_sort key l;
     argsort_perm := fun A key l => insertion_sort_perm key l;
     argsort_sorted := fun A key l => insertion_sort_sorted key l |}.

(** The same contract met by an algorithm that hands equal keys back in
    reverse input order. *)
Definition reversing_kind : SortKind :=
  {| argsort := fun A key l => insertion_sort key (rev l);
     argsort_perm := fun A key l =>
       perm_trans (Permutation_rev l) (insertion_sort_perm key (rev l));
     argsort_sorted := fun A key l => insertion_sort_sorted key (rev l) |}.

(** ** Loader *)

Lemma combine_map_r {A B : Type} (f : A -> B) (l : list A) :
  combine l (map f l) = map (fun a => (a, f a)) l.
Proof. induction l; simpl; congruence. Qed.

Lemma todo_eq : combine years filenames = map (fun y => (y, filename_of y)) years.
Proof. apply combine_map_r. Qed.

Section Loader.

Variable fs : filesystem.

Lemma load_loop_first_missing pre year f post acc :
  Forall (fun p => readable fs (snd p)) pre ->
  fs f = Missing ->
  load_loop fs (pre ++ (year, f) :: post) acc = Raise (FileNotFoundError f).
Proof.
  intros Hpre Hf. revert acc.
  induction Hpre as [|[y g] pre [df Hg] _ IH]; intro acc; simpl.
  - now rewrite Hf.
  - simpl in Hg. rewrite Hg. apply IH.
Qed.

Lemma load_loop_missing_raises todo acc p :
  In p todo -> fs (snd p) = Missing ->
  exists e, load_loop fs todo acc = Raise e.
Proof.
  revert acc. induction todo as [|[y g] todo IH]; intros acc Hin Hp.
  - destruct Hin.
  - simpl. destruct (fs g) eqn:Eg; eauto.
    destruct Hin as [<-|Hin]; [simpl in Hp; congruence|].
    now apply IH.
Qed.

(** A successful loop read one sheet per entry, in order. *)
Lemma load_loop_ok todo : forall acc dfs,
  load_loop fs todo acc = Ok dfs ->
  exists sheets,
    Forall2 (fun p df => fs (snd p) = Sheet df) todo sheets /\
    dfs = (acc ++ map (fun pd => standardize (fst (fst pd)) (snd pd))
                      (combine todo sheets))%list.
Proof.
  induction todo as [|[y g] todo IH]; intros acc dfs H; simpl in H.
  - exists []. split; [constructor|]. simpl. rewrite app_nil_r. congruence.
  - destruct (fs g) eqn:Eg; try discriminate.
    apply IH in H. destruct H as [sheets [HF ->]].
    exists (df :: sheets). split; [now constructor|].
    simpl. now rewrite <- app_assoc.
Qed.

Lemma load_loop_lenient_keeps todo : forall acc out s,
  In s out -> In s (snd (load_loop_lenient fs todo acc out)).
Proof.
  induction todo as [|[y g] todo IH]; intros acc out s Hs; simpl; trivial.
  destruct (fs g); apply IH; trivial; apply in_or_app; now left.
Qed.

Lemma load_loop_lenient_warns todo : forall acc out year f,
  In (year, f) todo -> fs f = Missing ->
  In (warn_missing year f) (snd (load_loop_lenient fs todo acc out)).
Proof.
  induction todo as [|[y g] todo IH]; intros acc out year f Hin Hf.
  - destruct Hin.
  - destruct Hin as [E|Hin].
    + inversion E; subst. simpl. rewrite Hf.
      apply load_loop_lenient_keeps, in_or_app. right. now left.
    + simpl. destruct (fs g); now apply IH.
Qed.

End Loader.

(** Every line of the loader's output is part of what the script prints. *)
Lemma analyze_job_trends_prints_loader parse K fs s :
  In s (snd (load_loop_lenient fs (combine years filenames) [] [])) ->
  In (Line s) (fst (analyze_job_trends parse K fs)).
Proof.
  intro Hs. unfold analyze_job_trends.
  set (loaded := load_loop_lenient fs (combine years filenames) [] []) in *.
  assert (Hin : In (Line s) (map (@Line TrendRow) (snd loaded)))
    by now apply in_map.
  destruct (fst loaded); cbn [fst].
  - apply in_or_app. left. apply in_or_app. now right.
  - destruct (clean_and_filter parse _); cbn [fst].
    + destruct (empty a); cbn [fst].
      * apply in_or_app. left. apply in_or_app. now right.
      * destruct (trend_table _ a); cbn [fst].
        -- apply in_or_app. left. apply in_or_app. left.
           apply in_or_app. now right.
        -- apply in_or_app. left. apply in_or_app. now right.
    + apply in_or_app. now right.
Qed.

(** The requested years in ascending order, split at one of them. *)
Lemma years_split year :
  In year years ->
  exists pre post, years = (pre ++ year :: post)%list /\ Forall (fun y => y < year) pre.
Proof.
  intro H. vm_compute in H.
  repeat (destruct H as [<-|H];
    [ match goal with
      | |- context [ ?y :: _ ] => idtac
      end |]); try contradiction.
  all: match goal with
       | |- exists pre post, _ = (pre ++ ?y :: post)%list /\ _ =>
           exists (filter (fun z => z <? y) years), (filter (fun z => y <? z) years);
           split; [vm_compute; reflexivity | vm_compute; repeat constructor]
       end.
Qed.

Lemma load_and_process_data_loader_raises parse K fs e :
  load_loop fs (combine years filenames) [] = Raise e ->
  load_and_process_data parse K fs = Raise e.
Proof. intro H. unfold load_and_process_data. now rewrite H. Qed.

Lemma load_loop_lenient_spec (fs : filesystem) (ys : list Z) : forall acc out,
  load_loop_lenient fs (map (fun y => (y, filename_of y)) ys) acc out
  = ((acc ++ flat_map (kept_of fs) ys)%list,
     (out ++ flat_map (printed_for fs) ys)%list).
Proof.
  induction ys as [|y ys IH]; intros acc out; simpl.
  - now rewrite !app_nil_r.
  - unfold kept_of at 1, printed_for at 1.
    destruct (fs (filename_of y)); rewrite IH; cbn [app];
      now rewrite <- ?app_assoc.
Qed.

Lemma append_nil_r (s : string) : s ++ "" = s.
Proof. induction s as [|c s IH]; simpl; congruence. Qed.

Lemma append_assoc (a b c : string) : (a ++ b) ++ c = a ++ (b ++ c).
Proof. induction a as [|x a IH]; simpl; congruence. Qed.

(** C1 (as amended).  In [app.py] a missing file of a requested year is
    fatal: [load_and_process_data] raises and returns no table, and when
    the files of the earlier years are readable the exception is the
    [FileNotFoundError] whose text names the path, which spells the year.
    The loader of [regressao.py] does not abort: it prints a warning
    naming year and path, and goes on with the years that loaded: what it
    hands on is the standardized sheet of every readable year, before and
    after the missing one, in year order, and what it prints are the
    warnings of the other years. *)
Theorem missing_file_fatal_in_app_warned_in_script parse K fs year :
  In year years ->
  fs (filename_of year) = Missing ->
  (exists e, load_and_process_data parse K fs = Raise e) /\
  ((forall y, In y years -> y < year -> readable fs (filename_of y)) ->
   load_and_process_data parse K fs = Raise (FileNotFoundError (filename_of year)) /\
   contains (str_exn (FileNotFoundError (filename_of year))) (filename_of year) /\
   contains (filename_of year) (str_int year)) /\
  In (Line (warn_missing year (filename_of year)))
     (fst (analyze_job_trends parse K fs)) /\
  contains (warn_missing year (filename_of year)) (str_int year) /\
  contains (warn_missing year (filename_of year)) (filename_of year) /\
  load_loop_lenient fs (combine years filenames) [] []
  = (flat_map (kept_of fs) years, flat_map (printed_for fs) years) /\
  (forall y df, In y years -> fs (filename_of y) = Sheet df ->
     In (standardize y df)
        (fst (load_loop_lenient fs (combine years filenames) [] []))).
Proof.
  intros Hyear Hmiss.
  assert (Hin : In (year, filename_of year) (combine years filenames)).
  { rewrite todo_eq. now apply (in_map (fun y => (y, filename_of y))). }
  assert (Hloader : load_loop_lenient fs (combine years filenames) [] []
                    = (flat_map (kept_of fs) years,
                       flat_map (printed_for fs) years)).
  { rewrite todo_eq. apply (load_loop_lenient_spec fs years [] []). }
  split; [|split; [|split; [|split; [|split; [|split]]]]].
  - destruct (load_loop_missing_raises fs _ [] _ Hin Hmiss) as [e He].
    exists e. now apply load_and_process_data_loader_raises.
  - intro Hearlier. split; [|split].
    + apply load_and_process_data_loader_raises.
      destruct (years_split year Hyear) as [pre [post [Hy Hpre]]].
      rewrite todo_eq, Hy, map_app. simpl map.
      apply load_loop_first_missing; trivial.
      apply Forall_forall. intros p Hp.
      apply in_map_iff in Hp. destruct Hp as [y [<- Hyin]]. simpl.
      apply Hearlier.
      * rewrite Hy. apply in_or_app. now left.
      * now apply (proj1 (Forall_forall _ _) Hpre).
    + exists "Arquivo não encontrado: ", ". Verifique a pasta 'base_dados'.".
      reflexivity.
    + exists "base_dados/national_M", "_dl.xlsx". reflexivity.
  - apply analyze_job_trends_prints_loader.
    now apply load_loop_lenient_warns.
  - exists "AVISO: Arquivo não encontrado para o ano ", (": " ++ filename_of year).
    reflexivity.
  - exists ("AVISO: Arquivo não encontrado para o ano " ++ str_int year ++ ": "), "".
    unfold warn_missing. now rewrite append_nil_r, !append_assoc.
  - exact Hloader.
  - intros y df Hy Hdf. rewrite Hloader. cbn [fst].
    apply in_flat_map. exists y. split; [exact Hy|].
    unfold kept_of. rewrite Hdf. now left.
Qed.

Lemma missing_file_fatal_in_app_warned_in_script_witness :
  load_and_process_data parse_digits stable_kind
    (without (filename_of 2016) fs_X)
  = Raise (FileNotFoundError (filename_of 2016)).
Proof.
  refine (proj1 (proj1 (proj2
    (missing_file_fatal_in_app_warned_in_script parse_digits stable_kind
       (without (filename_of 2016) fs_X) 2016 _ _)) _)).
  - vm_compute. auto.
  - reflexivity.
  - intros y Hy Hlt. vm_compute in Hy.
    destruct Hy as [<-|Hy]; [eexists; reflexivity|].
    repeat (destruct Hy as [<-|Hy]; [lia|]). destruct Hy.
Defined.

(** C1 as stated fails for the loader of [regressao.py]: with the 2016
    file missing the script does not abort, it prints a ranking computed
    from the year before and the year after. *)
Lemma missing_file_script_still_ranks :
  In 2016 years /\
  without (filename_of 2016) fs_X (filename_of 2016) = Missing /\
  snd (analyze_job_trends parse_digits stable_kind
         (without (filename_of 2016) fs_X)) = Ok tt /\
  In (Table [{| OCC_CODE := Str "X"; slope := 10; OCC_TITLE := Str "X" |}])
     (fst (analyze_job_trends parse_digits stable_kind
             (without (filename_of 2016) fs_X))).
Proof.
  split; [vm_compute; auto|]. split; [reflexivity|].
  split; [vm_compute; reflexivity|].
  vm_compute. do 6 right. left. reflexivity.
Qed.

(** ** Sorting by slope *)

Lemma StronglySorted_snoc {A : Type} (R : A -> A -> Prop) (l : list A) (a : A) :
  StronglySorted R l -> Forall (fun b => R b a) l ->
  StronglySorted R (l ++ [a]).
Proof.
  induction 1 as [|b l Hl IH Hb]; intro Ha; simpl.
  - repeat constructor.
  - inversion Ha; subst. constructor; [now apply IH|].
    apply Forall_app. split; trivial. now repeat constructor.
Qed.

Lemma StronglySorted_rev {A : Type} (R : A -> A -> Prop) (l : list A) :
  StronglySorted R l -> StronglySorted (fun a b => R b a) (rev l).
Proof.
  induction 1 as [|a l Hl IH Ha]; simpl.
  - constructor.
  - apply StronglySorted_snoc; trivial. now apply Forall_rev.
Qed.

Lemma StronglySorted_app {A : Type} (R : A -> A -> Prop) (l1 l2 : list A) :
  StronglySorted R l1 -> StronglySorted R l2 ->
  (forall a b, In a l1 -> In b l2 -> R a b) ->
  StronglySorted R (l1 ++ l2).
Proof.
  induction 1 as [|a l1 H1 IH Ha]; intros H2 H12; simpl; trivial.
  constructor.
  - apply IH; trivial. intros x y Hx Hy. apply H12; trivial. now right.
  - apply Forall_app. split; trivial.
    apply Forall_forall. intros y Hy. apply H12; trivial. now left.
Qed.

Lemma StronglySorted_filter {A : Type} (R : A -> A -> Prop) (p : A -> bool)
    (l : list A) :
  StronglySorted R l -> StronglySorted R (filter p l).
Proof.
  induction 1 as [|a l Hl IH Ha]; simpl; [constructor|].
  destruct (p a); trivial. constructor; trivial.
  apply Forall_forall. intros x Hx. apply filter_In in Hx.
  now apply (proj1 (Forall_forall _ _) Ha).
Qed.

Lemma StronglySorted_map {A B : Type} (f : A -> B) (R : B -> B -> Prop)
    (l : list A) :
  StronglySorted (fun a b => R (f a) (f b)) l -> StronglySorted R (map f l).
Proof.
  induction 1 as [|a l Hl IH Ha]; simpl; constructor; trivial.
  apply Forall_map. exact Ha.
Qed.

Lemma StronglySorted_map_inv {A B : Type} (f : A -> B) (R : B -> B -> Prop)
    (l : list A) :
  StronglySorted R (map f l) -> StronglySorted (fun a b => R (f a) (f b)) l.
Proof.
  induction l as [|a l IH]; simpl; intro H; [constructor|].
  inversion H; subst. constructor; [now apply IH|].
  now apply Forall_map.
Qed.

Lemma Qle_key_transitive {A : Type} (key : A -> Q) :
  Relations_1.Transitive (fun a b => (key a <= key b)%Q).
Proof. intros a b c Hab Hbc. now apply Qle_trans with (key b). Qed.

Section Sorting.

Variable K : SortKind.
Context {A : Type}.
Variable key : A -> Q.

Lemma sort_values_desc_perm (l : list A) :
  Permutation l (sort_values_desc K key l).
Proof.
  unfold sort_values_desc.
  eapply perm_trans; [apply Permutation_rev|].
  eapply perm_trans; [apply argsort_perm|].
  apply Permutation_rev.
Qed.

Lemma sort_values_desc_length (l : list A) :
  List.length (sort_values_desc K key l) = List.length l.
Proof. symmetry. apply Permutation_length, sort_values_desc_perm. Qed.

Lemma sort_values_desc_sorted (l : list A) :
  StronglySorted (fun a b => (key b <= key a)%Q) (sort_values_desc K key l).
Proof.
  unfold sort_values_desc.
  apply (StronglySorted_rev (fun a b => (key a <= key b)%Q)).
  apply Sorted_StronglySorted; [apply Qle_key_transitive|].
  apply argsort_sorted.
Qed.

Lemma sort_values_desc_singleton (a : A) :
  sort_values_desc K key [a] = [a].
Proof.
  apply Permutation_length_1_inv.
  apply sort_values_desc_perm.
Qed.

Lemma sort_values_desc_nil : sort_values_desc K key [] = [].
Proof.
  apply Permutation_nil. apply sort_values_desc_perm.
Qed.

(** Under a stable kind the rows of one key value keep their order. *)
Lemma sort_values_desc_stable (l : list A) (q : Q) :
  stable K ->
  filter (fun a => Qeq_bool (key a) q) (sort_values_desc K key l)
  = filter (fun a => Qeq_bool (key a) q) l.
Proof.
  intro HK. unfold sort_values_desc.
  rewrite <- (rev_involutive (filter _ (rev _))).
  rewrite <- (rev_involutive (filter _ l)). f_equal.
  rewrite <- !filter_rev, rev_involutive. apply HK.
Qed.

End Sorting.

(** ** Ranker *)

Lemma assign_rank_trend (sorted : list TrendRow) :
  map trend (assign_rank sorted) = sorted.
Proof.
  unfold assign_rank. rewrite map_map. simpl.
  generalize 0%nat. induction sorted as [|r l IH]; intro n; simpl; trivial.
  now rewrite IH.
Qed.

Lemma assign_rank_Rank (sorted : list TrendRow) :
  map Rank (assign_rank sorted)
  = map Z.of_nat (seq 1 (List.length sorted)).
Proof.
  unfold assign_rank. rewrite map_map. simpl.
  rewrite <- seq_shift, map_map.
  generalize 0%nat. induction sorted as [|r l IH]; intro n; simpl; trivial.
  rewrite IH. f_equal. lia.
Qed.

(** C2.  The ranked table is in descending order of slope: every row is
    followed only by rows of smaller or equal slope (adjacent pairs in
    particular, and the first row has the maximum slope), and the Rank
    column reads 1, 2, ..., n from top to bottom.  Every run of the Ranker
    gives this, whatever table it is handed and whatever algorithm the
    sort uses. *)
Theorem ranked_table_descending_and_numbered (K : SortKind)
    (final_results : list TrendRow) :
  Sorted (fun a b => (slope (trend b) <= slope (trend a))%Q)
         (ranker K final_results) /\
  StronglySorted (fun a b => (slope (trend b) <= slope (trend a))%Q)
                 (ranker K final_results) /\
  map Rank (ranker K final_results)
  = map Z.of_nat (seq 1 (List.length (ranker K final_results))) /\
  Permutation final_results (map trend (ranker K final_results)).
Proof.
  assert (HS : StronglySorted (fun a b => (slope (trend b) <= slope (trend a))%Q)
                 (ranker K final_results)).
  { unfold ranker.
    apply (StronglySorted_map_inv trend (fun a b => (slope b <= slope a)%Q)).
    rewrite assign_rank_trend. apply sort_values_desc_sorted. }
  split; [now apply StronglySorted_Sorted|]. split; [exact HS|]. split.
  - unfold ranker. rewrite assign_rank_Rank. do 2 f_equal.
    rewrite <- (length_map trend), assign_rank_trend. reflexivity.
  - unfold ranker. rewrite assign_rank_trend. apply sort_values_desc_perm.
Qed.

(** ** Order of equal slopes *)

Lemma insert_by_filter {A : Type} (key : A -> Q) (a : A) (l : list A) (q : Q) :
  StronglySorted (fun x y => (key x <= key y)%Q) l ->
  filter (fun x => Qeq_bool (key x) q) (insert_by key a l)
  = (filter (fun x => Qeq_bool (key x) q) l
     ++ (if Qeq_bool (key a) q then [a] else []))%list.
Proof.
  induction 1 as [|b l Hl IH Hb]; simpl.
  - reflexivity.
  - destruct (Qle_bool (key b) (key a)) eqn:Eba; simpl.
    + rewrite IH. now destruct (Qeq_bool (key b) q).
    + destruct (Qeq_bool (key a) q) eqn:Eaq; [|now rewrite app_nil_r].
      assert (Hlt : (key a < key b)%Q).
      { apply Qnot_le_lt. intro H. apply Qle_bool_iff in H. congruence. }
      apply Qeq_bool_eq in Eaq.
      assert (Hnone : forall x, (key b <= key x)%Q -> Qeq_bool (key x) q = false).
      { intros x Hx. destruct (Qeq_bool (key x) q) eqn:E; trivial.
        apply Qeq_bool_eq in E. rewrite E, <- Eaq in Hx.
        exfalso. now apply (Qlt_not_le _ _ Hlt). }
      rewrite (Hnone b) by apply Qle_refl.
      replace (filter (fun x => Qeq_bool (key x) q) l) with (@nil A);
        [reflexivity|].
      symmetry. clear IH Hl. induction Hb as [|c l Hc _ IH]; simpl; trivial.
      now rewrite (Hnone c Hc).
Qed.

Lemma insertion_fold_filter {A : Type} (key : A -> Q) (q : Q) (l : list A) :
  forall acc,
  StronglySorted (fun x y => (key x <= key y)%Q) acc ->
  filter (fun x => Qeq_bool (key x) q)
         (fold_left (fun acc a => insert_by key a acc) l acc)
  = (filter (fun x => Qeq_bool (key x) q) acc
     ++ filter (fun x => Qeq_bool (key x) q) l)%list.
Proof.
  induction l as [|a l IH]; intros acc Hacc; simpl.
  - now rewrite app_nil_r.
  - rewrite IH.
    + rewrite insert_by_filter by trivial. rewrite <- app_assoc.
      now destruct (Qeq_bool (key a) q).
    + apply Sorted_StronglySorted; [apply Qle_key_transitive|].
      apply insert_by_sorted. now apply StronglySorted_Sorted.
Qed.

Lemma stable_kind_stable : stable stable_kind.
Proof.
  intros A key l q. simpl. unfold insertion_sort.
  rewrite insertion_fold_filter by constructor. reflexivity.
Qed.

(** C3 as stated does not follow from the code: the sort is requested with
    the default kind, and an algorithm within the contract of that kind
    ranks the tied occupations in another order than the grouping step's. *)
Lemma tied_slopes_order_not_fixed_by_default_kind :
  ~ (forall (K : SortKind) (q : Q),
       filter (fun r => Qeq_bool (slope r) q) (map trend (ranker K tied_table))
       = filter (fun r => Qeq_bool (slope r) q) tied_table).
Proof.
  intro H. specialize (H reversing_kind 0%Q).
  vm_compute in H. discriminate H.
Qed.

(** ** Structure of a successful run *)

Lemma bind_Ok {A B : Type} (m : result A) (k : A -> result B) (b : B) :
  bind m k = Ok b -> exists a, m = Ok a /\ k a = Ok b.
Proof. destruct m; simpl; [eauto|discriminate]. Qed.

Lemma load_and_process_data_inv parse K fs final detailed :
  load_and_process_data parse K fs = Ok (final, detailed) ->
  exists all_dfs t,
    load_loop fs (combine years filenames) [] = Ok all_dfs /\
    clean_and_filter parse all_dfs = Ok detailed /\
    empty detailed = false /\
    trend_table calculate_slope_app detailed = Ok t /\
    final = ranker K t.
Proof.
  unfold load_and_process_data. intro H.
  apply bind_Ok in H. destruct H as [all_dfs [Hl H]].
  destruct all_dfs as [|df dfs]; [discriminate|].
  apply bind_Ok in H. destruct H as [d [Hd H]].
  destruct (empty d) eqn:Ee; [discriminate|].
  apply bind_Ok in H. destruct H as [t [Ht H]].
  inversion H; subst. exists (df :: dfs), t. auto.
Qed.

Lemma mapM_In {A B : Type} (f : A -> result B) (l : list A) :
  forall bs b, mapM f l = Ok bs -> In b bs -> exists a, In a l /\ f a = Ok b.
Proof.
  induction l as [|a l IH]; intros bs b H Hb; simpl in H.
  - inversion H; subst. destruct Hb.
  - apply bind_Ok in H. destruct H as [b0 [Hb0 H]].
    apply bind_Ok in H. destruct H as [bs0 [Hbs0 H]].
    inversion H; subst. destruct Hb as [<-|Hb].
    + exists a. split; [now left|trivial].
    + destruct (IH _ _ Hbs0 Hb) as [a' [Ha' Hf]].
      exists a'. split; [now right|trivial].
Qed.

(** ** Group keys *)

Lemma key_eqb_cong (a b : cell) :
  key_eqb a b = true -> forall c, key_eqb c a = key_eqb c b.
Proof.
  intros H c. destruct a, b; try discriminate; destruct c; simpl in *; trivial.
  - apply Qeq_bool_eq in H. now rewrite H.
  - apply String.eqb_eq in H. now subst.
Qed.

Lemma key_eqb_sym (a b : cell) : key_eqb a b = key_eqb b a.
Proof.
  destruct a, b; simpl; trivial.
  - apply Qeq_bool_comm.
  - apply String.eqb_sym.
Qed.

Lemma group_rows_cong (df : DataFrame) (by_ : string) (a b : cell) :
  key_eqb a b = true -> group_rows df by_ a = group_rows df by_ b.
Proof.
  intro H. unfold group_rows. apply filter_ext.
  intro r. now apply key_eqb_cong.
Qed.

(** Every row of the joined table comes from a group whose slope was
    computed, and carries the last known title of that group. *)
Lemma trend_table_row calc (d : DataFrame) (t : list TrendRow) (r : TrendRow) :
  trend_table calc d = Ok t -> In r t ->
  calc (group_rows d "OCC_CODE" (OCC_CODE r)) = Ok (Some (slope r)) /\
  OCC_TITLE r
  = last_notna (map (fun x => get x "OCC_TITLE")
                    (group_rows d "OCC_CODE" (OCC_CODE r))).
Proof.
  unfold trend_table, last_titles. intros H Hr.
  apply bind_Ok in H. destruct H as [groups [Hg H]].
  apply bind_Ok in H. destruct H as [trends [Htr H]].
  apply bind_Ok in H. destruct H as [names [Hn H]].
  rewrite Hg in Hn. simpl in Hn.
  destruct (has_column "OCC_TITLE" (columns d)); [|discriminate].
  inversion Hn; subst names; clear Hn.
  inversion H; subst t; clear H.
  unfold groupby in Hg. apply bind_Ok in Hg. destruct Hg as [col [_ Hg]].
  inversion Hg; subst groups; clear Hg.
  unfold merge in Hr. apply in_flat_map in Hr. destruct Hr as [[k s] [Hks Hr]].
  apply in_map_iff in Hr. destruct Hr as [[k' ti] [<- Hkt]]. simpl.
  apply filter_In in Hkt. destruct Hkt as [Hkt Hkk]. simpl in Hkk.
  split.
  - unfold dropna_slope in Hks. apply in_flat_map in Hks.
    destruct Hks as [[k0 [s0|]] [Hin Hks]]; simpl in Hks;
      [destruct Hks as [E|[]]|destruct Hks].
    inversion E; subst k0 s0; clear E.
    unfold apply_groups in Htr.
    destruct (mapM_In _ _ _ _ Htr Hin) as [[k1 g] [Hg Hc]].
    apply bind_Ok in Hc. destruct Hc as [s1 [Hc E]]. simpl in *.
    inversion E; subst; clear E.
    apply in_map_iff in Hg. destruct Hg as [k2 [E _]].
    inversion E; subst. exact Hc.
  - rewrite map_map in Hkt. apply in_map_iff in Hkt.
    destruct Hkt as [k2 [E _]]. simpl in E. inversion E; subst.
    now rewrite (group_rows_cong d "OCC_CODE" _ _ Hkk).
Qed.

(** ** Order of the groups *)


Lemma string_ltb_trans (s t u : string) :
  String.ltb s t = true -> String.ltb t u = true -> String.ltb s u = true.
Proof.
  unfold String.ltb. intros Hst Htu.
  destruct (String.compare s t) eqn:Est; try discriminate.
  destruct (String.compare t u) eqn:Etu; try discriminate.
  apply String_as_OT.cmp_lt in Est. apply String_as_OT.cmp_lt in Etu.
  pose proof (String_as_OT.lt_trans _ _ _ Est Etu) as H.
  apply String_as_OT.cmp_lt in H. unfold String_as_OT.cmp in H. now rewrite H.
Qed.

Lemma string_ltb_total (s t : string) :
  String.eqb s t = false -> String.ltb s t = false -> String.ltb t s = true.
Proof.
  unfold String.ltb. intros He Hl. rewrite (String.compare_antisym t s).
  destruct (String.compare s t) eqn:E; simpl; trivial; try discriminate.
  apply String.compare_eq_iff in E. subst. now rewrite String.eqb_refl in He.
Qed.

Lemma string_ltb_irrefl (s t : string) :
  String.ltb s t = true -> String.eqb s t = false.
Proof.
  unfold String.ltb. intro H. destruct (String.eqb s t) eqn:E; trivial.
  apply String.eqb_eq in E. subst t.
  destruct (String.compare s s) eqn:Ec; try discriminate.
  apply String_as_OT.cmp_lt in Ec.
  exfalso. now apply (String_as_OT.lt_not_eq _ _ Ec).
Qed.

Lemma key_lt_trans (a b c : cell) : key_lt a b -> key_lt b c -> key_lt a c.
Proof.
  unfold key_lt.
  destruct a as [|p|s], b as [|q|t], c as [|r|u]; simpl; try discriminate; trivial.
  - rewrite !negb_true_iff. intros H1 H2.
    destruct (Qle_bool r p) eqn:E; trivial.
    apply Qle_bool_iff in E.
    assert (Hpq : (p < q)%Q).
    { apply Qnot_le_lt. intro H. apply Qle_bool_iff in H. congruence. }
    assert (Hqr : (q < r)%Q).
    { apply Qnot_le_lt. intro H. apply Qle_bool_iff in H. congruence. }
    exfalso. apply (Qlt_not_le _ _ (Qlt_trans _ _ _ Hpq Hqr) E).
  - apply string_ltb_trans.
Qed.

Lemma key_lt_not_eqb (a b : cell) : key_lt a b -> key_eqb a b = false.
Proof.
  unfold key_lt. destruct a as [|p|s], b as [|q|t]; simpl; try discriminate; trivial.
  - rewrite negb_true_iff. intro H.
    destruct (Qeq_bool p q) eqn:E; trivial.
    apply Qeq_bool_eq in E.
    assert (Hle : (q <= p)%Q) by (rewrite E; apply Qle_refl).
    apply Qle_bool_iff in Hle. congruence.
  - apply string_ltb_irrefl.
Qed.

Lemma key_lt_total (a b : cell) :
  isna a = false -> isna b = false ->
  key_eqb a b = false -> key_ltb a b = false -> key_lt b a.
Proof.
  unfold key_lt.
  destruct a as [|p|s], b as [|q|t]; simpl; try discriminate; trivial.
  - intros _ _ He Hl. rewrite negb_false_iff in Hl. rewrite negb_true_iff.
    destruct (Qle_bool p q) eqn:E; trivial.
    apply Qle_bool_iff in E. apply Qle_bool_iff in Hl.
    apply Qeq_bool_neq in He. exfalso. apply He. now apply Qle_antisym.
  - intros _ _. apply string_ltb_total.
Qed.

Lemma key_lt_cong_l (a b c : cell) :
  key_eqb a b = true -> key_lt b c -> key_lt a c.
Proof.
  unfold key_lt.
  destruct a as [|p|s], b as [|q|t], c as [|r|u]; simpl; try discriminate; trivial.
  - intros H. apply Qeq_bool_eq in H. now rewrite H.
  - intros H. apply String.eqb_eq in H. now subst.
Qed.


Lemma insert_key_Forall (P : cell -> Prop) (k : cell) (ks : list cell) :
  P k -> Forall P ks -> Forall P (insert_key k ks).
Proof.
  intro Hk. induction 1 as [|k' ks Hk' Hks IH]; simpl.
  - now repeat constructor.
  - destruct (key_eqb k k'); [now constructor|].
    destruct (key_ltb k k'); constructor; trivial. now constructor.
Qed.

Lemma insert_key_ascending (k : cell) (ks : list cell) :
  isna k = false -> ascending_keys ks -> ascending_keys (insert_key k ks).
Proof.
  intros Hk [Hs Hn]. split; [|now apply insert_key_Forall].
  induction Hs as [|k' ks Hs IH Hall]; simpl.
  - repeat constructor.
  - inversion Hn as [|? ? Hk' Hn']; subst.
    destruct (key_eqb k k') eqn:Ee; [now constructor|].
    destruct (key_ltb k k') eqn:El.
    + constructor; [now constructor|]. constructor; [exact El|].
      apply Forall_forall. intros x Hx.
      apply key_lt_trans with k'; trivial.
      now apply (proj1 (Forall_forall _ _) Hall).
    + constructor; [now apply IH|].
      apply insert_key_Forall; trivial. now apply key_lt_total.
Qed.

Lemma group_keys_ascending (col : list cell) : ascending_keys (group_keys col).
Proof.
  unfold group_keys.
  assert (H : forall acc, ascending_keys acc ->
    ascending_keys
      (fold_left (fun ks k => if isna k then ks else insert_key k ks) col acc)).
  { induction col as [|k col IH]; intros acc Hacc; simpl; trivial.
    apply IH. destruct (isna k) eqn:E; trivial.
    now apply insert_key_ascending. }
  apply H. split; constructor.
Qed.

Lemma key_eqb_refl (k : cell) : isna k = false -> key_eqb k k = true.
Proof.
  destruct k; simpl; try discriminate; intros _.
  - apply Qeq_bool_refl.
  - apply String.eqb_refl.
Qed.

Lemma mapM_keys {A B C : Type} (f : B -> result C) (l : list (A * B)) :
  forall l', mapM (fun kg => s <- f (snd kg) ;; Ok (fst kg, s)) l = Ok l' ->
             map fst l' = map fst l.
Proof.
  induction l as [|[k g] l IH]; intros l' H; simpl in H.
  - now inversion H.
  - apply bind_Ok in H. destruct H as [ks [Hks H]].
    apply bind_Ok in Hks. destruct Hks as [s [_ Hks]].
    apply bind_Ok in H. destruct H as [l0 [Hl0 H]].
    inversion Hks; subst. inversion H; subst. simpl.
    now rewrite (IH _ Hl0).
Qed.

Lemma dropna_slope_keys (trends : list (cell * option Q)) :
  StronglySorted key_lt (map fst trends) ->
  StronglySorted key_lt (map fst (dropna_slope trends)) /\
  (forall k, In k (map fst (dropna_slope trends)) -> In k (map fst trends)).
Proof.
  induction trends as [|[k [s|]] l IH]; simpl; intro H.
  - split; [constructor|tauto].
  - inversion H as [|? ? Hl Hk]; subst.
    destruct (IH Hl) as [IHs IHin]. split.
    + constructor; trivial. apply Forall_forall. intros x Hx.
      apply (proj1 (Forall_forall _ _) Hk). now apply IHin.
    + intros x [<-|Hx]; [now left|right; now apply IHin].
  - inversion H as [|? ? Hl Hk]; subst.
    destruct (IH Hl) as [IHs IHin]. split; trivial.
    intros x Hx. right. now apply IHin.
Qed.

(** A key of a strictly ascending table matches its own entry only. *)
Lemma filter_key_unique {T : Type} (k : cell) (names : list (cell * T)) :
  ascending_keys (map fst names) ->
  In k (map fst names) ->
  exists t, filter (fun kt => key_eqb k (fst kt)) names = [(k, t)].
Proof.
  intros [Hs Hn]. induction names as [|[k' t'] names IH]; simpl; [tauto|].
  simpl in Hs, Hn.
  inversion Hs as [|? ? Hs' Hlt]; subst. inversion Hn as [|? ? Hk' Hn']; subst.
  intros [->|Hin].
  - rewrite key_eqb_refl by trivial. exists t'. f_equal.
    clear - Hlt. induction names as [|[x tx] names IH]; simpl; trivial.
    inversion Hlt as [|? ? Hx Hrest]; subst.
    rewrite (key_lt_not_eqb _ _ Hx). now apply IH.
  - assert (Hk : key_lt k' k) by now apply (proj1 (Forall_forall _ _) Hlt).
    rewrite key_eqb_sym, (key_lt_not_eqb _ _ Hk). now apply IH.
Qed.

Lemma merge_codes (trends_df : list (cell * Q)) (job_names : list (cell * cell)) :
  ascending_keys (map fst job_names) ->
  (forall k, In k (map fst trends_df) -> In k (map fst job_names)) ->
  map OCC_CODE (merge trends_df job_names) = map fst trends_df.
Proof.
  intros Hasc. unfold merge.
  induction trends_df as [|[k s] l IH]; intro Hin; simpl; trivial.
  rewrite map_app, IH by (intros x Hx; apply Hin; now right).
  destruct (filter_key_unique k job_names Hasc (Hin k (or_introl eq_refl)))
    as [t Ht].
  simpl. now rewrite Ht.
Qed.

(** The joined table lists the occupation codes in strictly ascending
    order, the order of the groups. *)
Lemma trend_table_codes_ascending calc (d : DataFrame) (t : list TrendRow) :
  trend_table calc d = Ok t -> StronglySorted key_lt (map OCC_CODE t).
Proof.
  unfold trend_table, last_titles. intro H.
  apply bind_Ok in H. destruct H as [groups [Hg H]].
  apply bind_Ok in H. destruct H as [trends [Htr H]].
  apply bind_Ok in H. destruct H as [names [Hn H]].
  rewrite Hg in Hn. cbn [bind] in Hn.
  destruct (has_column "OCC_TITLE" (columns d)); [|discriminate].
  inversion Hn; subst names; clear Hn.
  inversion H; subst t; clear H.
  unfold groupby in Hg. apply bind_Ok in Hg. destruct Hg as [col [_ Hg]].
  inversion Hg; subst groups; clear Hg.
  apply mapM_keys in Htr. rewrite map_map in Htr. cbn [fst] in Htr.
  rewrite map_id in Htr.
  pose proof (group_keys_ascending col) as Hasc.
  destruct (dropna_slope_keys trends) as [Hsorted Hsub];
    [rewrite Htr; apply Hasc|].
  rewrite merge_codes; trivial.
  - rewrite !map_map. cbn [fst]. now rewrite map_id.
  - intros k Hk. rewrite !map_map. cbn [fst]. rewrite map_id, <- Htr.
    now apply Hsub.
Qed.

Lemma StronglySorted_map_filter {A B : Type} (f : A -> B) (R : B -> B -> Prop)
    (p : A -> bool) (l : list A) :
  StronglySorted R (map f l) -> StronglySorted R (map f (filter p l)).
Proof.
  intro H. apply StronglySorted_map, StronglySorted_filter.
  now apply StronglySorted_map_inv.
Qed.

(** C3 (as amended).  The joined table that comes out of the grouping
    step lists the occupation codes in ascending order, and the ranked
    table is a rearrangement of it in descending order of slope, so
    occupations of equal slope are neighbours; which of them comes first is
    up to the sort algorithm.  With a stable sort kind, the occupations of
    any one slope value appear in the ranked table in the very order the
    joined table had them, ascending by code. *)
Theorem tied_slopes_keep_group_order_when_sort_is_stable (K : SortKind)
    (calculate_slope : list row -> result (option Q))
    (detailed_jobs : DataFrame) (final_results : list TrendRow) :
  trend_table calculate_slope detailed_jobs = Ok final_results ->
  StronglySorted key_lt (map OCC_CODE final_results) /\
  Permutation final_results (map trend (ranker K final_results)) /\
  StronglySorted (fun a b => (slope b <= slope a)%Q)
                 (map trend (ranker K final_results)) /\
  (stable K ->
   forall q : Q,
     filter (fun r => Qeq_bool (slope r) q) (map trend (ranker K final_results))
     = filter (fun r => Qeq_bool (slope r) q) final_results /\
     StronglySorted key_lt
       (map OCC_CODE
            (filter (fun r => Qeq_bool (slope r) q)
                    (map trend (ranker K final_results))))).
Proof.
  intro Ht. pose proof (trend_table_codes_ascending _ _ _ Ht) as Hasc.
  unfold ranker. rewrite assign_rank_trend.
  split; [exact Hasc|]. split; [apply sort_values_desc_perm|].
  split; [apply sort_values_desc_sorted|].
  intros HK q. rewrite (sort_values_desc_stable K slope final_results q HK).
  split; [reflexivity|]. now apply StronglySorted_map_filter.
Qed.

Lemma tied_slopes_keep_group_order_when_sort_is_stable_witness :
  exists final d,
    load_and_process_data parse_digits stable_kind fs_tied = Ok (final, d) /\
    stable stable_kind /\
    map (fun r => (OCC_CODE (trend r), slope (trend r), Rank r)) final
    = [(Str "A", 10%Q, 1); (Str "B", 10%Q, 2)] /\
    forall q : Q,
      StronglySorted key_lt
        (map OCC_CODE (filter (fun r => Qeq_bool (slope r) q) (map trend final))).
Proof.
  destruct (load_and_process_data parse_digits stable_kind fs_tied)
    as [[final d]|e] eqn:E; [|vm_compute in E; discriminate E].
  exists final, d. split; [reflexivity|]. split; [exact stable_kind_stable|].
  split.
  - vm_compute in E. inversion E; subst. reflexivity.
  - apply load_and_process_data_inv in E.
    destruct E as [all_dfs [t [_ [_ [_ [Ht ->]]]]]].
    intro q.
    exact (proj2 (proj2 (proj2 (proj2
      (tied_slopes_keep_group_order_when_sort_is_stable
         stable_kind _ _ _ Ht))) stable_kind_stable q)).
Defined.

(** ** Occupations with too little history *)

Lemma ranker_In K (t : list TrendRow) (r : RankedRow) :
  In r (ranker K t) -> In (trend r) t.
Proof.
  intro H. apply (in_map trend) in H. unfold ranker in H.
  rewrite assign_rank_trend in H.
  eapply Permutation_in; [|exact H].
  apply Permutation_sym, sort_values_desc_perm.
Qed.

Lemma trend_table_excludes calc (d : DataFrame) (code : cell) t r :
  calc (group_rows d "OCC_CODE" code) = Ok None ->
  trend_table calc d = Ok t -> In r t ->
  key_eqb (OCC_CODE r) code = false.
Proof.
  intros Hnone Ht Hr.
  destruct (trend_table_row calc d t r Ht Hr) as [Hs _].
  destruct (key_eqb (OCC_CODE r) code) eqn:E; trivial.
  rewrite (group_rows_cong d "OCC_CODE" _ _ E) in Hs. congruence.
Qed.

(** C4.  An occupation code whose group has fewer than two records with
    both year and employment present gets no slope from either
    [calculate_slope] (the result is NaN, no exception), and no row of the
    ranked table of [app.py], nor of the sorted table [regressao.py]
    prints, carries that code. *)
Theorem insufficient_history_is_dropped_silently (d : DataFrame) (code : cell) :
  (List.length (dropna ["Year"; "TOT_EMP"] (group_rows d "OCC_CODE" code)) < 2)%nat ->
  calculate_slope_app (group_rows d "OCC_CODE" code) = Ok None /\
  calculate_slope_script (group_rows d "OCC_CODE" code) = Ok None /\
  (forall parse K fs final,
     load_and_process_data parse K fs = Ok (final, d) ->
     forall r, In r final -> key_eqb (OCC_CODE (trend r)) code = false) /\
  (forall K t,
     trend_table calculate_slope_script d = Ok t ->
     forall r, In r (sort_values_desc K slope t) ->
               key_eqb (OCC_CODE r) code = false).
Proof.
  intro Hshort. apply Nat.ltb_lt in Hshort.
  assert (Happ : calculate_slope_app (group_rows d "OCC_CODE" code) = Ok None).
  { unfold calculate_slope_app. now rewrite Hshort. }
  assert (Hscr : calculate_slope_script (group_rows d "OCC_CODE" code) = Ok None).
  { unfold calculate_slope_script. now rewrite Hshort. }
  split; [exact Happ|]. split; [exact Hscr|]. split.
  - intros parse K fs final Hrun r Hr.
    apply load_and_process_data_inv in Hrun.
    destruct Hrun as [all_dfs [t [_ [_ [_ [Ht ->]]]]]].
    apply ranker_In in Hr.
    exact (trend_table_excludes _ d code t (trend r) Happ Ht Hr).
  - intros K t Ht r Hr.
    apply (trend_table_excludes _ d code t r Hscr Ht).
    eapply Permutation_in; [|exact Hr].
    apply Permutation_sym, sort_values_desc_perm.
Qed.

Lemma insufficient_history_is_dropped_silently_witness :
  exists final d,
    load_and_process_data parse_digits stable_kind fs_XY = Ok (final, d) /\
    (List.length (dropna ["Year"; "TOT_EMP"] (group_rows d "OCC_CODE" (Str "Y")))
     < 2)%nat /\
    map (fun r => OCC_CODE (trend r)) final = [Str "X"] /\
    forall r, In r final -> key_eqb (OCC_CODE (trend r)) (Str "Y") = false.
Proof.
  destruct (load_and_process_data parse_digits stable_kind fs_XY)
    as [[final d]|e] eqn:E; [|vm_compute in E; discriminate E].
  exists final, d. split; [reflexivity|].
  assert (Hshort :
    (List.length (dropna ["Year"; "TOT_EMP"] (group_rows d "OCC_CODE" (Str "Y")))
     < 2)%nat).
  { vm_compute in E. inversion E; subst. vm_compute. lia. }
  split; [exact Hshort|]. split.
  - vm_compute in E. inversion E; subst. reflexivity.
  - exact (proj1 (proj2 (proj2
      (insufficient_history_is_dropped_silently d (Str "Y") Hshort)))
      parse_digits stable_kind fs_XY final E).
Defined.

(** ** Records of one single year *)

Lemma amax_constant (c : Q) (n : nat) : Stats.amax (repeat c (S n)) = c.
Proof.
  simpl. induction n as [|n IH]; simpl; trivial.
  now destruct (Qle_bool c c).
Qed.

Lemma amin_constant (c : Q) (n : nat) : Stats.amin (repeat c (S n)) = c.
Proof.
  simpl. induction n as [|n IH]; simpl; trivial.
  now destruct (Qle_bool c c).
Qed.

Lemma linregress_identical_x (c : Q) (n : nat) (y : list Q) :
  y <> [] -> Stats.linregress (repeat c (S (S n))) y = Raise identical_x.
Proof.
  intro Hy. unfold Stats.linregress.
  rewrite amax_constant, amin_constant, Qeq_bool_refl, repeat_length.
  destruct y; [congruence|]. reflexivity.
Qed.

Lemma map_constant {A B : Type} (f : A -> B) (c : B) (l : list A) :
  (forall a, In a l -> f a = c) -> map f l = repeat c (List.length l).
Proof.
  induction l as [|a l IH]; intro H; simpl; trivial.
  rewrite (H a) by now left. f_equal. apply IH.
  intros x Hx. apply H. now right.
Qed.

(** Any group with two or more valid records, all tagged with one year,
    makes both [calculate_slope] functions raise. *)
Lemma calculate_slope_identical_years (group : list row) (year : Z) :
  (2 <= List.length (dropna ["Year"; "TOT_EMP"] group))%nat ->
  (forall r, In r (dropna ["Year"; "TOT_EMP"] group) ->
             get r "Year" = year_cell year) ->
  calculate_slope_app group = Raise identical_x /\
  calculate_slope_script group = Raise identical_x.
Proof.
  intros Hlen Hyear.
  assert (Hlt : (List.length (dropna ["Year"; "TOT_EMP"] group) <? 2)%nat = false)
    by now apply Nat.ltb_ge.
  unfold calculate_slope_app, calculate_slope_script. rewrite Hlt.
  set (g := dropna ["Year"; "TOT_EMP"] group) in *.
  destruct g as [|r1 [|r2 g']] eqn:Eg; simpl in Hlen; try lia.
  rewrite <- Eg in *. split.
  - rewrite map_map.
    rewrite (map_constant _ (inject_Z (astype_int64 (inject_Z year))) g)
      by (intros r Hr; now rewrite (Hyear r Hr)).
    rewrite Eg at 1. cbn [List.length]. rewrite linregress_identical_x; trivial.
    rewrite Eg. discriminate.
  - rewrite (map_constant _ (inject_Z year) g)
      by (intros r Hr; now rewrite (Hyear r Hr)).
    rewrite Eg at 1. cbn [List.length]. rewrite linregress_identical_x; trivial.
    rewrite Eg. discriminate.
Qed.

(** C5 fails on the code.  Two valid records of one year pass the
    [len(group) < 2] guard and reach [linregress], whose exception neither
    [calculate_slope] nor its callers catch: instead of "no result" for
    that occupation, the whole run of either file ends in the exception. *)
Theorem identical_years_abort_the_run parse K :
  calculate_slope_app
    [ [("Year", year_cell 2015); ("TOT_EMP", Num 100)];
      [("Year", year_cell 2015); ("TOT_EMP", Num 110)] ] = Raise identical_x /\
  calculate_slope_script
    [ [("Year", year_cell 2015); ("TOT_EMP", Num 100)];
      [("Year", year_cell 2015); ("TOT_EMP", Num 110)] ] = Raise identical_x /\
  load_and_process_data parse K fs_Z_twice = Raise identical_x /\
  snd (analyze_job_trends parse K fs_Z_twice) = Raise identical_x.
Proof. repeat split; vm_compute; reflexivity. Qed.

(** ** Numeric coercion *)

Lemma coerce_tot_emp_Ok parse (full_data : DataFrame) :
  has_column "TOT_EMP" (columns full_data) = true ->
  coerce_tot_emp parse full_data
  = Ok {| columns := columns full_data;
          rows := map (fun r => ("TOT_EMP",
                                 to_numeric_coerce parse (get r "TOT_EMP")) :: r)
                      (rows full_data) |}.
Proof.
  intro H. unfold coerce_tot_emp, column. rewrite H. simpl. do 2 f_equal.
  rewrite combine_map_r, map_map. reflexivity.
Qed.

(** C6.  Coercion of the employment column never raises when the column
    is there: it hands back the frame with every employment cell coerced,
    and a text cell the numeric parser rejects becomes NaN, which is not
    the number zero and which makes [dropna] discard the record as
    missing. *)
Theorem unparseable_employment_becomes_missing parse (full_data : DataFrame) :
  has_column "TOT_EMP" (columns full_data) = true ->
  exists coerced,
    coerce_tot_emp parse full_data = Ok coerced /\
    Forall2 (fun r r' =>
               get r' "TOT_EMP" = to_numeric_coerce parse (get r "TOT_EMP") /\
               forall s, get r "TOT_EMP" = Str s -> parse s = None ->
                 get r' "TOT_EMP" = NaN /\
                 get r' "TOT_EMP" <> Num 0 /\
                 dropna ["Year"; "TOT_EMP"] [r'] = [])
            (rows full_data) (rows coerced).
Proof.
  intro H. eexists. split; [now apply coerce_tot_emp_Ok|]. simpl.
  induction (rows full_data) as [|r rs IH]; simpl; constructor; trivial.
  split; [reflexivity|]. intros s Hs Hp.
  assert (E : get (("TOT_EMP", to_numeric_coerce parse (get r "TOT_EMP")) :: r)
                  "TOT_EMP" = NaN).
  { simpl. rewrite Hs. simpl. now rewrite Hp. }
  split; [exact E|]. split; [rewrite E; discriminate|].
  unfold dropna, notna_all. cbn [filter forallb]. rewrite E. simpl.
  now rewrite andb_false_r.
Qed.

Lemma unparseable_employment_becomes_missing_witness :
  parse_digits "*" = None /\
  exists coerced,
    coerce_tot_emp parse_digits
      {| columns := sheet_columns;
         rows := [sheet_row "Y" "Y" "detailed" (Str "*")] |} = Ok coerced /\
    map (fun r => get r "TOT_EMP") (rows coerced) = [NaN].
Proof.
  split; [reflexivity|].
  destruct (unparseable_employment_becomes_missing parse_digits
              {| columns := sheet_columns;
                 rows := [sheet_row "Y" "Y" "detailed" (Str "*")] |}
              eq_refl) as [coerced [Hc HF]].
  exists coerced. split; [exact Hc|].
  vm_compute in Hc. inversion Hc; subst. reflexivity.
Defined.

(** ** What the loader and the aggregator hand on *)

Lemma has_column_In (c : string) (cols : list string) :
  has_column c cols = true <-> In c cols.
Proof.
  unfold has_column. rewrite existsb_exists. split.
  - intros [x [Hx E]]. apply String.eqb_eq in E. now subst.
  - intro H. exists c. split; trivial. apply String.eqb_refl.
Qed.

Lemma has_column_app (c : string) (a b : list string) :
  has_column c (a ++ b) = has_column c a || has_column c b.
Proof. unfold has_column. apply existsb_app. Qed.

Lemma set_column_has (df : DataFrame) (c : string) (v : cell) :
  has_column c (columns (set_column df c v)) = true.
Proof.
  unfold set_column. simpl. destruct (has_column c (columns df)) eqn:E; trivial.
  rewrite has_column_app, E. simpl. now rewrite String.eqb_refl.
Qed.

(** Every row of a standardized sheet opens with its year tag. *)
Lemma standardize_rows (year : Z) (df : DataFrame) (r : row) :
  In r (rows (standardize year df)) ->
  exists rest, r = ("Year", year_cell year) :: rest.
Proof.
  unfold standardize.
  set (df1 := set_column df "Year" (year_cell year)).
  assert (H1 : has_column "Year" (columns df1) = true) by apply set_column_has.
  set (df2 := if has_column "O_GROUP" (columns df1)
              then rename df1 "O_GROUP" "OCC_GROUP" else df1).
  assert (H2 : has_column "Year" (columns df2) = true).
  { subst df2. destruct (has_column "O_GROUP" (columns df1)); trivial.
    apply has_column_In. apply has_column_In in H1. simpl.
    apply in_map_iff. exists "Year". split; [reflexivity|exact H1]. }
  assert (R2 : forall r2, In r2 (rows df2) ->
                 exists rest, r2 = ("Year", year_cell year) :: rest).
  { subst df2. destruct (has_column "O_GROUP" (columns df1)); simpl; intros r2 Hr2.
    - apply in_map_iff in Hr2. destruct Hr2 as [r1 [<- Hr1]].
      apply in_map_iff in Hr1. destruct Hr1 as [r0 [<- _]].
      simpl. eauto.
    - apply in_map_iff in Hr2. destruct Hr2 as [r0 [<- _]]. eauto. }
  simpl. intro Hr. apply in_map_iff in Hr. destruct Hr as [r2 [<- Hr2]].
  destruct (R2 r2 Hr2) as [rest ->]. cbn [filter fst].
  rewrite H2. simpl. eauto.
Qed.

Lemma filter_detailed_Ok (full_data : DataFrame) :
  has_column "OCC_GROUP" (columns full_data) = true ->
  filter_detailed full_data
  = Ok {| columns := columns full_data;
          rows := filter (fun r => eq_str (get r "OCC_GROUP") "detailed")
                         (rows full_data) |}.
Proof.
  intro H. unfold filter_detailed, column. rewrite H. simpl. do 2 f_equal.
  rewrite combine_map_r. induction (rows full_data) as [|r rs IH]; simpl; trivial.
  destruct (eq_str (get r "OCC_GROUP") "detailed"); simpl; now rewrite IH.
Qed.

(** The detailed table is the concatenation, coerced and filtered. *)
Lemma clean_and_filter_inv parse (all_dfs : list DataFrame) (d : DataFrame) :
  clean_and_filter parse all_dfs = Ok d ->
  has_column "TOT_EMP" (columns (concat all_dfs)) = true /\
  has_column "OCC_GROUP" (columns (concat all_dfs)) = true /\
  d = {| columns := columns (concat all_dfs);
         rows := filter (fun r => eq_str (get r "OCC_GROUP") "detailed")
                   (map (fun r => ("TOT_EMP",
                                   to_numeric_coerce parse (get r "TOT_EMP")) :: r)
                        (flat_map rows all_dfs)) |}.
Proof.
  unfold clean_and_filter. intro H.
  destruct (has_column "TOT_EMP" (columns (concat all_dfs))) eqn:Et.
  - rewrite (coerce_tot_emp_Ok _ _ Et) in H. cbn [bind] in H.
    destruct (has_column "OCC_GROUP" (columns (concat all_dfs))) eqn:Eg.
    + rewrite filter_detailed_Ok in H by exact Eg. cbn [columns rows] in H.
      inversion H. auto.
    + unfold filter_detailed, column in H. cbn [columns] in H.
      rewrite Eg in H. discriminate.
  - unfold coerce_tot_emp, column in H. rewrite Et in H. discriminate.
Qed.

(** ** Chronological order *)

Lemma same_year_chronological (rs : list row) (q : Q) :
  (forall r, In r rs -> year_of r = q) -> chronological rs.
Proof.
  unfold chronological. induction rs as [|r rs IH]; intro H; constructor.
  - apply IH. intros x Hx. apply H. now right.
  - apply Forall_forall. intros x Hx.
    rewrite (H r) by now left. rewrite (H x) by now right. apply Qle_refl.
Qed.

Lemma loaded_rows_chronological (ysheets : list (Z * DataFrame)) :
  StronglySorted Z.le (map fst ysheets) ->
  chronological
    (flat_map rows (map (fun yd => standardize (fst yd) (snd yd)) ysheets)).
Proof.
  induction ysheets as [|[y df] l IH]; cbn [flat_map map fst snd]; intro H;
    [constructor|].
  inversion H as [|? ? Hl Hy]; subst.
  assert (Hsame : forall r, In r (rows (standardize y df)) ->
                            year_of r = inject_Z y).
  { intros r Hr. destruct (standardize_rows y df r Hr) as [rest ->].
    reflexivity. }
  apply StronglySorted_app.
  - now apply same_year_chronological with (q := inject_Z y).
  - now apply IH.
  - intros a b Ha Hb. rewrite (Hsame a Ha).
    apply in_flat_map in Hb. destruct Hb as [sd [Hsd Hb]].
    apply in_map_iff in Hsd. destruct Hsd as [[y' df'] [<- Hin]].
    cbn [fst snd] in Hb. destruct (standardize_rows y' df' b Hb) as [rest ->].
    unfold year_of. cbn. rewrite <- Zle_Qle.
    apply (proj1 (Forall_forall _ _) Hy).
    apply (in_map fst) in Hin. exact Hin.
Qed.

Lemma Forall2_combine_fst {A B : Type} (P : A -> B -> Prop) (l : list A)
    (l' : list B) :
  Forall2 P l l' -> map fst (combine l l') = l.
Proof. induction 1; simpl; congruence. Qed.

Lemma years_ascending : StronglySorted Z.le years.
Proof.
  vm_compute.
  repeat (constructor; [|repeat constructor; discriminate]). constructor.
Qed.

(** The detailed table of a successful run lists its records year by
    year, in the order of the requested years. *)
Lemma detailed_chronological parse K fs final detailed :
  load_and_process_data parse K fs = Ok (final, detailed) ->
  chronological (rows detailed).
Proof.
  intro H. apply load_and_process_data_inv in H.
  destruct H as [all_dfs [t [Hl [Hc _]]]].
  apply load_loop_ok in Hl. destruct Hl as [sheets [HF Hdfs]].
  cbn [app] in Hdfs.
  apply clean_and_filter_inv in Hc. destruct Hc as [_ [_ ->]].
  cbn [rows]. apply StronglySorted_filter. apply StronglySorted_map.
  change (chronological (flat_map rows all_dfs)).
  subst all_dfs.
  rewrite <- (map_map (fun pd : Z * string * DataFrame => (fst (fst pd), snd pd))
                      (fun yd => standardize (fst yd) (snd yd))).
  apply loaded_rows_chronological.
  rewrite map_map. cbn [fst].
  rewrite <- (map_map fst fst), (Forall2_combine_fst _ _ _ HF), todo_eq, map_map.
  cbn [fst]. rewrite map_id. apply years_ascending.
Qed.

(** ** Titles *)

Lemma last_notna_from (col : list cell) (v : cell) :
  Forall (fun x => isna x = true) col ->
  fold_left (fun acc x => if isna x then acc else x) col v = v.
Proof.
  induction 1 as [|x col Hx _ IH]; simpl; trivial. now rewrite Hx.
Qed.

Lemma last_notna_split (pre post : list cell) (v : cell) :
  isna v = false ->
  Forall (fun x => isna x = true) post ->
  last_notna (pre ++ v :: post) = v.
Proof.
  intros Hv Hpost. unfold last_notna. rewrite fold_left_app. simpl.
  rewrite Hv. now apply last_notna_from.
Qed.

(** C7.  In a successful run of [app.py], take any row of the ranked
    table and any record of its code in the detailed table that has a
    title while no later record of the code has one.  The row's title is
    that record's title, and no titled record of the code bears a later
    year: it is the chronologically last record with a title. *)
Theorem title_is_the_latest_known parse K fs final detailed
    (r : RankedRow) (pre post : list row) (rec : row) :
  load_and_process_data parse K fs = Ok (final, detailed) ->
  In r final ->
  rows detailed = (pre ++ rec :: post)%list ->
  key_eqb (get rec "OCC_CODE") (OCC_CODE (trend r)) = true ->
  isna (get rec "OCC_TITLE") = false ->
  (forall x, In x post ->
     key_eqb (get x "OCC_CODE") (OCC_CODE (trend r)) = true ->
     isna (get x "OCC_TITLE") = true) ->
  OCC_TITLE (trend r) = get rec "OCC_TITLE" /\
  (forall x, In x (rows detailed) ->
     key_eqb (get x "OCC_CODE") (OCC_CODE (trend r)) = true ->
     isna (get x "OCC_TITLE") = false ->
     (year_of x <= year_of rec)%Q).
Proof.
  intros Hrun Hr Hsplit Hcode Htitle Hpost.
  pose proof (detailed_chronological _ _ _ _ _ Hrun) as Hchron.
  apply load_and_process_data_inv in Hrun.
  destruct Hrun as [all_dfs [t [_ [_ [_ [Ht ->]]]]]].
  apply ranker_In in Hr.
  destruct (trend_table_row _ _ _ _ Ht Hr) as [_ Htitle_r].
  split.
  - rewrite Htitle_r. unfold group_rows. rewrite Hsplit, filter_app.
    cbn [filter]. rewrite Hcode, map_app. cbn [map].
    apply last_notna_split; trivial.
    apply Forall_map, Forall_forall. intros x Hx.
    apply filter_In in Hx. destruct Hx as [Hx Hk]. now apply Hpost.
  - intros x Hx Hk Hn. unfold chronological in Hchron.
    rewrite Hsplit in Hx, Hchron. apply in_app_or in Hx.
    destruct Hx as [Hx|[<-|Hx]].
    + clear - Hchron Hx. induction pre as [|p pre IH]; [destruct Hx|].
      simpl in Hchron. inversion Hchron as [|? ? Hs Hall]; subst.
      destruct Hx as [<-|Hx]; [|now apply IH].
      apply (proj1 (Forall_forall _ _) Hall).
      apply in_or_app. right. now left.
    + apply Qle_refl.
    + rewrite (Hpost x Hx Hk) in Hn. discriminate.
Qed.

Lemma title_is_the_latest_known_witness :
  exists final d,
    load_and_process_data parse_digits stable_kind fs_retitled = Ok (final, d) /\
    map (fun r => OCC_TITLE (trend r)) final = [Str "Clerks"].
Proof.
  destruct (load_and_process_data parse_digits stable_kind fs_retitled)
    as [[final d]|e] eqn:E; [|vm_compute in E; discriminate E].
  exists final, d. split; [reflexivity|].
  pose proof E as E'. vm_compute in E'. inversion E'; subst final d; clear E'.
  cbn [map]. apply (f_equal (fun x => [x])).
  match type of E with
  | _ = Ok ([?r], ?d) =>
      refine (proj1 (title_is_the_latest_known _ _ _ _ _ r
                       (firstn 1 (rows d)) (skipn 2 (rows d))
                       (nth 1 (rows d) []) E _ _ _ _ _))
  end.
  - now left.
  - reflexivity.
  - reflexivity.
  - reflexivity.
  - intros x [<-|[]] _. reflexivity.
Defined.

(** ** The three-year scenario *)

Lemma load_and_process_data_run parse K fs all_dfs d t :
  load_loop fs (combine years filenames) [] = Ok all_dfs ->
  all_dfs <> [] ->
  clean_and_filter parse all_dfs = Ok d ->
  empty d = false ->
  trend_table calculate_slope_app d = Ok t ->
  load_and_process_data parse K fs = Ok (ranker K t, d).
Proof.
  intros Hl Hne Hc He Ht. unfold load_and_process_data.
  rewrite Hl. cbn [bind]. destruct all_dfs; [congruence|].
  rewrite Hc. cbn [bind]. rewrite He, Ht. reflexivity.
Qed.

Lemma analyze_job_trends_run parse K fs dfs lines d t :
  load_loop_lenient fs (combine years filenames) [] [] = (dfs, lines) ->
  dfs <> [] ->
  clean_and_filter parse dfs = Ok d ->
  empty d = false ->
  trend_table calculate_slope_script d = Ok t ->
  snd (analyze_job_trends parse K fs) = Ok tt /\
  In (Table (firstn 10 (sort_values_desc K slope t)))
     (fst (analyze_job_trends parse K fs)).
Proof.
  intros Hl Hne Hc He Ht. unfold analyze_job_trends.
  rewrite Hl. cbn [fst snd]. destruct dfs; [congruence|].
  rewrite Hc, He, Ht. cbn [fst snd]. split; [reflexivity|].
  apply in_or_app. right. do 3 right. now left.
Qed.

(** C8.  For occupation X with 100, 110 and 120 employed in 2015, 2016
    and 2017 and nothing else in the files, the slope computed for X is 10
    (by [calculate_slope] of either file), the ranked table of [app.py]
    has the single row of X, with rank 1, and the table [regressao.py]
    prints from the three files alone has that single row. *)
Theorem three_year_scenario parse K :
  calculate_slope_app series_X = Ok (Some 10%Q) /\
  calculate_slope_script series_X = Ok (Some 10%Q) /\
  (exists detailed,
     load_and_process_data parse K fs_X
     = Ok ([{| trend := {| OCC_CODE := Str "X"; slope := 10; OCC_TITLE := Str "X" |};
               Rank := 1 |}], detailed)) /\
  snd (analyze_job_trends parse K fs_X_three_files) = Ok tt /\
  In (Table [{| OCC_CODE := Str "X"; slope := 10; OCC_TITLE := Str "X" |}])
     (fst (analyze_job_trends parse K fs_X_three_files)).
Proof.
  split; [vm_compute; reflexivity|]. split; [vm_compute; reflexivity|].
  split.
  - eexists.
    erewrite load_and_process_data_run.
    + unfold ranker. rewrite sort_values_desc_singleton. reflexivity.
    + lazy. reflexivity.
    + discriminate.
    + lazy. reflexivity.
    + reflexivity.
    + lazy. reflexivity.
  - edestruct (analyze_job_trends_run parse K fs_X_three_files) as [Hret Hin];
      [ lazy; reflexivity | discriminate | lazy; reflexivity | reflexivity
      | lazy; reflexivity | ].
    rewrite sort_values_desc_singleton in Hin. cbn [firstn] in Hin.
    split; [exact Hret|exact Hin].
Qed.

(** ** The integer cast of [app.py] *)

Lemma astype_int64_integral (q : Q) (z : Z) :
  q == inject_Z z -> int64_min <= z <= int64_max -> astype_int64 q = z.
Proof.
  intros Hq Hz. unfold astype_int64.
  assert (E : Z.quot (Qnum q) (Z.pos (Qden q)) = z).
  { unfold Qeq in Hq. simpl in Hq. rewrite Z.mul_1_r in Hq. rewrite Hq.
    apply Z.quot_mul. discriminate. }
  rewrite E.
  destruct Hz as [Hlo Hhi].
  apply Z.leb_le in Hlo. apply Z.leb_le in Hhi. now rewrite Hlo, Hhi.
Qed.

Lemma astype_int64_keeps (q : Q) :
  in_int64 q -> inject_Z (astype_int64 q) == q.
Proof.
  intros [z [Hq Hz]]. rewrite (astype_int64_integral q z Hq Hz).
  symmetry. exact Hq.
Qed.

(** Least squares does not tell apart two data sets of equal values. *)

Lemma qsum_ext (l l' : list Q) :
  Forall2 Qeq l l' -> Stats.qsum l == Stats.qsum l'.
Proof.
  induction 1 as [|a b l l' Hab _ IH]; simpl; [reflexivity|].
  now rewrite Hab, IH.
Qed.

Lemma mean_ext (l l' : list Q) :
  Forall2 Qeq l l' -> Stats.mean l == Stats.mean l'.
Proof.
  intro H. unfold Stats.mean.
  rewrite (qsum_ext _ _ H), (Forall2_length H). reflexivity.
Qed.

Lemma amax_ext (l l' : list Q) :
  Forall2 Qeq l l' -> Stats.amax l == Stats.amax l'.
Proof.
  destruct 1 as [|a b l l' Hab H]; simpl; [reflexivity|].
  revert a b Hab. induction H as [|c d l l' Hcd _ IH]; intros a b Hab; simpl;
    [exact Hab|].
  apply IH. rewrite (Qleb_comp _ _ Hab _ _ Hcd).
  now destruct (Qle_bool b d).
Qed.

Lemma amin_ext (l l' : list Q) :
  Forall2 Qeq l l' -> Stats.amin l == Stats.amin l'.
Proof.
  destruct 1 as [|a b l l' Hab H]; simpl; [reflexivity|].
  revert a b Hab. induction H as [|c d l l' Hcd _ IH]; intros a b Hab; simpl;
    [exact Hab|].
  apply IH. rewrite (Qleb_comp _ _ Hcd _ _ Hab).
  now destruct (Qle_bool d b).
Qed.

Lemma Forall2_map_ext {A B : Type} (R : B -> B -> Prop) (f g : A -> B)
    (l : list A) :
  (forall a, In a l -> R (f a) (g a)) -> Forall2 R (map f l) (map g l).
Proof.
  induction l as [|a l IH]; intro H; simpl; constructor.
  - apply H. now left.
  - apply IH. intros x Hx. apply H. now right.
Qed.

Lemma Forall2_Qeq_map (f g : Q -> Q) (l l' : list Q) :
  (forall a b, a == b -> f a == g b) ->
  Forall2 Qeq l l' -> Forall2 Qeq (map f l) (map g l').
Proof.
  intros Hfg. induction 1; simpl; constructor; auto.
Qed.

Lemma Forall2_Qeq_combine (f g : Q * Q -> Q) (x x' y y' : list Q) :
  (forall a a' b b', a == a' -> b == b' -> f (a, b) == g (a', b')) ->
  Forall2 Qeq x x' -> Forall2 Qeq y y' ->
  Forall2 Qeq (map f (combine x y)) (map g (combine x' y')).
Proof.
  intros Hfg Hx. revert y y'.
  induction Hx as [|a a' x x' Ha _ IH]; intros y y' Hy; simpl; [constructor|].
  destruct Hy as [|b b' y y' Hb Hy]; simpl; constructor; auto.
Qed.

Lemma linregress_ext (x x' y y' : list Q) :
  Forall2 Qeq x x' -> Forall2 Qeq y y' ->
  Stats.linregress x y = Stats.linregress x' y'.
Proof.
  intros Hx Hy. unfold Stats.linregress.
  destruct Hx as [|a a' x x' Ha Hx]; [reflexivity|].
  destruct Hy as [|b b' y y' Hb Hy]; [reflexivity|].
  assert (HX : Forall2 Qeq (a :: x) (a' :: x')) by now constructor.
  assert (HY : Forall2 Qeq (b :: y) (b' :: y')) by now constructor.
  rewrite (Qeqb_comp _ _ (amax_ext _ _ HX) _ _ (amin_ext _ _ HX)).
  rewrite (Forall2_length HX).
  destruct (Qeq_bool (Stats.amax (a' :: x')) (Stats.amin (a' :: x'))
            && (1 <? List.length (a' :: x'))%nat); [reflexivity|].
  pose proof (mean_ext _ _ HX) as Hmx. pose proof (mean_ext _ _ HY) as Hmy.
  assert (Hxx : Stats.mean
                  (map (fun xi => (xi - Stats.mean (a :: x))
                                  * (xi - Stats.mean (a :: x)))%Q (a :: x))
                == Stats.mean
                  (map (fun xi => (xi - Stats.mean (a' :: x'))
                                  * (xi - Stats.mean (a' :: x')))%Q (a' :: x'))).
  { apply mean_ext, Forall2_Qeq_map; trivial.
    intros u v Huv. now rewrite Huv, Hmx. }
  assert (Hxy : Stats.mean
                  (map (fun xy => (fst xy - Stats.mean (a :: x))
                                  * (snd xy - Stats.mean (b :: y)))%Q
                       (combine (a :: x) (b :: y)))
                == Stats.mean
                  (map (fun xy => (fst xy - Stats.mean (a' :: x'))
                                  * (snd xy - Stats.mean (b' :: y')))%Q
                       (combine (a' :: x') (b' :: y')))).
  { apply mean_ext, Forall2_Qeq_combine; trivial.
    intros u u' v v' Hu Hv. simpl. now rewrite Hu, Hv, Hmx, Hmy. }
  rewrite (Qeqb_comp _ _ Hxx 0%Q 0%Q (Qeq_refl 0)).
  match goal with |- (if ?c then _ else _) = _ => destruct c end;
    [reflexivity|].
  do 2 f_equal; f_equal; apply Qred_complete.
  - now rewrite Hxx, Hxy.
  - now rewrite Hxx, Hxy, Hmx, Hmy.
Qed.

(** C9 as stated fails for integral employment values that do not fit
    64 bits: the cast of [app.py] no longer returns them, so its slope is
    not the least-squares slope of the original values, which
    [calculate_slope] of [regressao.py] computes. *)
Lemma integral_values_beyond_int64_change_the_slope :
  (forall r, In r (dropna ["Year"; "TOT_EMP"] series_oversized) ->
             integral (float_of (get r "TOT_EMP"))) /\
  calculate_slope_app series_oversized = Ok (Some 0%Q) /\
  calculate_slope_script series_oversized = Ok (Some (inject_Z (2 ^ 66 - 2 ^ 63))) /\
  calculate_slope_app series_oversized <> calculate_slope_script series_oversized.
Proof.
  split.
  - intros r [<-|[<-|[]]]; eexists; simpl; reflexivity.
  - split; [vm_compute; reflexivity|]. split; [vm_compute; reflexivity|].
    vm_compute. discriminate.
Qed.

(** C9 (as amended).  [app.py] casts year and employment to 64-bit
    integers before fitting.  For every series whose valid records hold
    integral years and integral employment values within the int64 range,
    the slope it computes is the least-squares slope of the original
    values (the one [regressao.py] computes without cast); for some series
    with fractional employment values the two differ. *)
Theorem int64_cast_keeps_slope_of_integral_series :
  (forall group : list row,
     (forall r, In r (dropna ["Year"; "TOT_EMP"] group) ->
                in_int64 (float_of (get r "Year")) /\
                in_int64 (float_of (get r "TOT_EMP"))) ->
     calculate_slope_app group = calculate_slope_script group) /\
  (calculate_slope_app series_fractional = Ok (Some 1%Q) /\
   calculate_slope_script series_fractional = Ok (Some (7 # 5)) /\
   calculate_slope_app series_fractional <> calculate_slope_script series_fractional).
Proof.
  split.
  - intros group H. unfold calculate_slope_app, calculate_slope_script.
    destruct (List.length (dropna ["Year"; "TOT_EMP"] group) <? 2)%nat;
      [reflexivity|].
    rewrite !map_map.
    rewrite (linregress_ext
               (map (fun r => inject_Z (astype_int64 (float_of (get r "Year"))))
                    (dropna ["Year"; "TOT_EMP"] group))
               (map (fun r => float_of (get r "Year"))
                    (dropna ["Year"; "TOT_EMP"] group))
               (map (fun r => inject_Z (astype_int64 (float_of (get r "TOT_EMP"))))
                    (dropna ["Year"; "TOT_EMP"] group))
               (map (fun r => float_of (get r "TOT_EMP"))
                    (dropna ["Year"; "TOT_EMP"] group))).
    + reflexivity.
    + apply Forall2_map_ext. intros r Hr.
      apply astype_int64_keeps. now apply H.
    + apply Forall2_map_ext. intros r Hr.
      apply astype_int64_keeps. now apply H.
  - split; [vm_compute; reflexivity|]. split; [vm_compute; reflexivity|].
    vm_compute. discriminate.
Qed.

Lemma int64_cast_keeps_slope_of_integral_series_witness :
  (forall r, In r (dropna ["Year"; "TOT_EMP"] series_X) ->
             in_int64 (float_of (get r "Year")) /\
             in_int64 (float_of (get r "TOT_EMP"))) /\
  calculate_slope_app series_X = calculate_slope_script series_X.
Proof.
  assert (H : forall r, In r (dropna ["Year"; "TOT_EMP"] series_X) ->
                in_int64 (float_of (get r "Year")) /\
                in_int64 (float_of (get r "TOT_EMP"))).
  { intros r [<-|[<-|[<-|[]]]]; split; eexists;
      (split; [simpl; reflexivity | vm_compute; split; discriminate]). }
  split; [exact H|].
  exact (proj1 int64_cast_keeps_slope_of_integral_series series_X H).
Defined.

(** ** Columns no yearly sheet has *)

Lemma has_column_filter (c : string) (p : string -> bool) (l : list string) :
  has_column c (filter p l) = p c && has_column c l.
Proof.
  unfold has_column. induction l as [|x l IH]; simpl.
  - now rewrite andb_false_r.
  - destruct (String.eqb c x) eqn:E.
    + apply String.eqb_eq in E. subst x. destruct (p c) eqn:Ep; simpl.
      * now rewrite String.eqb_refl.
      * exact IH.
    + destruct (p x); simpl; [rewrite E|]; simpl; exact IH.
Qed.

Lemma has_column_union (c : string) (a b : list string) :
  has_column c (union_columns a b) = has_column c a || has_column c b.
Proof.
  unfold union_columns. rewrite has_column_app, has_column_filter.
  now destruct (has_column c a).
Qed.

Lemma has_column_concat (c : string) (dfs : list DataFrame) :
  has_column c (columns (concat dfs))
  = existsb (fun df => has_column c (columns df)) dfs.
Proof.
  unfold concat. cbn [columns].
  assert (H : forall acc,
    has_column c (fold_left union_columns (map columns dfs) acc)
    = has_column c acc || existsb (fun df => has_column c (columns df)) dfs).
  { induction dfs as [|df dfs IH]; intro acc; simpl.
    - now rewrite orb_false_r.
    - now rewrite IH, has_column_union, orb_assoc. }
  now rewrite H.
Qed.

Lemma has_column_rename (c old new : string) (df : DataFrame) :
  c <> old -> c <> new ->
  has_column c (columns (rename df old new)) = has_column c (columns df).
Proof.
  intros Ho Hn. unfold rename, has_column. cbn [columns].
  induction (columns df) as [|x l IH]; simpl; trivial.
  rewrite IH. f_equal. destruct (String.eqb x old) eqn:E.
  - apply String.eqb_eq in E. subst x.
    apply String.eqb_neq in Ho. apply String.eqb_neq in Hn. now rewrite Ho, Hn.
  - reflexivity.
Qed.

Lemma has_column_set_column (c c' : string) (v : cell) (df : DataFrame) :
  c <> c' ->
  has_column c (columns (set_column df c' v)) = has_column c (columns df).
Proof.
  intro H. unfold set_column. cbn [columns].
  destruct (has_column c' (columns df)); trivial.
  rewrite has_column_app. simpl. apply String.eqb_neq in H. rewrite H.
  now rewrite !orb_false_r.
Qed.









Lemma loaded_nonempty (P : Z -> DataFrame -> Prop) (sheets : list DataFrame) :
  Forall2 P years sheets ->
  map (fun yd => standardize (fst yd) (snd yd)) (combine years sheets) <> [].
Proof.
  intro HF. inversion HF; subst. discriminate.
Qed.



(** ** The loader loop, file by file *)

Lemma load_loop_first_unreadable fs pre year f cause post acc :
  Forall (fun p => readable fs (snd p)) pre ->
  fs f = Unreadable cause ->
  load_loop fs (pre ++ (year, f) :: post) acc = Raise (ReadError f cause).
Proof.
  intros Hpre Hf. revert acc.
  induction Hpre as [|[y g] pre [df Hg] _ IH]; intro acc; simpl.
  - now rewrite Hf.
  - simpl in Hg. rewrite Hg. apply IH.
Qed.

(** X1.  A yearly file that exists but cannot be read stops [app.py]: when
    the files of all earlier years are readable, [load_and_process_data]
    raises the exception whose text is "Erro ao ler <file>: <cause>" for
    the first such file, and nothing is ranked. *)
Theorem unreadable_file_is_fatal_in_app parse K fs year cause :
  In year years ->
  fs (filename_of year) = Unreadable cause ->
  (forall y, In y years -> y < year -> readable fs (filename_of y)) ->
  load_and_process_data parse K fs = Raise (ReadError (filename_of year) cause) /\
  str_exn (ReadError (filename_of year) cause)
  = "Erro ao ler " ++ filename_of year ++ ": " ++ cause.
Proof.
  intros Hyear Hbad Hearlier. split; [|reflexivity].
  apply load_and_process_data_loader_raises.
  destruct (years_split year Hyear) as [pre [post [Hy Hpre]]].
  rewrite todo_eq, Hy, map_app. simpl map.
  apply load_loop_first_unreadable; trivial.
  apply Forall_forall. intros p Hp.
  apply in_map_iff in Hp. destruct Hp as [y [<- Hyin]]. simpl.
  apply Hearlier.
  - rewrite Hy. apply in_or_app. now left.
  - now apply (proj1 (Forall_forall _ _) Hpre).
Qed.

Lemma unreadable_file_is_fatal_in_app_witness :
  load_and_process_data parse_digits stable_kind fs_X_corrupt
  = Raise (ReadError (filename_of 2016) "File is not a zip file").
Proof.
  refine (proj1 (unreadable_file_is_fatal_in_app parse_digits stable_kind
                   fs_X_corrupt 2016 "File is not a zip file" _ _ _)).
  - vm_compute. auto.
  - reflexivity.
  - intros y Hy Hlt. vm_compute in Hy.
    destruct Hy as [<-|Hy]; [eexists; reflexivity|].
    repeat (destruct Hy as [<-|Hy]; [lia|]). destruct Hy.
Defined.

Lemma Forall2_weaken {A B : Type} (P Q : A -> B -> Prop) l l' :
  (forall a b, P a b -> Q a b) -> Forall2 P l l' -> Forall2 Q l l'.
Proof. intro H. induction 1; constructor; auto. Qed.

Lemma load_loop_run (fs : filesystem) (ys : list Z) (sheets : list DataFrame) :
  Forall2 (fun y df => fs (filename_of y) = Sheet df) ys sheets ->
  forall acc,
    load_loop fs (map (fun y => (y, filename_of y)) ys) acc
    = Ok (acc ++ map (fun yd => standardize (fst yd) (snd yd))
                     (combine ys sheets))%list.
Proof.
  induction 1 as [|y df ys sheets Hdf _ IH]; intro acc; simpl.
  - now rewrite app_nil_r.
  - rewrite Hdf, IH, <- app_assoc. reflexivity.
Qed.

Lemma load_loop_sheets (fs : filesystem) (ys : list Z) : forall acc dfs,
  load_loop fs (map (fun y => (y, filename_of y)) ys) acc = Ok dfs ->
  exists sheets,
    Forall2 (fun y df => fs (filename_of y) = Sheet df) ys sheets /\
    dfs = (acc ++ map (fun yd => standardize (fst yd) (snd yd))
                      (combine ys sheets))%list.
Proof.
  induction ys as [|y ys IH]; intros acc dfs H; simpl in H.
  - exists []. split; [constructor|]. simpl. rewrite app_nil_r. congruence.
  - destruct (fs (filename_of y)) eqn:Ey; try discriminate.
    apply IH in H. destruct H as [sheets [HF ->]].
    exists (df :: sheets). split; [now constructor|].
    simpl. now rewrite <- app_assoc.
Qed.

(** X2.  The loader loop of [app.py] returns frames exactly when each of
    the ten yearly files is a readable sheet, and then returns the ten
    standardized sheets, one per year, in the order of the years. *)
Theorem load_succeeds_exactly_when_all_files_are_sheets fs dfs :
  load_loop fs (combine years filenames) [] = Ok dfs <->
  exists sheets,
    Forall2 (fun y df => fs (filename_of y) = Sheet df) years sheets /\
    dfs = map (fun yd => standardize (fst yd) (snd yd)) (combine years sheets).
Proof.
  rewrite todo_eq. split.
  - intro H. apply load_loop_sheets in H. exact H.
  - intros [sheets [HF ->]]. now rewrite (load_loop_run fs years sheets HF []).
Qed.

(** ** Standardization of one sheet *)

Lemma get_filter_columns (cols : list string) (r : row) (c : string) :
  has_column c cols = true ->
  get (filter (fun kv => has_column (fst kv) cols) r) c = get r c.
Proof.
  intro Hc. induction r as [|[k v] r IH]; simpl; trivial.
  destruct (String.eqb k c) eqn:E.
  - apply String.eqb_eq in E. subst k. rewrite Hc. simpl.
    now rewrite String.eqb_refl.
  - destruct (has_column k cols); simpl; [rewrite E|]; exact IH.
Qed.

Lemma get_rename_other (old new c : string) (r : row) :
  c <> old -> c <> new ->
  get (map (fun kv => (if String.eqb (fst kv) old then new else fst kv, snd kv)) r) c
  = get r c.
Proof.
  intros Ho Hn. induction r as [|[k v] r IH]; simpl; trivial.
  destruct (String.eqb k old) eqn:E.
  - apply String.eqb_eq in E. subst k.
    assert (E1 : String.eqb new c = false)
      by (apply String.eqb_neq; congruence).
    assert (E2 : String.eqb old c = false)
      by (apply String.eqb_neq; congruence).
    now rewrite E1, E2.
  - now rewrite IH.
Qed.

Lemma get_rename_new (old new : string) (r : row) :
  binds r new = false ->
  get (map (fun kv => (if String.eqb (fst kv) old then new else fst kv, snd kv)) r) new
  = get r old.
Proof.
  induction r as [|[k v] r IH]; simpl; trivial.
  intro H. apply orb_false_iff in H. destruct H as [Hk Hr].
  destruct (String.eqb k old) eqn:E.
  - now rewrite String.eqb_refl.
  - rewrite Hk. now apply IH.
Qed.

Lemma standardize_columns_spec (year : Z) (df : DataFrame) (c : string) :
  has_column c (columns (standardize year df))
  = has_column c cols_to_keep
    && (String.eqb c "Year"
        || (if has_column "O_GROUP" (columns df)
            then has_column c (map (fun k => if String.eqb k "O_GROUP"
                                             then "OCC_GROUP" else k)
                                   (columns df))
            else has_column c (columns df))).
Proof.
  unfold standardize. cbn [select columns]. rewrite has_column_filter.
  rewrite andb_comm. f_equal.
  rewrite (has_column_set_column "O_GROUP" "Year") by discriminate.
  assert (Hset : forall cols' : list string -> list string,
    (forall a b, cols' (a ++ b)%list = (cols' a ++ cols' b)%list) ->
    cols' ["Year"] = ["Year"] ->
    (has_column "Year" (cols' (columns df)) = has_column "Year" (columns df)) ->
    has_column c (cols' (columns (set_column df "Year" (year_cell year))))
    = String.eqb c "Year" || has_column c (cols' (columns df))).
  { intros cols' Happ HY Hsame. unfold set_column. cbn [columns].
    destruct (has_column "Year" (columns df)) eqn:EY.
    - destruct (String.eqb c "Year") eqn:Ec; trivial.
      apply String.eqb_eq in Ec. subst c. now rewrite Hsame.
    - rewrite Happ, has_column_app, HY. simpl. rewrite orb_false_r.
      apply orb_comm. }
  destruct (has_column "O_GROUP" (columns df)).
  - unfold rename. cbn [columns].
    apply (Hset (map (fun k => if String.eqb k "O_GROUP" then "OCC_GROUP" else k))).
    + intros a b. apply map_app.
    + reflexivity.
    + apply (has_column_rename "Year" "O_GROUP" "OCC_GROUP"); discriminate.
  - apply (Hset (fun l => l)); trivial.
Qed.

Lemma standardize_rows_map (year : Z) (df : DataFrame) :
  rows (standardize year df) = map (standardize_row year df) (rows df).
Proof.
  unfold standardize_row, standardize. cbn [select columns rows].
  rewrite (has_column_set_column "O_GROUP" "Year") by discriminate.
  destruct (has_column "O_GROUP" (columns df)).
  - unfold rename, set_column. cbn [rows columns]. rewrite !map_map.
    apply map_ext. intro r. reflexivity.
  - unfold set_column. cbn [rows columns]. rewrite map_map.
    apply map_ext. intro r. reflexivity.
Qed.

Lemma standardize_has_year (year : Z) (df : DataFrame) :
  has_column "Year" (columns (standardize year df)) = true.
Proof. rewrite standardize_columns_spec. reflexivity. Qed.

Lemma has_column_respell_group (cols : list string) :
  has_column "O_GROUP" cols = true ->
  has_column "OCC_GROUP" (map respell cols) = true.
Proof.
  intro H. apply has_column_In. apply has_column_In in H.
  apply in_map_iff. exists "O_GROUP". split; [reflexivity|exact H].
Qed.

Lemma has_column_respell_other (c : string) (cols : list string) :
  c <> "O_GROUP" -> c <> "OCC_GROUP" ->
  has_column c (map respell cols) = has_column c cols.
Proof.
  intros Ho Hn.
  exact (has_column_rename c "O_GROUP" "OCC_GROUP"
           {| columns := cols; rows := [] |} Ho Hn).
Qed.

Lemma standardize_keeps_column (year : Z) (df : DataFrame) (c : string) :
  In c ["OCC_CODE"; "OCC_TITLE"; "TOT_EMP"] ->
  has_column c (columns (standardize year df)) = has_column c (columns df).
Proof.
  intro Hc. rewrite standardize_columns_spec.
  assert (Hk : has_column c cols_to_keep = true /\ String.eqb c "Year" = false
               /\ c <> "O_GROUP" /\ c <> "OCC_GROUP").
  { destruct Hc as [<-|[<-|[<-|[]]]]; repeat split; discriminate. }
  destruct Hk as [Hk [HY [Ho Hn]]]. rewrite Hk, HY. cbn [andb orb].
  destruct (has_column "O_GROUP" (columns df)); [|reflexivity].
  change (fun k => if String.eqb k "O_GROUP" then "OCC_GROUP" else k)
    with respell.
  now rewrite has_column_respell_other.
Qed.

Lemma standardize_group_column (year : Z) (df : DataFrame) :
  has_column "OCC_GROUP" (columns (standardize year df))
  = has_column "OCC_GROUP" (columns df) || has_column "O_GROUP" (columns df).
Proof.
  rewrite standardize_columns_spec.
  change (has_column "OCC_GROUP" cols_to_keep) with true.
  change (String.eqb "OCC_GROUP" "Year") with false. cbn [andb orb].
  change (fun k => if String.eqb k "O_GROUP" then "OCC_GROUP" else k)
    with respell.
  destruct (has_column "O_GROUP" (columns df)) eqn:Eo.
  - rewrite has_column_respell_group by exact Eo. now rewrite orb_true_r.
  - now rewrite orb_false_r.
Qed.

(** X3.  The columns of a standardized sheet: [Year] always; code, title
    and employment exactly when the sheet has them; the group column when
    the sheet has it under either spelling; nothing else. *)
Theorem standardize_keeps_the_expected_columns (year : Z) (df : DataFrame) :
  (forall c, In c (columns (standardize year df)) -> In c cols_to_keep) /\
  In "Year" (columns (standardize year df)) /\
  (forall c, In c ["OCC_CODE"; "OCC_TITLE"; "TOT_EMP"] ->
     (In c (columns (standardize year df)) <-> In c (columns df))) /\
  (In "OCC_GROUP" (columns (standardize year df)) <->
   In "OCC_GROUP" (columns df) \/ In "O_GROUP" (columns df)).
Proof.
  split; [|split; [|split]].
  - intros c Hc. apply has_column_In in Hc.
    rewrite standardize_columns_spec in Hc.
    apply andb_true_iff in Hc. now apply has_column_In.
  - apply has_column_In, standardize_has_year.
  - intros c Hc. rewrite <- !has_column_In.
    now rewrite (standardize_keeps_column year df c Hc).
  - rewrite <- !has_column_In, standardize_group_column.
    apply orb_true_iff.
Qed.

Lemma Forall2_map_self {A B : Type} (P : A -> B -> Prop) (f : A -> B)
    (l : list A) :
  (forall a, In a l -> P a (f a)) -> Forall2 P l (map f l).
Proof.
  induction l as [|a l IH]; intro H; simpl; constructor.
  - apply H. now left.
  - apply IH. intros x Hx. apply H. now right.
Qed.

(** X4.  Standardization changes no value: every record keeps its code,
    title and employment cells, reads its group label from whichever
    spelling the sheet uses, and gains the year tag. *)
Theorem standardize_keeps_the_cells (year : Z) (df : DataFrame) :
  Forall2
    (fun r r' =>
       get r' "Year" = year_cell year /\
       (forall c, In c ["OCC_CODE"; "OCC_TITLE"; "TOT_EMP"] ->
                  In c (columns df) -> get r' c = get r c) /\
       (In "O_GROUP" (columns df) -> binds r "OCC_GROUP" = false ->
        get r' "OCC_GROUP" = get r "O_GROUP") /\
       (~ In "O_GROUP" (columns df) -> In "OCC_GROUP" (columns df) ->
        get r' "OCC_GROUP" = get r "OCC_GROUP"))
    (rows df) (rows (standardize year df)).
Proof.
  rewrite standardize_rows_map. apply Forall2_map_self. intros r _.
  unfold standardize_row. split; [|split; [|split]].
  - rewrite get_filter_columns by apply standardize_has_year.
    now destruct (has_column "O_GROUP" (columns df)).
  - intros c Hc Hin.
    rewrite get_filter_columns
      by (rewrite (standardize_keeps_column year df c Hc);
          now apply has_column_In).
    assert (Hk : String.eqb "Year" c = false /\ c <> "O_GROUP" /\ c <> "OCC_GROUP").
    { destruct Hc as [<-|[<-|[<-|[]]]]; repeat split; discriminate. }
    destruct Hk as [HYc [Ho Hn]].
    destruct (has_column "O_GROUP" (columns df)); cbn [get]; rewrite HYc;
      [|reflexivity].
    now apply (get_rename_other "O_GROUP" "OCC_GROUP" c r).
  - intros Ho Hb.
    rewrite get_filter_columns
      by (rewrite standardize_group_column; apply orb_true_iff; right;
          now apply has_column_In).
    apply has_column_In in Ho. rewrite Ho. cbn [get].
    change (String.eqb "Year" "OCC_GROUP") with false. cbn iota.
    now apply (get_rename_new "O_GROUP" "OCC_GROUP" r).
  - intros Ho Hg.
    rewrite get_filter_columns
      by (rewrite standardize_group_column; apply orb_true_iff; left;
          now apply has_column_In).
    destruct (has_column "O_GROUP" (columns df)) eqn:E.
    + exfalso. apply Ho. now apply has_column_In.
    + reflexivity.
Qed.

(** ** The two spellings of the group column *)

Lemma respell_back (k : string) :
  k <> "O_GROUP" ->
  respell (if String.eqb k "OCC_GROUP" then "O_GROUP" else k) = k.
Proof.
  intro H. unfold respell. destruct (String.eqb k "OCC_GROUP") eqn:E.
  - apply String.eqb_eq in E. now subst.
  - apply String.eqb_neq in H. now rewrite H.
Qed.

Lemma binds_false_keys (r : row) (c : string) :
  binds r c = false -> forall kv, In kv r -> fst kv <> c.
Proof.
  unfold binds. intros H kv Hkv E.
  assert (Ht : existsb (fun kv => String.eqb (fst kv) c) r = true).
  { apply existsb_exists. exists kv. split; trivial. now apply String.eqb_eq. }
  congruence.
Qed.

Lemma standardize_respelled (year : Z) (df : DataFrame) :
  unaware_of "O_GROUP" df ->
  In "OCC_GROUP" (columns df) ->
  standardize year (rename df "OCC_GROUP" "O_GROUP") = standardize year df.
Proof.
  intros [Hcol Hrows] Hg.
  assert (Hcols : map respell
            (map (fun k => if String.eqb k "OCC_GROUP" then "O_GROUP" else k)
                 (columns df)) = columns df).
  { rewrite map_map. rewrite <- (map_id (columns df)) at 2.
    apply map_ext_in. intros k Hk. apply respell_back. intros ->.
    apply has_column_In in Hk. congruence. }
  assert (Hrow : forall r, In r (rows df) ->
            map (fun kv => (respell (fst kv), snd kv))
                (map (fun kv => (if String.eqb (fst kv) "OCC_GROUP"
                                 then "O_GROUP" else fst kv, snd kv)) r) = r).
  { intros r Hr. rewrite map_map. rewrite <- (map_id r) at 2.
    apply map_ext_in. intros [k v] Hkv. cbn [fst snd]. f_equal.
    apply respell_back.
    exact (binds_false_keys r "O_GROUP"
             (proj1 (Forall_forall _ _) Hrows r Hr) (k, v) Hkv). }
  set (df' := rename df "OCC_GROUP" "O_GROUP").
  assert (Hhas' : has_column "O_GROUP" (columns df') = true).
  { apply has_column_In. unfold df', rename. cbn [columns].
    apply in_map_iff. exists "OCC_GROUP". split; [reflexivity|exact Hg]. }
  assert (Hyear : has_column "Year" (columns df') = has_column "Year" (columns df)).
  { apply has_column_rename; discriminate. }
  assert (E : rename (set_column df' "Year" (year_cell year)) "O_GROUP" "OCC_GROUP"
              = set_column df "Year" (year_cell year)).
  { unfold rename at 1, set_column. cbn [columns rows]. rewrite Hyear.
    f_equal.
    - fold respell.
      change (fun k => if String.eqb k "O_GROUP" then "OCC_GROUP" else k)
        with respell.
      destruct (has_column "Year" (columns df)).
      + exact Hcols.
      + unfold df', rename. cbn [columns]. rewrite map_app.
        change (fun k => if String.eqb k "O_GROUP" then "OCC_GROUP" else k)
          with respell in Hcols.
        now rewrite Hcols.
    - unfold df', rename. cbn [rows]. rewrite !map_map.
      apply map_ext_in. intros r Hr. cbn [map fst snd].
      change (String.eqb "Year" "O_GROUP") with false. cbn iota. f_equal.
      exact (Hrow r Hr). }
  unfold standardize.
  rewrite (has_column_set_column "O_GROUP" "Year") by discriminate.
  rewrite Hhas'.
  rewrite (has_column_set_column "O_GROUP" "Year") by discriminate.
  rewrite Hcol. now rewrite E.
Qed.

Lemma load_loop_respelled fs fs' (todo : list (Z * string)) :
  (forall f, respelled (fs f) (fs' f)) ->
  forall acc, load_loop fs' todo acc = load_loop fs todo acc.
Proof.
  intro H. induction todo as [|[y f] todo IH]; intro acc; simpl; trivial.
  destruct (H f) as [E|[df [Ea [Hu [Hg Eb]]]]].
  - rewrite <- E. destruct (fs f); trivial.
  - rewrite Ea, Eb, standardize_respelled by trivial. apply IH.
Qed.

Lemma load_loop_lenient_respelled fs fs' (todo : list (Z * string)) :
  (forall f, respelled (fs f) (fs' f)) ->
  forall acc out,
    load_loop_lenient fs' todo acc out = load_loop_lenient fs todo acc out.
Proof.
  intro H. induction todo as [|[y f] todo IH]; intros acc out; simpl; trivial.
  destruct (H f) as [E|[df [Ea [Hu [Hg Eb]]]]].
  - rewrite <- E. destruct (fs f); trivial.
  - rewrite Ea, Eb, standardize_respelled by trivial. apply IH.
Qed.

(** X5.  Spelling the group column [O_GROUP] instead of [OCC_GROUP] in
    any of the files changes nothing: both entry points return, print and
    raise exactly the same. *)
Theorem spelling_of_group_column_is_immaterial parse K fs fs' :
  (forall f, respelled (fs f) (fs' f)) ->
  load_and_process_data parse K fs' = load_and_process_data parse K fs /\
  analyze_job_trends parse K fs' = analyze_job_trends parse K fs.
Proof.
  intro H. split.
  - unfold load_and_process_data. now rewrite (load_loop_respelled fs fs').
  - unfold analyze_job_trends. now rewrite (load_loop_lenient_respelled fs fs').
Qed.

Lemma spelling_of_group_column_is_immaterial_witness :
  load_and_process_data parse_digits stable_kind fs_X_o_group
  = load_and_process_data parse_digits stable_kind fs_X /\
  analyze_job_trends parse_digits stable_kind fs_X_o_group
  = analyze_job_trends parse_digits stable_kind fs_X.
Proof.
  apply (spelling_of_group_column_is_immaterial parse_digits stable_kind
           fs_X fs_X_o_group).
  intro f. unfold fs_X_o_group.
  destruct (String.eqb f (filename_of 2016)) eqn:E; [|now left].
  apply String.eqb_eq in E. subst f. right. exists sheet_X_2016.
  split; [reflexivity|]. split; [|split; [vm_compute; auto|reflexivity]].
  split; [reflexivity|]. repeat constructor.
Defined.

(** ** The detailed table *)

Lemma eq_str_true (v : cell) (s : string) : eq_str v s = true -> v = Str s.
Proof.
  destruct v; simpl; try discriminate. intro H.
  apply String.eqb_eq in H. now subst.
Qed.

Lemma to_numeric_coerce_numeric parse (v : cell) :
  to_numeric_coerce parse v = NaN \/ exists q, to_numeric_coerce parse v = Num q.
Proof.
  destruct v as [|q|s]; simpl; eauto.
  destruct (parse s); eauto.
Qed.

(** The frames a successful load concatenates. *)
Lemma loaded_frames parse K fs final detailed :
  load_and_process_data parse K fs = Ok (final, detailed) ->
  exists sheets,
    Forall2 (fun y df => fs (filename_of y) = Sheet df) years sheets /\
    clean_and_filter parse
      (map (fun yd => standardize (fst yd) (snd yd)) (combine years sheets))
    = Ok detailed.
Proof.
  intro H. apply load_and_process_data_inv in H.
  destruct H as [all_dfs [t [Hl [Hc _]]]].
  rewrite todo_eq in Hl. apply load_loop_sheets in Hl.
  destruct Hl as [sheets [HF ->]]. exists sheets. split; trivial.
Qed.

Lemma trend_table_columns calc (d : DataFrame) (t : list TrendRow) :
  trend_table calc d = Ok t ->
  has_column "OCC_CODE" (columns d) = true /\
  has_column "OCC_TITLE" (columns d) = true.
Proof.
  unfold trend_table, last_titles, groupby, column. intro H.
  destruct (has_column "OCC_CODE" (columns d)); [|discriminate].
  split; trivial. cbn [bind] in H.
  apply bind_Ok in H. destruct H as [trends [_ H]].
  destruct (has_column "OCC_TITLE" (columns d)); [reflexivity|discriminate].
Qed.

Lemma loaded_have_year (P : Z -> DataFrame -> Prop) (ys : list Z)
    (sheets : list DataFrame) :
  Forall2 P ys sheets -> ys <> [] ->
  existsb (fun df => has_column "Year" (columns df))
          (map (fun yd => standardize (fst yd) (snd yd)) (combine ys sheets))
  = true.
Proof.
  destruct 1 as [|y df ys sheets _ _]; [congruence|]. intros _.
  cbn [combine map existsb fst snd]. now rewrite standardize_has_year.
Qed.

Lemma detailed_nonempty parse K fs final detailed :
  load_and_process_data parse K fs = Ok (final, detailed) ->
  rows detailed <> [].
Proof.
  intro H. apply load_and_process_data_inv in H.
  destruct H as [_ [t [_ [_ [He _]]]]].
  intro E. unfold empty in He. rewrite E in He.
  destruct (columns detailed); discriminate.
Qed.

Lemma detailed_columns parse K fs final detailed :
  load_and_process_data parse K fs = Ok (final, detailed) ->
  Forall (fun c => In c (columns detailed)) cols_to_keep.
Proof.
  intro H. pose proof (loaded_frames _ _ _ _ _ H) as [sheets [HF Hc]].
  apply load_and_process_data_inv in H.
  destruct H as [_ [t [_ [_ [He [Ht _]]]]]].
  destruct (trend_table_columns _ _ _ Ht) as [Hcode Htitle].
  pose proof (clean_and_filter_inv _ _ _ Hc) as [Hemp [Hgroup Hd]].
  assert (Hcols : columns detailed
                  = columns (concat (map (fun yd => standardize (fst yd) (snd yd))
                                         (combine years sheets))))
    by now rewrite Hd.
  assert (Hyear : has_column "Year" (columns detailed) = true).
  { rewrite Hcols, has_column_concat.
    apply (loaded_have_year _ years sheets HF). discriminate. }
  rewrite <- Hcols in Hemp, Hgroup.
  repeat constructor; now apply has_column_In.
Qed.

Lemma detailed_rows parse K fs final detailed :
  load_and_process_data parse K fs = Ok (final, detailed) ->
  Forall (fun r =>
            get r "OCC_GROUP" = Str "detailed" /\
            (exists y, In y years /\ get r "Year" = year_cell y) /\
            (get r "TOT_EMP" = NaN \/ exists q, get r "TOT_EMP" = Num q))
         (rows detailed).
Proof.
  intro H. pose proof (loaded_frames _ _ _ _ _ H) as [sheets [HF Hc]].
  pose proof (clean_and_filter_inv _ _ _ Hc) as [_ [_ Hd]].
  rewrite Hd. cbn [rows]. apply Forall_forall. intros r Hr.
  apply filter_In in Hr. destruct Hr as [Hr Hdet].
  apply in_map_iff in Hr. destruct Hr as [r0 [<- Hr0]].
  apply in_flat_map in Hr0. destruct Hr0 as [df0 [Hdf0 Hr0]].
  apply in_map_iff in Hdf0. destruct Hdf0 as [[y df] [<- Hyd]].
  cbn [fst snd] in Hr0.
  destruct (standardize_rows y df r0 Hr0) as [rest ->].
  split; [now apply eq_str_true|]. split.
  - exists y. split; [|reflexivity].
    apply in_combine_l in Hyd. exact Hyd.
  - cbn [get]. rewrite String.eqb_refl. apply to_numeric_coerce_numeric.
Qed.

(** X6.  After a successful run of [load_and_process_data] the detailed
    table it returns is not empty, has the five kept columns, and each of
    its records carries the group label "detailed", the year of one of
    the ten files, and an employment cell that is a number or missing
    (never text). *)
Theorem detailed_table_invariants parse K fs final detailed :
  load_and_process_data parse K fs = Ok (final, detailed) ->
  rows detailed <> [] /\
  Forall (fun c => In c (columns detailed)) cols_to_keep /\
  Forall (fun r =>
            get r "OCC_GROUP" = Str "detailed" /\
            (exists y, In y years /\ get r "Year" = year_cell y) /\
            (get r "TOT_EMP" = NaN \/ exists q, get r "TOT_EMP" = Num q))
         (rows detailed).
Proof.
  intro H. split; [|split].
  - exact (detailed_nonempty _ _ _ _ _ H).
  - exact (detailed_columns _ _ _ _ _ H).
  - exact (detailed_rows _ _ _ _ _ H).
Qed.

Lemma detailed_table_invariants_witness :
  exists final detailed,
    load_and_process_data parse_digits stable_kind fs_X = Ok (final, detailed) /\
    List.length (rows detailed) = 3%nat /\
    Forall (fun r => get r "OCC_GROUP" = Str "detailed") (rows detailed).
Proof.
  destruct (load_and_process_data parse_digits stable_kind fs_X)
    as [[final detailed]|e] eqn:E; [|vm_compute in E; discriminate E].
  exists final, detailed. split; [reflexivity|]. split.
  - vm_compute in E. inversion E; subst. reflexivity.
  - refine (Forall_impl _ _
      (proj2 (proj2 (detailed_table_invariants parse_digits stable_kind fs_X
                       final detailed E)))).
    intros r H. apply H.
Defined.

(** ** No detailed record at all *)







Lemma load_loop_lenient_run (fs : filesystem) (ys : list Z)
    (sheets : list DataFrame) :
  Forall2 (fun y df => fs (filename_of y) = Sheet df) ys sheets ->
  forall acc out,
    load_loop_lenient fs (map (fun y => (y, filename_of y)) ys) acc out
    = ((acc ++ map (fun yd => standardize (fst yd) (snd yd))
                   (combine ys sheets))%list, out).
Proof.
  induction 1 as [|y df ys sheets Hdf _ IH]; intros acc out; simpl.
  - now rewrite app_nil_r.
  - rewrite Hdf, IH, <- app_assoc. reflexivity.
Qed.





(** ** Groups *)

Lemma insert_key_keeps (k x : cell) (ks : list cell) :
  In x ks -> In x (insert_key k ks).
Proof.
  induction ks as [|k' ks IH]; simpl; [tauto|]. intro H.
  destruct (key_eqb k k'); trivial.
  destruct (key_ltb k k'); [now right|].
  destruct H as [<-|H]; [now left|right; now apply IH].
Qed.

Lemma insert_key_adds (k : cell) (ks : list cell) :
  isna k = false ->
  exists k', In k' (insert_key k ks) /\ key_eqb k k' = true.
Proof.
  intro Hk. induction ks as [|k' ks [x [Hx Hkx]]]; simpl.
  - exists k. split; [now left|now apply key_eqb_refl].
  - destruct (key_eqb k k') eqn:E.
    + exists k'. split; [now left|exact E].
    + destruct (key_ltb k k').
      * exists k. split; [now left|now apply key_eqb_refl].
      * exists x. split; [now right|exact Hkx].
Qed.

Lemma insert_key_from (k x : cell) (ks : list cell) :
  In x (insert_key k ks) -> x = k \/ In x ks.
Proof.
  induction ks as [|k' ks IH]; simpl.
  - intros [<-|[]]. now left.
  - destruct (key_eqb k k'); [tauto|].
    destruct (key_ltb k k'); simpl; [intuition|].
    intros [<-|H]; [right; now left|].
    destruct (IH H); [now left|right; now right].
Qed.

Lemma group_keys_complete (col : list cell) (c : cell) :
  In c col -> isna c = false ->
  exists k, In k (group_keys col) /\ key_eqb c k = true.
Proof.
  unfold group_keys.
  assert (Hkeep : forall l acc x, In x acc ->
    In x (fold_left (fun ks k => if isna k then ks else insert_key k ks) l acc)).
  { induction l as [|a l IH]; intros acc x Hx; simpl; trivial.
    apply IH. destruct (isna a); trivial. now apply insert_key_keeps. }
  generalize (@nil cell). induction col as [|a col IH]; intros acc Hin Hc;
    [destruct Hin|].
  simpl. destruct Hin as [->|Hin].
  - rewrite Hc. destruct (insert_key_adds c acc Hc) as [k [Hk Hck]].
    exists k. split; trivial. now apply Hkeep.
  - now apply IH.
Qed.

Lemma group_keys_sound (col : list cell) (k : cell) :
  In k (group_keys col) -> In k col.
Proof.
  unfold group_keys.
  assert (H : forall l acc,
    In k (fold_left (fun ks k => if isna k then ks else insert_key k ks) l acc) ->
    In k acc \/ In k l).
  { induction l as [|a l IH]; intros acc Hk; simpl in *; [now left|].
    destruct (IH _ Hk) as [Hacc|Hl]; [|right; now right].
    destruct (isna a); [now left|].
    destruct (insert_key_from a k acc Hacc) as [->|Hacc'];
      [right; now left|now left]. }
  intro Hk. destruct (H col [] Hk) as [[]|Hk']. exact Hk'.
Qed.

Lemma ascending_keys_same (ks : list cell) (a b : cell) :
  StronglySorted key_lt ks -> In a ks -> In b ks ->
  key_eqb a b = true -> a = b.
Proof.
  induction 1 as [|k ks Hs IH Hall]; intros Ha Hb Hab; [destruct Ha|].
  destruct Ha as [->|Ha], Hb as [->|Hb]; trivial.
  - pose proof (proj1 (Forall_forall _ _) Hall b Hb) as Hlt.
    rewrite (key_lt_not_eqb _ _ Hlt) in Hab. discriminate.
  - pose proof (proj1 (Forall_forall _ _) Hall a Ha) as Hlt.
    rewrite key_eqb_sym, (key_lt_not_eqb _ _ Hlt) in Hab. discriminate.
  - now apply IH.
Qed.

Lemma key_eqb_trans_true (a b c : cell) :
  key_eqb a b = true -> key_eqb a c = true -> key_eqb b c = true.
Proof.
  intros Hab Hac. rewrite key_eqb_sym.
  rewrite <- (key_eqb_cong a b Hab c). now rewrite key_eqb_sym.
Qed.

Lemma key_eqb_notna (a b : cell) : key_eqb a b = true -> isna a = false.
Proof. destruct a, b; simpl; trivial; discriminate. Qed.

Lemma groupby_group (df : DataFrame) (by_ : string)
    (groups : list (cell * list row)) (k : cell) (g : list row) :
  groupby df by_ = Ok groups -> In (k, g) groups ->
  g <> [] /\ g = group_rows df by_ k.
Proof.
  unfold groupby, column. intros H Hkg.
  destruct (has_column by_ (columns df)); [|discriminate].
  cbn [bind] in H. inversion H; subst groups; clear H.
  apply in_map_iff in Hkg. destruct Hkg as [k' [E Hk]].
  inversion E; subst k' g; clear E. split; [|reflexivity].
  pose proof (group_keys_ascending (map (fun r => get r by_) (rows df)))
    as [_ Hn].
  pose proof (group_keys_sound _ k Hk) as Hcol.
  apply in_map_iff in Hcol. destruct Hcol as [r [Hr Hrin]].
  assert (Hrk : In r (group_rows df by_ k)).
  { apply filter_In. split; trivial. rewrite Hr. apply key_eqb_refl.
    now apply (proj1 (Forall_forall _ _) Hn). }
  intro E. rewrite E in Hrk. destruct Hrk.
Qed.

(** X8.  [groupby] partitions the records whose key is not missing: the
    keys come in strictly ascending order without a missing one; each
    group is not empty and holds exactly the records with its key; each
    record with a key is in some group, no record without a key is in
    any, and no record is in two groups. *)
Theorem groupby_partitions_the_keyed_rows (df : DataFrame) (by_ : string)
    (groups : list (cell * list row)) :
  groupby df by_ = Ok groups ->
  ascending_keys (map fst groups) /\
  (forall k g, In (k, g) groups ->
     g <> [] /\ g = filter (fun r => key_eqb (get r by_) k) (rows df)) /\
  (forall r, In r (rows df) -> isna (get r by_) = false ->
     exists k g, In (k, g) groups /\ In r g) /\
  (forall r k g, In (k, g) groups -> In r g -> isna (get r by_) = false) /\
  (forall r k1 g1 k2 g2,
     In (k1, g1) groups -> In (k2, g2) groups -> In r g1 -> In r g2 ->
     k1 = k2 /\ g1 = g2).
Proof.
  unfold groupby, column. intro H.
  destruct (has_column by_ (columns df)); [|discriminate].
  cbn [bind] in H. inversion H; subst groups; clear H.
  set (col := map (fun r => get r by_) (rows df)).
  pose proof (group_keys_ascending col) as Hasc.
  assert (Hkeys : map fst (map (fun k => (k, group_rows df by_ k)) (group_keys col))
                  = group_keys col).
  { rewrite map_map. cbn [fst]. apply map_id. }
  assert (Hin : forall k g,
            In (k, g) (map (fun k => (k, group_rows df by_ k)) (group_keys col)) ->
            In k (group_keys col) /\ g = group_rows df by_ k).
  { intros k g Hkg. apply in_map_iff in Hkg. destruct Hkg as [k' [E Hk']].
    inversion E; subst. auto. }
  split; [now rewrite Hkeys|]. split; [|split; [|split]].
  - intros k g Hkg. destruct (Hin k g Hkg) as [Hk ->]. split; [|reflexivity].
    pose proof (group_keys_sound col k Hk) as Hcol.
    apply in_map_iff in Hcol. destruct Hcol as [r [Hr Hrin]].
    assert (Hrk : In r (group_rows df by_ k)).
    { apply filter_In. split; trivial. rewrite Hr. apply key_eqb_refl.
      destruct Hasc as [_ Hn]. now apply (proj1 (Forall_forall _ _) Hn). }
    intro E. rewrite E in Hrk. destruct Hrk.
  - intros r Hr Hna.
    destruct (group_keys_complete col (get r by_)) as [k [Hk Hrk]]; trivial.
    { apply in_map_iff. now exists r. }
    exists k, (group_rows df by_ k). split.
    + apply in_map_iff. now exists k.
    + apply filter_In. now split.
  - intros r k g Hkg Hr. destruct (Hin k g Hkg) as [_ ->].
    apply filter_In in Hr. destruct Hr as [_ Hr].
    exact (key_eqb_notna _ _ Hr).
  - intros r k1 g1 k2 g2 H1 H2 Hr1 Hr2.
    destruct (Hin k1 g1 H1) as [Hk1 ->]. destruct (Hin k2 g2 H2) as [Hk2 ->].
    apply filter_In in Hr1. destruct Hr1 as [_ Hr1].
    apply filter_In in Hr2. destruct Hr2 as [_ Hr2].
    assert (E : k1 = k2).
    { apply (ascending_keys_same (group_keys col)); trivial.
      - apply Hasc.
      - exact (key_eqb_trans_true _ _ _ Hr1 Hr2). }
    subst. auto.
Qed.

Lemma groupby_partitions_the_keyed_rows_witness :
  exists groups,
    groupby table_BAB "OCC_CODE" = Ok groups /\
    map fst groups = [Str "A"; Str "B"] /\
    ascending_keys (map fst groups).
Proof.
  eexists. split; [vm_compute; reflexivity|]. split; [reflexivity|].
  refine (proj1 (groupby_partitions_the_keyed_rows table_BAB "OCC_CODE" _ _)).
  vm_compute. reflexivity.
Defined.

(** ** Who is ranked *)

Lemma mapM_complete {A B : Type} (f : A -> result B) (l : list A) :
  forall bs a, mapM f l = Ok bs -> In a l -> exists b, In b bs /\ f a = Ok b.
Proof.
  induction l as [|x l IH]; intros bs a H Ha; [destruct Ha|].
  simpl in H. apply bind_Ok in H. destruct H as [b0 [Hb0 H]].
  apply bind_Ok in H. destruct H as [bs0 [Hbs0 H]].
  inversion H; subst. destruct Ha as [->|Ha].
  - exists b0. split; [now left|trivial].
  - destruct (IH _ _ Hbs0 Ha) as [b [Hb Hf]].
    exists b. split; [now right|trivial].
Qed.

Lemma Permutation_filter_length {A : Type} (p : A -> bool) (l l' : list A) :
  Permutation l l' ->
  List.length (filter p l) = List.length (filter p l').
Proof.
  induction 1 as [|x l l' _ IH|x y l|l l' l'' _ IH1 _ IH2]; simpl; trivial.
  - destruct (p x); simpl; congruence.
  - destruct (p x), (p y); reflexivity.
  - congruence.
Qed.

Lemma ascending_count (ks : list cell) (code : cell) :
  StronglySorted key_lt ks ->
  (List.length (filter (fun k => key_eqb k code) ks) <= 1)%nat.
Proof.
  induction 1 as [|k ks Hs IH Hall]; simpl; [lia|].
  destruct (key_eqb k code) eqn:E; trivial.
  replace (filter (fun k => key_eqb k code) ks) with (@nil cell); [simpl; lia|].
  symmetry. clear IH Hs. induction Hall as [|x ks Hx _ IH]; simpl; trivial.
  rewrite <- (key_eqb_cong k code E x), key_eqb_sym, (key_lt_not_eqb _ _ Hx).
  exact IH.
Qed.

Lemma trend_table_complete calc (d : DataFrame) (t : list TrendRow)
    (code : cell) (s : Q) :
  trend_table calc d = Ok t ->
  group_rows d "OCC_CODE" code <> [] ->
  calc (group_rows d "OCC_CODE" code) = Ok (Some s) ->
  exists r, In r t /\ key_eqb code (OCC_CODE r) = true /\ slope r = s.
Proof.
  unfold trend_table, last_titles. intros H Hne Hcalc.
  apply bind_Ok in H. destruct H as [groups [Hg H]].
  apply bind_Ok in H. destruct H as [trends [Htr H]].
  apply bind_Ok in H. destruct H as [names [Hn H]].
  rewrite Hg in Hn. cbn [bind] in Hn.
  destruct (has_column "OCC_TITLE" (columns d)); [|discriminate].
  inversion Hn; subst names; clear Hn.
  inversion H; subst t; clear H.
  unfold groupby in Hg. apply bind_Ok in Hg. destruct Hg as [col [Hcol Hg]].
  inversion Hg; subst groups; clear Hg.
  unfold column in Hcol.
  destruct (has_column "OCC_CODE" (columns d)); [|discriminate].
  inversion Hcol; subst col; clear Hcol.
  (* a record of the group gives the key *)
  destruct (group_rows d "OCC_CODE" code) as [|r0 g0] eqn:Eg; [congruence|].
  assert (Hr0 : In r0 (group_rows d "OCC_CODE" code))
    by (rewrite Eg; now left).
  apply filter_In in Hr0. destruct Hr0 as [Hr0 Hr0k].
  destruct (group_keys_complete (map (fun r => get r "OCC_CODE") (rows d))
              (get r0 "OCC_CODE")) as [k [Hk Hrk]].
  { apply in_map_iff. now exists r0. }
  { exact (key_eqb_notna _ _ Hr0k). }
  assert (Hck : key_eqb code k = true)
    by exact (key_eqb_trans_true _ _ _ Hr0k Hrk).
  rewrite <- Eg in Hcalc.
  rewrite (group_rows_cong d "OCC_CODE" _ _ Hck) in Hcalc.
  (* its slope is in the trends *)
  destruct (mapM_complete _ _ _ (k, group_rows d "OCC_CODE" k) Htr)
    as [[k' s'] [Hin Hf]].
  { apply in_map_iff. now exists k. }
  cbn [fst snd] in Hf. rewrite Hcalc in Hf. cbn [bind] in Hf.
  inversion Hf; subst k' s'; clear Hf.
  exists {| OCC_CODE := k; slope := s;
            OCC_TITLE := last_notna (map (fun x => get x "OCC_TITLE")
                                         (group_rows d "OCC_CODE" k)) |}.
  split; [|split; [exact Hck|reflexivity]].
  unfold merge. apply in_flat_map. exists (k, s). split.
  - unfold dropna_slope. apply in_flat_map. exists (k, Some s).
    split; [exact Hin|now left].
  - apply in_map_iff.
    exists (k, last_notna (map (fun x => get x "OCC_TITLE")
                               (group_rows d "OCC_CODE" k))).
    split; [reflexivity|]. apply filter_In. split.
    + apply in_map_iff. exists (k, group_rows d "OCC_CODE" k).
      split; [reflexivity|]. apply in_map_iff. now exists k.
    + cbn [fst]. apply key_eqb_refl. exact (key_eqb_notna _ _ (eq_trans (key_eqb_sym k code) Hck)).
Qed.

Lemma trend_table_group_nonempty calc (d : DataFrame) (t : list TrendRow)
    (r : TrendRow) :
  trend_table calc d = Ok t -> In r t ->
  group_rows d "OCC_CODE" (OCC_CODE r) <> [].
Proof.
  intros Ht Hr.
  destruct (trend_table_row calc d t r Ht Hr) as [Hs _].
  unfold trend_table in Ht. apply bind_Ok in Ht. destruct Ht as [groups [Hg H]].
  apply bind_Ok in H. destruct H as [trends [Htr H]].
  apply bind_Ok in H. destruct H as [names [Hn H]].
  inversion H; subst t; clear H.
  unfold merge in Hr. apply in_flat_map in Hr. destruct Hr as [[k s] [Hks Hr]].
  apply in_map_iff in Hr. destruct Hr as [[k' ti] [<- Hkt]]. cbn [OCC_CODE fst].
  unfold dropna_slope in Hks. apply in_flat_map in Hks.
  destruct Hks as [[k0 [s0|]] [Hin Hks]]; simpl in Hks;
    [destruct Hks as [E|[]]|destruct Hks].
  inversion E; subst k0 s0; clear E.
  unfold apply_groups in Htr.
  destruct (mapM_In _ _ _ _ Htr Hin) as [[k1 g] [Hg1 Hc]].
  apply bind_Ok in Hc. destruct Hc as [s1 [_ E]]. cbn [fst snd] in E.
  inversion E; subst k1 s1; clear E.
  destruct (groupby_group d "OCC_CODE" groups k g Hg Hg1) as [Hne ->].
  exact Hne.
Qed.

(** ** Least squares *)

Lemma amax_fold_spec (l : list Q) (a : Q) :
  let m := fold_left (fun m b => if Qle_bool m b then b else m) l a in
  In m (a :: l) /\ (a <= m)%Q /\ Forall (fun x => (x <= m)%Q) l.
Proof.
  revert a. induction l as [|b l IH]; intro a; cbn zeta; simpl.
  - split; [now left|]. split; [apply Qle_refl|constructor].
  - destruct (Qle_bool a b) eqn:E.
    + apply Qle_bool_iff in E. destruct (IH b) as [Hin [Hle Hall]].
      split; [now right|]. split; [now apply Qle_trans with b|].
      now constructor.
    + assert (Hba : (b <= a)%Q).
      { apply Qlt_le_weak, Qnot_le_lt. intro H. apply Qle_bool_iff in H.
        congruence. }
      destruct (IH a) as [Hin [Hle Hall]].
      split; [destruct Hin as [<-|Hin]; [now left|right; now right]|].
      split; trivial. constructor; trivial. now apply Qle_trans with a.
Qed.

Lemma amin_fold_spec (l : list Q) (a : Q) :
  let m := fold_left (fun m b => if Qle_bool b m then b else m) l a in
  In m (a :: l) /\ (m <= a)%Q /\ Forall (fun x => (m <= x)%Q) l.
Proof.
  revert a. induction l as [|b l IH]; intro a; cbn zeta; simpl.
  - split; [now left|]. split; [apply Qle_refl|constructor].
  - destruct (Qle_bool b a) eqn:E.
    + apply Qle_bool_iff in E. destruct (IH b) as [Hin [Hle Hall]].
      split; [now right|]. split; [now apply Qle_trans with b|].
      now constructor.
    + assert (Hab : (a <= b)%Q).
      { apply Qlt_le_weak, Qnot_le_lt. intro H. apply Qle_bool_iff in H.
        congruence. }
      destruct (IH a) as [Hin [Hle Hall]].
      split; [destruct Hin as [<-|Hin]; [now left|right; now right]|].
      split; trivial. constructor; trivial. now apply Qle_trans with a.
Qed.

Lemma amax_upper (l : list Q) : Forall (fun x => (x <= Stats.amax l)%Q) l.
Proof.
  destruct l as [|a l]; [constructor|]. simpl.
  destruct (amax_fold_spec l a) as [_ [Ha Hall]]. now constructor.
Qed.

Lemma amin_lower (l : list Q) : Forall (fun x => (Stats.amin l <= x)%Q) l.
Proof.
  destruct l as [|a l]; [constructor|]. simpl.
  destruct (amin_fold_spec l a) as [_ [Ha Hall]]. now constructor.
Qed.

Lemma amax_In (l : list Q) : l <> [] -> In (Stats.amax l) l.
Proof.
  destruct l as [|a l]; [congruence|]. intros _. simpl.
  now destruct (amax_fold_spec l a) as [H _].
Qed.

Lemma amin_In (l : list Q) : l <> [] -> In (Stats.amin l) l.
Proof.
  destruct l as [|a l]; [congruence|]. intros _. simpl.
  now destruct (amin_fold_spec l a) as [H _].
Qed.

(** Two different values keep maximum and minimum apart. *)
Lemma amax_amin_apart (l : list Q) (a b : Q) :
  In a l -> In b l -> ~ a == b ->
  Qeq_bool (Stats.amax l) (Stats.amin l) = false.
Proof.
  intros Ha Hb Hab.
  destruct (Qeq_bool (Stats.amax l) (Stats.amin l)) eqn:E; trivial.
  apply Qeq_bool_eq in E. exfalso. apply Hab.
  pose proof (proj1 (Forall_forall _ _) (amax_upper l)) as Hup.
  pose proof (proj1 (Forall_forall _ _) (amin_lower l)) as Hlo.
  pose proof (Hup a Ha). pose proof (Hup b Hb).
  pose proof (Hlo a Ha). pose proof (Hlo b Hb). cbv beta in *. lra.
Qed.

Lemma square_nonneg (a : Q) : (0 <= a * a)%Q.
Proof.
  destruct (Qlt_le_dec a 0) as [H|H].
  - assert (E : a * a == (- a) * (- a)) by ring. rewrite E.
    apply Qmult_le_0_compat; lra.
  - now apply Qmult_le_0_compat.
Qed.

Lemma qsum_squares_nonneg (l : list Q) (m : Q) :
  (0 <= Stats.qsum (map (fun xi => (xi - m) * (xi - m))%Q l))%Q.
Proof.
  induction l as [|x l IH]; simpl; [apply Qle_refl|].
  pose proof (square_nonneg (x - m)). lra.
Qed.

Lemma qsum_squares_zero (l : list Q) (m : Q) :
  Stats.qsum (map (fun xi => (xi - m) * (xi - m))%Q l) == 0 ->
  Forall (fun xi => xi == m) l.
Proof.
  induction l as [|x l IH]; simpl; intro H; constructor.
  - pose proof (qsum_squares_nonneg l m). pose proof (square_nonneg (x - m)).
    assert (Hsq : ((x - m) * (x - m) == 0)%Q) by lra.
    apply Qmult_integral in Hsq. destruct Hsq; lra.
  - apply IH. pose proof (qsum_squares_nonneg l m).
    pose proof (square_nonneg (x - m)). lra.
Qed.

Lemma length_pos_Q (l : list Q) :
  l <> [] -> (0 < inject_Z (Z.of_nat (List.length l)))%Q.
Proof.
  intro H. destruct l; [congruence|].
  change 0%Q with (inject_Z 0). rewrite <- Zlt_Qlt. simpl List.length. lia.
Qed.

Lemma mean_zero (l : list Q) :
  l <> [] -> Stats.mean l == 0 -> Stats.qsum l == 0.
Proof.
  intros Hl H. unfold Stats.mean in H.
  pose proof (length_pos_Q l Hl) as Hn.
  assert (Hne : ~ inject_Z (Z.of_nat (List.length l)) == 0) by lra.
  rewrite <- (Qmult_div_r (Stats.qsum l) _ Hne), H. ring.
Qed.

(** The variance of [x] vanishes only if all values are identical. *)
Lemma ssxm_positive (x : list Q) :
  Qeq_bool (Stats.amax x) (Stats.amin x) = false ->
  Qeq_bool (Stats.mean (map (fun xi => (xi - Stats.mean x) * (xi - Stats.mean x))%Q x)) 0
  = false.
Proof.
  intro Hd.
  destruct (Qeq_bool (Stats.mean (map _ x)) 0) eqn:E; trivial.
  apply Qeq_bool_eq in E. exfalso.
  assert (Hx : x <> []).
  { intro Ex. subst x. simpl in Hd. discriminate. }
  apply mean_zero in E; [|destruct x; [congruence|discriminate]].
  apply qsum_squares_zero in E.
  pose proof (proj1 (Forall_forall _ _) E _ (amax_In x Hx)) as H1.
  pose proof (proj1 (Forall_forall _ _) E _ (amin_In x Hx)) as H2.
  cbv beta in H1, H2.
  assert (Heq : Stats.amax x == Stats.amin x) by lra.
  apply Qeq_bool_iff in Heq. congruence.
Qed.

(** With two points or more, [linregress] either raises or returns a
    number for the slope. *)
Lemma linregress_slope_number (x y : list Q) (res : Stats.LinregressResult) :
  (2 <= List.length x)%nat ->
  Stats.linregress x y = Ok res ->
  exists s, Stats.slope res = Some s.
Proof.
  intros Hlen H. unfold Stats.linregress in H.
  destruct x as [|a x]; [simpl in Hlen; lia|].
  destruct y as [|b y]; [discriminate|].
  assert (Hn : (1 <? List.length (a :: x))%nat = true)
    by (apply Nat.ltb_lt; simpl in *; lia).
  rewrite Hn, andb_true_r in H.
  destruct (Qeq_bool (Stats.amax (a :: x)) (Stats.amin (a :: x))) eqn:Ed;
    [discriminate|].
  rewrite (ssxm_positive (a :: x) Ed) in H.
  inversion H; subst res. cbn [Stats.slope]. eauto.
Qed.

Lemma linregress_raises_only_identical (x y : list Q) (e : exn) :
  x <> [] -> y <> [] ->
  Stats.linregress x y = Raise e -> e = identical_x.
Proof.
  intros Hx Hy H. unfold Stats.linregress in H.
  destruct x as [|a x]; [congruence|]. destruct y as [|b y]; [congruence|].
  destruct (Qeq_bool (Stats.amax (a :: x)) (Stats.amin (a :: x))
            && (1 <? List.length (a :: x))%nat).
  - now inversion H.
  - destruct (Qeq_bool _ 0); discriminate.
Qed.

(** ** When a slope is a number *)

Lemma calculate_slope_app_number (group : list row) :
  (2 <= List.length (dropna ["Year"; "TOT_EMP"] group))%nat ->
  calculate_slope_app group <> Ok None.
Proof.
  intros Hlen H. unfold calculate_slope_app in H.
  assert (Hlt : (List.length (dropna ["Year"; "TOT_EMP"] group) <? 2)%nat = false)
    by now apply Nat.ltb_ge.
  rewrite Hlt in H. apply bind_Ok in H. destruct H as [res [Hres H]].
  apply linregress_slope_number in Hres; [|now rewrite !length_map].
  destruct Hres as [s Hs]. rewrite Hs in H. discriminate.
Qed.

(** The cast of [app.py] is invisible on integral values within range. *)
Lemma calculate_slope_cast_neutral (group : list row) :
  (forall r, In r (dropna ["Year"; "TOT_EMP"] group) ->
             in_int64 (float_of (get r "Year")) /\
             in_int64 (float_of (get r "TOT_EMP"))) ->
  calculate_slope_app group = calculate_slope_script group.
Proof.
  intro H. unfold calculate_slope_app, calculate_slope_script.
  destruct (List.length (dropna ["Year"; "TOT_EMP"] group) <? 2)%nat;
    [reflexivity|].
  rewrite !map_map.
  rewrite (linregress_ext
             (map (fun r => inject_Z (astype_int64 (float_of (get r "Year"))))
                  (dropna ["Year"; "TOT_EMP"] group))
             (map (fun r => float_of (get r "Year"))
                  (dropna ["Year"; "TOT_EMP"] group))
             (map (fun r => inject_Z (astype_int64 (float_of (get r "TOT_EMP"))))
                  (dropna ["Year"; "TOT_EMP"] group))
             (map (fun r => float_of (get r "TOT_EMP"))
                  (dropna ["Year"; "TOT_EMP"] group))).
  - reflexivity.
  - apply Forall2_map_ext. intros r Hr. apply astype_int64_keeps. now apply H.
  - apply Forall2_map_ext. intros r Hr. apply astype_int64_keeps. now apply H.
Qed.

(** X9.  [calculate_slope] of [app.py] returns NaN exactly when the group
    has fewer than two records with both a year and an employment value:
    with two or more, the regression yields a number or raises, never a
    missing slope.  The same holds for [regressao.py] on groups whose
    years and employment values are integers of the int64 range. *)
Theorem nan_slope_exactly_for_short_history (group : list row) :
  (calculate_slope_app group = Ok None <->
   (List.length (dropna ["Year"; "TOT_EMP"] group) < 2)%nat) /\
  ((forall r, In r (dropna ["Year"; "TOT_EMP"] group) ->
              in_int64 (float_of (get r "Year")) /\
              in_int64 (float_of (get r "TOT_EMP"))) ->
   (calculate_slope_script group = Ok None <->
    (List.length (dropna ["Year"; "TOT_EMP"] group) < 2)%nat)).
Proof.
  assert (Happ : calculate_slope_app group = Ok None <->
                 (List.length (dropna ["Year"; "TOT_EMP"] group) < 2)%nat).
  { split.
    - intro H.
      destruct (Nat.lt_ge_cases (List.length (dropna ["Year"; "TOT_EMP"] group)) 2)
        as [Hlt|Hge]; trivial.
      exfalso. exact (calculate_slope_app_number group Hge H).
    - intro H. apply Nat.ltb_lt in H. unfold calculate_slope_app.
      now rewrite H. }
  split; [exact Happ|].
  intro Hint. now rewrite <- (calculate_slope_cast_neutral group Hint).
Qed.

Lemma nan_slope_exactly_for_short_history_witness :
  calculate_slope_script (firstn 1 series_X) = Ok None <->
  (List.length (dropna ["Year"; "TOT_EMP"] (firstn 1 series_X)) < 2)%nat.
Proof.
  apply (proj2 (nan_slope_exactly_for_short_history (firstn 1 series_X))).
  intros r Hr. vm_compute in Hr. destruct Hr as [<-|[]].
  split; (eexists; split; [reflexivity|vm_compute; split; discriminate]).
Defined.

(** ** The exception [app.py] keeps for an empty load *)

Lemma load_loop_raises (fs : filesystem) (ys : list Z) : forall acc e,
  load_loop fs (map (fun y => (y, filename_of y)) ys) acc = Raise e ->
  exists y, In y ys /\
    ((fs (filename_of y) = Missing /\ e = FileNotFoundError (filename_of y)) \/
     (exists cause, fs (filename_of y) = Unreadable cause /\
                    e = ReadError (filename_of y) cause)).
Proof.
  induction ys as [|y ys IH]; intros acc e H; simpl in H; [discriminate|].
  destruct (fs (filename_of y)) eqn:Ey.
  - inversion H; subst. exists y. split; [now left|]. left. auto.
  - inversion H; subst. exists y. split; [now left|]. right. eauto.
  - destruct (IH _ _ H) as [y' [Hy' He]]. exists y'. split; [now right|exact He].
Qed.

Lemma clean_and_filter_raises parse (dfs : list DataFrame) (e : exn) :
  clean_and_filter parse dfs = Raise e ->
  e = KeyError "TOT_EMP" \/ e = KeyError "OCC_GROUP".
Proof.
  unfold clean_and_filter. intro H.
  destruct (has_column "TOT_EMP" (columns (concat dfs))) eqn:Et.
  - rewrite (coerce_tot_emp_Ok _ _ Et) in H. cbn [bind] in H.
    unfold filter_detailed, column in H. cbn [columns] in H.
    destruct (has_column "OCC_GROUP" (columns (concat dfs)));
      [discriminate|]. inversion H. now right.
  - unfold coerce_tot_emp, column in H. rewrite Et in H. inversion H. now left.
Qed.

Lemma dropna_nonempty_map {B : Type} (f : row -> B) (g : list row) :
  (List.length g <? 2)%nat = false -> map f g <> [].
Proof. destruct g; [discriminate|discriminate]. Qed.

Lemma calculate_slope_app_raises (group : list row) (e : exn) :
  calculate_slope_app group = Raise e -> e = identical_x.
Proof.
  unfold calculate_slope_app. intro H.
  destruct (List.length (dropna ["Year"; "TOT_EMP"] group) <? 2)%nat eqn:E;
    [discriminate|].
  destruct (Stats.linregress _ _) eqn:El; [discriminate|].
  cbn [bind] in H. inversion H; subst e0.
  apply (linregress_raises_only_identical _ _ _) with (3 := El);
    rewrite map_map; now apply dropna_nonempty_map.
Qed.

Lemma mapM_Raise {A B : Type} (f : A -> result B) (l : list A) (e : exn) :
  mapM f l = Raise e -> exists a, In a l /\ f a = Raise e.
Proof.
  induction l as [|a l IH]; simpl; [discriminate|].
  destruct (f a) eqn:Ea; cbn [bind].
  - destruct (mapM f l); cbn [bind]; [discriminate|].
    intro H. inversion H; subst.
    destruct (IH eq_refl) as [x [Hx Hfx]]. exists x. split; [now right|trivial].
  - intro H. inversion H; subst. exists a. split; [now left|trivial].
Qed.

Lemma trend_table_raises calc (d : DataFrame) (e : exn) :
  (forall g e', calc g = Raise e' -> e' = identical_x) ->
  trend_table calc d = Raise e ->
  e = KeyError "OCC_CODE" \/ e = KeyError "OCC_TITLE" \/ e = identical_x.
Proof.
  intros Hcalc H. unfold trend_table, last_titles, groupby, column in H.
  destruct (has_column "OCC_CODE" (columns d)).
  - cbn [bind] in H.
    destruct (apply_groups calc _) eqn:Ea; cbn [bind] in H.
    + destruct (has_column "OCC_TITLE" (columns d)); [discriminate|].
      inversion H. right. now left.
    + inversion H; subst e0. right. right.
      unfold apply_groups in Ea. apply mapM_Raise in Ea.
      destruct Ea as [[k g] [_ Hg]]. cbn [fst snd] in Hg.
      destruct (calc g) eqn:Ec; [discriminate|]. cbn [bind] in Hg.
      inversion Hg; subst. now apply (Hcalc g).
  - inversion H. now left.
Qed.

(** X11.  The "Nenhum dado foi carregado" exception of [app.py] (line
    61) is unreachable: its loader loop ends in an exception or hands on
    ten frames, one per year, so whatever [load_and_process_data] raises,
    it is not that exception. *)
Theorem no_data_exception_of_app_is_unreachable parse K fs :
  (forall dfs, load_loop fs (combine years filenames) [] = Ok dfs ->
               List.length dfs = 10%nat) /\
  (forall e, load_and_process_data parse K fs = Raise e -> e <> NoDataLoaded).
Proof.
  split.
  - intros dfs H. rewrite todo_eq in H. apply load_loop_sheets in H.
    destruct H as [sheets [HF ->]]. cbn [app].
    rewrite length_map, length_combine.
    rewrite <- (Forall2_length HF), Nat.min_id. reflexivity.
  - intros e H. unfold load_and_process_data in H.
    destruct (load_loop fs (combine years filenames) []) as [dfs|e0] eqn:El;
      cbn [bind] in H.
    + destruct dfs as [|df dfs].
      * exfalso. rewrite todo_eq in El. apply load_loop_sheets in El.
        destruct El as [sheets [HF E]]. cbn [app] in E.
        symmetry in E. revert E. apply (loaded_nonempty _ _ HF).
      * destruct (clean_and_filter parse (df :: dfs)) as [d|e1] eqn:Ec;
          cbn [bind] in H.
        -- destruct (empty d).
           ++ inversion H. discriminate.
           ++ destruct (trend_table calculate_slope_app d) as [t|e2] eqn:Et;
                cbn [bind] in H; [discriminate|].
              inversion H; subst e2.
              destruct (trend_table_raises _ _ _ calculate_slope_app_raises Et)
                as [ -> | [ -> | -> ] ]; discriminate.
        -- inversion H; subst e1.
           destruct (clean_and_filter_raises _ _ _ Ec) as [ -> | -> ];
             discriminate.
    + inversion H; subst e0. rewrite todo_eq in El.
      destruct (load_loop_raises _ _ _ _ El) as [y [Hy [[Hm ->]|[c [Hu ->]]]]];
        discriminate.
Qed.

(** ** The script's loader *)

(** X12.  When none of the ten files is a readable sheet, [regressao.py]
    prints its start line, the warnings of the files in year order, and
    "Nenhum dado foi carregado...", then returns normally; each missing
    file has its warning line in the output. *)
Theorem script_without_a_readable_file parse K fs :
  (forall y df, In y years -> fs (filename_of y) <> Sheet df) ->
  analyze_job_trends parse K fs
  = ((Line "Iniciando carregamento e processamento de 10 arquivos anuais..."
      :: map Line (flat_map (printed_for fs) years))
     ++ [Line "Nenhum dado foi carregado. Verifique os nomes e caminhos dos arquivos."],
     Ok tt)%list /\
  (forall y, In y years -> fs (filename_of y) = Missing ->
     In (Line (warn_missing y (filename_of y)))
        (fst (analyze_job_trends parse K fs))).
Proof.
  intro Hnone.
  assert (Hkept : flat_map (kept_of fs) years = []).
  { induction years as [|y ys IH]; trivial. simpl.
    rewrite IH by (intros z df Hz; apply Hnone; now right).
    unfold kept_of. destruct (fs (filename_of y)) eqn:E; trivial.
    exfalso. exact (Hnone y df (or_introl eq_refl) E). }
  assert (E : analyze_job_trends parse K fs
    = ((Line "Iniciando carregamento e processamento de 10 arquivos anuais..."
        :: map Line (flat_map (printed_for fs) years))
       ++ [Line "Nenhum dado foi carregado. Verifique os nomes e caminhos dos arquivos."],
       Ok tt)%list).
  { unfold analyze_job_trends.
    rewrite todo_eq, load_loop_lenient_spec, Hkept. reflexivity. }
  split; [exact E|].
  intros y Hy Hm. rewrite E. cbn [fst].
  apply in_or_app. left. right. apply in_map.
  apply in_flat_map. exists y. split; trivial.
  unfold printed_for. rewrite Hm. now left.
Qed.

Lemma script_without_a_readable_file_witness :
  In (Line (warn_missing 2019 (filename_of 2019)))
     (fst (analyze_job_trends parse_digits stable_kind (fun _ => Missing))) /\
  snd (analyze_job_trends parse_digits stable_kind (fun _ => Missing)) = Ok tt.
Proof.
  assert (Hnone : forall y df, In y years ->
            (fun _ : string => Missing) (filename_of y) <> Sheet df)
    by (intros y df _; discriminate).
  destruct (script_without_a_readable_file parse_digits stable_kind
              (fun _ => Missing) Hnone) as [Hout Hwarn].
  split.
  - apply Hwarn; [vm_compute; auto 10|reflexivity].
  - now rewrite Hout.
Defined.

(** ** What the script prints *)

Lemma Table_not_Line {T : Type} (t : list T) (ls : list string) :
  ~ In (Table t) (map Line ls).
Proof.
  intro H. apply in_map_iff in H. destruct H as [s [E _]]. discriminate.
Qed.

Lemma analyze_job_trends_table parse K fs (t : list TrendRow) :
  In (Table t) (fst (analyze_job_trends parse K fs)) ->
  exists d whole,
    clean_and_filter parse (flat_map (kept_of fs) years) = Ok d /\
    trend_table calculate_slope_script d = Ok whole /\
    t = firstn 10 (sort_values_desc K slope whole) /\
    snd (analyze_job_trends parse K fs) = Ok tt.
Proof.
  unfold analyze_job_trends. cbv zeta.
  rewrite todo_eq, (load_loop_lenient_spec fs years [] []).
  cbn [app fst snd].
  assert (Hout : forall post : list (output TrendRow),
            In (Table t) (map Line (flat_map (printed_for fs) years) ++ post)%list ->
            In (Table t) post).
  { intros post H. apply in_app_or in H. destruct H as [H|H]; trivial.
    exfalso. now apply (Table_not_Line t _ H). }
  destruct (flat_map (kept_of fs) years) as [|df dfs]; cbn [fst snd].
  - intros [H|H]; [discriminate|]. exfalso.
    apply Hout in H. destruct H as [H|[]]. discriminate.
  - destruct (clean_and_filter parse (df :: dfs)) as [d|e]; cbn [fst snd].
    + destruct (empty d); cbn [fst snd].
      * intros [H|H]; [discriminate|]. exfalso.
        apply Hout in H. destruct H as [H|[]]. discriminate.
      * destruct (trend_table calculate_slope_script d) as [whole|e] eqn:Et;
          cbn [fst snd].
        -- intros [H|H]; [discriminate|].
           exists d, whole. split; [reflexivity|].
           split; [exact Et|]. split; [|reflexivity].
           rewrite <- app_assoc in H. apply Hout in H. cbn [app] in H.
           destruct H as [H|[H|[H|[H|[H|[]]]]]]; try discriminate.
           now inversion H.
        -- intros [H|H]; [discriminate|]. exfalso.
           apply Hout in H. destruct H as [H|[]]. discriminate.
    + intros [H|H]; [discriminate|]. exfalso.
      rewrite <- (app_nil_r (map Line _)) in H. apply Hout in H. destruct H.
Qed.

Lemma StronglySorted_firstn {A : Type} (R : A -> A -> Prop) (n : nat)
    (l : list A) :
  StronglySorted R l -> StronglySorted R (firstn n l).
Proof.
  intro H. revert n. induction H as [|a l Hl IH Ha]; intro n.
  - rewrite firstn_nil. constructor.
  - destruct n; simpl; constructor; trivial.
    apply Forall_forall. intros x Hx.
    apply (proj1 (Forall_forall _ _) Ha). revert Hx. clear.
    revert n. induction l as [|b l IH]; intros n Hx.
    + rewrite firstn_nil in Hx. destruct Hx.
    + destruct n; simpl in Hx; [destruct Hx|].
      destruct Hx as [<-|Hx]; [now left|right; now apply (IH n)].
Qed.

Lemma StronglySorted_split {A : Type} (R : A -> A -> Prop) (n : nat)
    (l : list A) :
  StronglySorted R l ->
  forall a b, In a (firstn n l) -> In b (skipn n l) -> R a b.
Proof.
  intro H. revert n. induction H as [|x l Hl IH Hx]; intros n a b Ha Hb.
  - rewrite firstn_nil in Ha. destruct Ha.
  - destruct n; simpl in Ha, Hb; [destruct Ha|].
    destruct Ha as [<-|Ha].
    + apply (proj1 (Forall_forall _ _) Hx).
      clear - Hb. revert n Hb. induction l as [|c l IH]; intros n Hb.
      * rewrite skipn_nil in Hb. destruct Hb.
      * destruct n; simpl in Hb; trivial. right. now apply (IH n).
    + now apply (IH n).
Qed.

(** X13.  A table printed by [regressao.py] is the head of the trend
    table the script computed from the detailed records of the readable
    files, sorted by descending slope: its first ten rows, or all of them
    when there are fewer; the rows printed are in descending order of
    slope, no row left out has a larger slope than a row printed, and
    the script then returns normally. *)
Theorem script_prints_the_ten_steepest parse K fs (t : list TrendRow) :
  In (Table t) (fst (analyze_job_trends parse K fs)) ->
  snd (analyze_job_trends parse K fs) = Ok tt /\
  exists d whole rest,
    clean_and_filter parse (flat_map (kept_of fs) years) = Ok d /\
    trend_table calculate_slope_script d = Ok whole /\
    sort_values_desc K slope whole = (t ++ rest)%list /\
    List.length t = Nat.min 10 (List.length whole) /\
    StronglySorted (fun a b => (slope b <= slope a)%Q) t /\
    (forall a b, In a t -> In b rest -> (slope b <= slope a)%Q).
Proof.
  intro H.
  destruct (analyze_job_trends_table _ _ _ _ H) as [d [whole [Hd [Ht [-> Hs]]]]].
  pose proof (sort_values_desc_sorted K slope whole) as Hsorted.
  split; [exact Hs|].
  exists d, whole, (skipn 10 (sort_values_desc K slope whole)).
  split; [exact Hd|]. split; [exact Ht|]. split; [|split; [|split]].
  - now rewrite firstn_skipn.
  - now rewrite length_firstn, sort_values_desc_length.
  - now apply StronglySorted_firstn.
  - intros a b Ha Hb.
    exact (StronglySorted_split _ 10 _ Hsorted a b Ha Hb).
Qed.

Lemma script_prints_the_ten_steepest_witness :
  exists t,
    In (Table t) (fst (analyze_job_trends parse_digits stable_kind fs_XY)) /\
    List.length t = 1%nat /\
    snd (analyze_job_trends parse_digits stable_kind fs_XY) = Ok tt.
Proof.
  exists [ {| OCC_CODE := Str "X"; slope := 10; OCC_TITLE := Str "X" |} ].
  assert (Hin : In (Table [ {| OCC_CODE := Str "X"; slope := 10;
                               OCC_TITLE := Str "X" |} ])
                   (fst (analyze_job_trends parse_digits stable_kind fs_XY))).
  { vm_compute. do 5 right. left. reflexivity. }
  split; [exact Hin|]. split; [reflexivity|].
  exact (proj1 (script_prints_the_ten_steepest parse_digits stable_kind fs_XY
                  _ Hin)).
Defined.

(** ** Who is ranked, and how often *)

Lemma filter_map_length {A B : Type} (f : A -> B) (p : B -> bool) (l : list A) :
  List.length (filter (fun a => p (f a)) l) = List.length (filter p (map f l)).
Proof.
  induction l as [|a l IH]; simpl; trivial.
  destruct (p (f a)); simpl; now rewrite IH.
Qed.

(** X14.  In the ranking of a successful run no occupation code occurs
    twice, and no ranked row has a missing code. *)
Theorem ranking_lists_each_code_once parse K fs final detailed (code : cell) :
  load_and_process_data parse K fs = Ok (final, detailed) ->
  (List.length (filter (fun r => key_eqb (OCC_CODE (trend r)) code) final) <= 1)%nat /\
  Forall (fun r => isna (OCC_CODE (trend r)) = false) final.
Proof.
  intro H. apply load_and_process_data_inv in H.
  destruct H as [all_dfs [t [_ [_ [_ [Ht ->]]]]]].
  pose proof (trend_table_codes_ascending _ _ _ Ht) as Hasc.
  split.
  - rewrite (filter_map_length trend (fun r => key_eqb (OCC_CODE r) code)).
    unfold ranker. rewrite assign_rank_trend.
    rewrite <- (Permutation_filter_length _ _ _ (sort_values_desc_perm K slope t)).
    rewrite (filter_map_length OCC_CODE (fun k => key_eqb k code)).
    now apply ascending_count.
  - apply Forall_forall. intros r Hr. apply ranker_In in Hr.
    destruct (trend_table_row _ _ _ _ Ht Hr) as [Hs _].
    pose proof (trend_table_group_nonempty _ _ _ _ Ht Hr) as Hne.
    destruct (group_rows detailed "OCC_CODE" (OCC_CODE (trend r))) as [|x g] eqn:E;
      [congruence|].
    assert (Hx : In x (group_rows detailed "OCC_CODE" (OCC_CODE (trend r))))
      by (rewrite E; now left).
    apply filter_In in Hx. destruct Hx as [_ Hx].
    rewrite key_eqb_sym in Hx. exact (key_eqb_notna _ _ Hx).
Qed.

Lemma ranking_lists_each_code_once_witness :
  exists final detailed,
    load_and_process_data parse_digits stable_kind fs_tied = Ok (final, detailed) /\
    List.length final = 2%nat /\
    (List.length (filter (fun r => key_eqb (OCC_CODE (trend r)) (Str "A")) final)
     <= 1)%nat.
Proof.
  destruct (load_and_process_data parse_digits stable_kind fs_tied)
    as [[final detailed]|e] eqn:E; [|vm_compute in E; discriminate E].
  exists final, detailed. split; [reflexivity|]. split.
  - vm_compute in E. inversion E; subst. reflexivity.
  - exact (proj1 (ranking_lists_each_code_once parse_digits stable_kind fs_tied
                    final detailed (Str "A") E)).
Defined.

(** X15.  After a successful run an occupation code is ranked with slope
    s exactly when the detailed table has records with that code and
    [calculate_slope] gives the number s for them. *)
Theorem ranked_exactly_when_a_slope_exists parse K fs final detailed
    (code : cell) (s : Q) :
  load_and_process_data parse K fs = Ok (final, detailed) ->
  (exists r, In r final /\ key_eqb code (OCC_CODE (trend r)) = true /\
             slope (trend r) = s) <->
  (group_rows detailed "OCC_CODE" code <> [] /\
   calculate_slope_app (group_rows detailed "OCC_CODE" code) = Ok (Some s)).
Proof.
  intro H. apply load_and_process_data_inv in H.
  destruct H as [all_dfs [t [_ [_ [_ [Ht ->]]]]]]. split.
  - intros [r [Hr [Hcode Hs]]]. apply ranker_In in Hr.
    rewrite (group_rows_cong detailed "OCC_CODE" _ _ Hcode).
    split; [now apply (trend_table_group_nonempty _ _ _ _ Ht)|].
    rewrite <- Hs. now apply (trend_table_row _ _ _ _ Ht).
  - intros [Hne Hcalc].
    destruct (trend_table_complete _ _ _ code s Ht Hne Hcalc)
      as [r [Hr [Hcode Hs]]].
    assert (Hin : In r (map trend (ranker K t))).
    { unfold ranker. rewrite assign_rank_trend.
      apply (Permutation_in _ (sort_values_desc_perm K slope t) Hr). }
    apply in_map_iff in Hin. destruct Hin as [rr [<- Hrr]].
    exists rr. auto.
Qed.

Lemma ranked_exactly_when_a_slope_exists_witness :
  exists final detailed,
    load_and_process_data parse_digits stable_kind fs_XY = Ok (final, detailed) /\
    (exists r, In r final /\ key_eqb (Str "X") (OCC_CODE (trend r)) = true /\
               slope (trend r) = 10%Q) /\
    ~ (exists r, In r final /\ key_eqb (Str "Y") (OCC_CODE (trend r)) = true /\
                 slope (trend r) = 0%Q).
Proof.
  destruct (load_and_process_data parse_digits stable_kind fs_XY)
    as [[final detailed]|e] eqn:E; [|vm_compute in E; discriminate E].
  exists final, detailed. split; [reflexivity|]. split.
  - apply (proj2 (ranked_exactly_when_a_slope_exists parse_digits stable_kind
                    fs_XY final detailed (Str "X") 10%Q E)).
    vm_compute in E. inversion E; subst. split; [discriminate|reflexivity].
  - intro H.
    apply (proj1 (ranked_exactly_when_a_slope_exists parse_digits stable_kind
                    fs_XY final detailed (Str "Y") 0%Q E)) in H.
    destruct H as [_ H]. vm_compute in E. inversion E; subst.
    vm_compute in H. discriminate H.
Defined.

(** ** The script against the dashboard *)

Lemma mapM_ext_in {A B : Type} (f g : A -> result B) (l : list A) :
  (forall a, In a l -> f a = g a) -> mapM f l = mapM g l.
Proof.
  induction l as [|a l IH]; intro H; simpl; trivial.
  rewrite (H a) by now left. rewrite IH; trivial.
  intros x Hx. apply H. now right.
Qed.

Lemma trend_table_ext calc1 calc2 (d : DataFrame) :
  (forall k, calc1 (group_rows d "OCC_CODE" k) = calc2 (group_rows d "OCC_CODE" k)) ->
  trend_table calc1 d = trend_table calc2 d.
Proof.
  intro H. unfold trend_table. destruct (groupby d "OCC_CODE") as [groups|e] eqn:Eg;
    cbn [bind]; trivial.
  replace (apply_groups calc1 groups) with (apply_groups calc2 groups); trivial.
  unfold apply_groups. apply mapM_ext_in. intros [k g] Hkg. cbn [fst snd].
  unfold groupby in Eg. apply bind_Ok in Eg. destruct Eg as [col [_ Eg]].
  inversion Eg; subst groups. apply in_map_iff in Hkg.
  destruct Hkg as [k' [E _]]. inversion E; subst. now rewrite H.
Qed.

Lemma years_in_int64 (y : Z) : In y years -> in_int64 (inject_Z y).
Proof.
  intro H. exists y. split; [reflexivity|]. vm_compute in H.
  repeat (destruct H as [<-|H]; [vm_compute; split; discriminate|]).
  destruct H.
Qed.

Lemma notna_all_tot_emp (r : row) :
  notna_all ["Year"; "TOT_EMP"] r = true -> isna (get r "TOT_EMP") = false.
Proof.
  unfold notna_all. cbn [forallb]. intro H.
  apply andb_true_iff in H. destruct H as [_ H].
  apply andb_true_iff in H. destruct H as [H _].
  now apply negb_true_iff in H.
Qed.

(** X16.  When [app.py] succeeds and all employment values of the
    detailed table are integers of the int64 range, [regressao.py] on the
    same files prints no warning and its table is the first ten rows of
    the dashboard ranking, in the same order. *)
Theorem script_prints_the_top_of_the_dashboard_ranking parse K fs final detailed :
  load_and_process_data parse K fs = Ok (final, detailed) ->
  (forall r, In r (rows detailed) ->
             isna (get r "TOT_EMP") = false ->
             in_int64 (float_of (get r "TOT_EMP"))) ->
  analyze_job_trends parse K fs
  = ([Line "Iniciando carregamento e processamento de 10 arquivos anuais...";
      Line "Dados carregados. Calculando regressão linear para cada profissão...";
      Line "";
      Line "--- Top 10 Profissões com Maior Tendência de Alta (2015-2024) ---";
      Line "O 'slope' representa o crescimento médio de empregos por ano.";
      Table (firstn 10 (map trend final))],
     Ok tt).
Proof.
  intros Hrun Hint.
  pose proof (detailed_rows _ _ _ _ _ Hrun) as Hrows.
  pose proof (loaded_frames _ _ _ _ _ Hrun) as [sheets [HF Hc]].
  apply load_and_process_data_inv in Hrun.
  destruct Hrun as [all_dfs [t [_ [_ [He [Ht ->]]]]]].
  assert (Hsame : trend_table calculate_slope_script detailed
                  = trend_table calculate_slope_app detailed).
  { apply trend_table_ext. intro k. symmetry.
    apply calculate_slope_cast_neutral. intros r Hr.
    apply filter_In in Hr. destruct Hr as [Hr Hvalid].
    apply filter_In in Hr. destruct Hr as [Hr _].
    destruct (proj1 (Forall_forall _ _) Hrows r Hr) as [_ [[y [Hy Hyear]] _]].
    split.
    - rewrite Hyear. now apply years_in_int64.
    - apply Hint; trivial. now apply notna_all_tot_emp. }
  unfold analyze_job_trends.
  rewrite todo_eq, (load_loop_lenient_run fs years sheets HF).
  cbn [fst snd app map].
  assert (Hne : map (fun yd => standardize (fst yd) (snd yd)) (combine years sheets)
                <> []) by exact (loaded_nonempty _ _ HF).
  destruct (map (fun yd => standardize (fst yd) (snd yd)) (combine years sheets))
    as [|df dfs] eqn:Edfs; [congruence|].
  rewrite Hc, He, Hsame, Ht. unfold ranker. rewrite assign_rank_trend.
  reflexivity.
Qed.

Lemma script_prints_the_top_of_the_dashboard_ranking_witness :
  exists final detailed,
    load_and_process_data parse_digits stable_kind fs_X = Ok (final, detailed) /\
    In (Table (firstn 10 (map trend final)))
       (fst (analyze_job_trends parse_digits stable_kind fs_X)).
Proof.
  destruct (load_and_process_data parse_digits stable_kind fs_X)
    as [[final detailed]|e] eqn:E; [|vm_compute in E; discriminate E].
  exists final, detailed. split; [reflexivity|].
  rewrite (script_prints_the_top_of_the_dashboard_ranking parse_digits
             stable_kind fs_X final detailed E).
  - cbn [fst]. do 5 right. now left.
  - intros r Hr _. vm_compute in E. inversion E; subst detailed.
    cbn [rows] in Hr.
    destruct Hr as [<-|[<-|[<-|[]]]];
      (eexists; split; [reflexivity|vm_compute; split; discriminate]).
Defined.

(** ** The two top-ten tables *)

Lemma ranker_Rank K (t : list TrendRow) :
  map Rank (ranker K t) = map Z.of_nat (seq 1 (List.length t)).
Proof.
  unfold ranker. now rewrite assign_rank_Rank, sort_values_desc_length.
Qed.

Lemma ranker_length K (t : list TrendRow) :
  List.length (ranker K t) = List.length t.
Proof.
  rewrite <- (length_map Rank), ranker_Rank, length_map. apply length_seq.
Qed.

Lemma ranker_sorted K (t : list TrendRow) :
  StronglySorted (fun a b => (slope (trend b) <= slope (trend a))%Q) (ranker K t).
Proof.
  apply (StronglySorted_map_inv trend (fun a b => (slope b <= slope a)%Q)).
  unfold ranker. rewrite assign_rank_trend. apply sort_values_desc_sorted.
Qed.

Lemma firstn_seq (n start len : nat) :
  firstn n (seq start len) = seq start (Nat.min n len).
Proof.
  revert start len. induction n as [|n IH]; intros start len; trivial.
  destruct len; simpl; trivial. now rewrite IH.
Qed.

(** X17.  The table of the ten steepest rises shows the ranks 1, 2, ...
    up to ten (or the number of ranked occupations, if smaller), in
    descending order of slope, and no occupation left out has a larger
    slope than one shown. *)
Theorem top_ten_shows_ranks_one_to_ten K (final_results : list TrendRow) :
  map shown_Rank (top_10_display (ranker K final_results))
  = map Z.of_nat (seq 1 (Nat.min 10 (List.length final_results))) /\
  StronglySorted (fun a b => (shown_slope b <= shown_slope a)%Q)
                 (top_10_display (ranker K final_results)) /\
  (forall shown other,
     In shown (top_10_display (ranker K final_results)) ->
     In other (skipn 10 (ranker K final_results)) ->
     (slope (trend other) <= shown_slope shown)%Q).
Proof.
  unfold top_10_display, head. split; [|split].
  - rewrite <- firstn_map, map_map. cbn [display shown_Rank].
    change (fun x => Rank x) with Rank.
    now rewrite ranker_Rank, firstn_map, firstn_seq.
  - rewrite firstn_map. apply StronglySorted_map.
    apply StronglySorted_firstn. apply ranker_sorted.
  - intros shown other Hs Ho. rewrite firstn_map in Hs.
    apply in_map_iff in Hs. destruct Hs as [r [<- Hr]]. cbn [display shown_slope].
    exact (StronglySorted_split _ 10 _ (ranker_sorted K final_results) r other Hr Ho).
Qed.

Lemma sort_values_asc_perm K {A : Type} (key : A -> Q) (l : list A) :
  Permutation l (sort_values_asc K key l).
Proof. apply argsort_perm. Qed.

Lemma sort_values_asc_sorted K {A : Type} (key : A -> Q) (l : list A) :
  StronglySorted (fun a b => (key a <= key b)%Q) (sort_values_asc K key l).
Proof.
  apply Sorted_StronglySorted; [apply Qle_key_transitive|].
  apply argsort_sorted.
Qed.

Lemma skipn_seq (n start len : nat) :
  skipn n (seq start len) = seq (start + n) (len - n).
Proof.
  revert start len. induction n as [|n IH]; intros start len.
  - now rewrite Nat.add_0_r, Nat.sub_0_r.
  - destruct len; simpl; trivial. rewrite IH. f_equal. lia.
Qed.

(** X18.  The table of the ten steepest falls is in ascending order of
    slope, shows exactly the last ten ranks (all of them when there are
    fewer than ten), and no occupation left out has a smaller slope than
    one shown. *)
Theorem bottom_ten_shows_the_last_ranks_steepest_fall_first K K'
    (final_results : list TrendRow) :
  let n := List.length final_results in
  StronglySorted (fun a b => (shown_slope a <= shown_slope b)%Q)
                 (bottom_10_display K' (ranker K final_results)) /\
  Permutation (map shown_Rank (bottom_10_display K' (ranker K final_results)))
              (map Z.of_nat (seq (1 + (n - 10)) (Nat.min 10 n))) /\
  (forall shown other,
     In shown (bottom_10_display K' (ranker K final_results)) ->
     In other (ranker K final_results) ->
     ~ In (display other) (bottom_10_display K' (ranker K final_results)) ->
     (shown_slope shown <= slope (trend other))%Q).
Proof.
  cbn zeta. unfold bottom_10_display, tail. rewrite ranker_length.
  set (n := List.length final_results). split; [|split].
  - apply sort_values_asc_sorted.
  - eapply perm_trans;
      [apply Permutation_map, Permutation_sym, sort_values_asc_perm|].
    rewrite map_map. cbn [display shown_Rank].
    change (fun x => Rank x) with Rank.
    rewrite <- skipn_map, ranker_Rank, skipn_map, skipn_seq.
    fold n. replace (n - (n - 10))%nat with (Nat.min 10 n) by lia.
    apply Permutation_refl.
  - intros shown other Hs Ho Hnot.
    apply (Permutation_in _ (Permutation_sym (sort_values_asc_perm K' shown_slope _)))
      in Hs.
    apply in_map_iff in Hs. destruct Hs as [r [<- Hr]]. cbn [display shown_slope].
    assert (Hfirst : In other (firstn (n - 10) (ranker K final_results))).
    { rewrite <- (firstn_skipn (n - 10) (ranker K final_results)) in Ho.
      apply in_app_or in Ho. destruct Ho as [Ho|Ho]; trivial.
      exfalso. apply Hnot.
      apply (Permutation_in _ (sort_values_asc_perm K' shown_slope _)).
      now apply in_map. }
    exact (StronglySorted_split _ (n - 10) _ (ranker_sorted K final_results)
             other r Hfirst Hr).
Qed.

(** ** Looking an occupation up by its title *)

Lemma seq_ascending (start len : nat) :
  StronglySorted Z.lt (map Z.of_nat (seq start len)).
Proof.
  revert start. induction len as [|len IH]; intro start; simpl; constructor.
  - apply IH.
  - apply Forall_forall. intros z Hz. apply in_map_iff in Hz.
    destruct Hz as [n [<- Hn]]. apply in_seq in Hn. lia.
Qed.

Lemma ranker_Rank_ascending K (t : list TrendRow) :
  StronglySorted (fun a b => Rank a < Rank b) (ranker K t).
Proof.
  apply (StronglySorted_map_inv Rank Z.lt). rewrite ranker_Rank.
  apply seq_ascending.
Qed.

Lemma first_match {A : Type} (R : A -> A -> Prop) (p : A -> bool) (l : list A) :
  StronglySorted R l ->
  forall a, In a l -> p a = true ->
  exists b, hd_error (filter p l) = Some b /\ In b l /\ p b = true /\
            (b = a \/ R b a).
Proof.
  induction 1 as [|x l Hs IH Hx]; intros a Ha Hp; [destruct Ha|].
  simpl. destruct (p x) eqn:Ex.
  - exists x. split; [reflexivity|]. split; [now left|]. split; [exact Ex|].
    destruct Ha as [->|Ha]; [now left|].
    right. exact (proj1 (Forall_forall _ _) Hx a Ha).
  - destruct Ha as [->|Ha]; [congruence|].
    destruct (IH a Ha Hp) as [b [Hb [Hin [Hpb Hab]]]].
    exists b. split; [exact Hb|]. split; [now right|]. auto.
Qed.

Lemma no_match {A : Type} (p : A -> bool) (l : list A) :
  hd_error (filter p l) = None <-> forall a, In a l -> p a = false.
Proof.
  induction l as [|x l IH]; simpl.
  - split; [intros _ a []|reflexivity].
  - destruct (p x) eqn:Ex; simpl.
    + split; [discriminate|]. intro H. rewrite (H x) in Ex by now left.
      discriminate.
    + rewrite IH. split.
      * intros H a [->|Ha]; [exact Ex|now apply H].
      * intros H a Ha. apply H. now right.
Qed.

(** X19.  Looking a title up in the ranking: when some ranked row carries
    the title, the lookup returns the best-ranked such row, so of two
    occupations sharing a title only the better-ranked one can be shown;
    the lookup fails (IndexError of [iloc[0]]) exactly when no row
    carries the title, in particular for a missing title. *)
Theorem lookup_by_title_returns_the_best_ranked K (t : list TrendRow)
    (selected_title : cell) :
  (forall r0, In r0 (ranker K t) ->
     eq_value (OCC_TITLE (trend r0)) selected_title = true ->
     exists r, job_rank_data (ranker K t) selected_title = Some r /\
               In r (ranker K t) /\
               eq_value (OCC_TITLE (trend r)) selected_title = true /\
               Rank r <= Rank r0 /\
               (slope (trend r0) <= slope (trend r))%Q) /\
  (job_rank_data (ranker K t) selected_title = None <->
   forall r0, In r0 (ranker K t) ->
              eq_value (OCC_TITLE (trend r0)) selected_title = false) /\
  (isna selected_title = true ->
   job_rank_data (ranker K t) selected_title = None).
Proof.
  split; [|split].
  - intros r0 Hr0 Hsel.
    destruct (first_match (fun a b => Rank a < Rank b)
                (fun r => eq_value (OCC_TITLE (trend r)) selected_title)
                _ (ranker_Rank_ascending K t) r0 Hr0 Hsel)
      as [r [Hr [Hin [Hp Hrank]]]].
    exists r. split; [exact Hr|]. split; [exact Hin|]. split; [exact Hp|].
    destruct Hrank as [->|Hlt]; [split; [lia|apply Qle_refl]|].
    split; [lia|].
    (* a better rank is a slope at least as large *)
    pose proof (ranker_sorted K t) as Hs.
    pose proof (ranker_Rank_ascending K t) as Hr'.
    revert Hs Hr' Hin Hr0 Hlt. generalize (ranker K t). clear.
    induction l as [|x l IH]; intros Hs Hr' Hin Hr0 Hlt; [destruct Hin|].
    inversion Hs as [|? ? Hs1 Hs2]; subst. inversion Hr' as [|? ? Hr1 Hr2]; subst.
    destruct Hin as [->|Hin], Hr0 as [->|Hr0].
    + apply Qle_refl.
    + exact (proj1 (Forall_forall _ _) Hs2 r0 Hr0).
    + pose proof (proj1 (Forall_forall _ _) Hr2 r Hin) as Hxr.
      cbv beta in Hxr. lia.
    + now apply IH.
  - apply no_match.
  - intro Hna. apply no_match. intros r0 _.
    unfold eq_value. destruct (OCC_TITLE (trend r0)), selected_title;
      trivial; discriminate.
Qed.

(** ** The chart of one occupation *)

Lemma filter_by_column (p : cell -> bool) (c : string) (rs : list row) :
  map fst (filter (fun rv => p (snd rv)) (combine rs (map (fun r => get r c) rs)))
  = filter (fun r => p (get r c)) rs.
Proof.
  induction rs as [|r rs IH]; simpl; trivial.
  destruct (p (get r c)); simpl; now rewrite IH.
Qed.

Lemma dropna_chart_point (rs : list row) :
  dropna ["Year"; "TOT_EMP"] (map chart_point rs)
  = map chart_point (dropna ["Year"; "TOT_EMP"] rs).
Proof.
  unfold dropna. induction rs as [|r rs IH]; simpl; trivial.
  rewrite IH.
  now destruct (negb (isna (get r "Year")) && (negb (isna (get r "TOT_EMP")) && true)).
Qed.

Lemma chart_data_Ok K (d : DataFrame) (occ_code : cell) :
  has_column "OCC_CODE" (columns d) = true ->
  has_column "Year" (columns d) = true ->
  has_column "TOT_EMP" (columns d) = true ->
  chart_data K d occ_code
  = Ok (sort_values_asc K (fun p => float_of (get p "Year"))
          (map chart_point
               (dropna ["Year"; "TOT_EMP"] (group_rows d "OCC_CODE" occ_code)))).
Proof.
  intros Hc Hy He. unfold chart_data, column. rewrite Hc. cbn [bind].
  rewrite Hy, He. cbn [negb].
  rewrite (filter_by_column (fun v => eq_value v occ_code)).
  now rewrite dropna_chart_point.
Qed.

Lemma calculate_slope_app_some (group : list row) (s : Q) :
  calculate_slope_app group = Ok (Some s) ->
  (2 <= List.length (dropna ["Year"; "TOT_EMP"] group))%nat.
Proof.
  unfold calculate_slope_app. intro H.
  destruct (List.length (dropna ["Year"; "TOT_EMP"] group) <? 2)%nat eqn:E;
    [discriminate|]. now apply Nat.ltb_ge.
Qed.

(** X20.  For each ranked occupation of a successful run the chart data
    exist, have at least two points (so the warning of line 226 is never
    shown for a ranked occupation), are in ascending order of year, are
    the valid records of that occupation projected to year and
    employment, and contain no missing value. *)
Theorem chart_of_a_ranked_occupation parse K K' fs final detailed (r : RankedRow) :
  load_and_process_data parse K fs = Ok (final, detailed) ->
  In r final ->
  exists points,
    chart_data K' detailed (OCC_CODE (trend r)) = Ok points /\
    (2 <= List.length points)%nat /\
    StronglySorted (fun a b => (float_of (get a "Year") <= float_of (get b "Year"))%Q)
                   points /\
    Permutation
      (map chart_point
           (dropna ["Year"; "TOT_EMP"]
                   (group_rows detailed "OCC_CODE" (OCC_CODE (trend r)))))
      points /\
    Forall (fun p => isna (get p "Year") = false /\ isna (get p "TOT_EMP") = false)
           points.
Proof.
  intros Hrun Hr.
  pose proof (detailed_columns _ _ _ _ _ Hrun) as Hcols.
  apply load_and_process_data_inv in Hrun.
  destruct Hrun as [all_dfs [t [_ [_ [_ [Ht ->]]]]]].
  apply ranker_In in Hr.
  destruct (trend_table_row _ _ _ _ Ht Hr) as [Hslope _].
  apply calculate_slope_app_some in Hslope.
  assert (Hhas : forall c, In c cols_to_keep -> has_column c (columns detailed) = true).
  { intros c Hc. apply has_column_In.
    exact (proj1 (Forall_forall _ _) Hcols c Hc). }
  eexists. split.
  - apply chart_data_Ok; apply Hhas; simpl; tauto.
  - pose proof (sort_values_asc_perm K' (fun p => float_of (get p "Year"))
        (map chart_point
           (dropna ["Year"; "TOT_EMP"]
                   (group_rows detailed "OCC_CODE" (OCC_CODE (trend r))))))
      as Hperm.
    split; [|split; [|split]].
    + rewrite <- (Permutation_length Hperm), length_map. exact Hslope.
    + apply sort_values_asc_sorted.
    + exact Hperm.
    + apply Forall_forall. intros p Hp.
      apply (Permutation_in _ (Permutation_sym Hperm)) in Hp.
      apply in_map_iff in Hp. destruct Hp as [x [<- Hx]].
      apply filter_In in Hx. destruct Hx as [_ Hx].
      unfold notna_all in Hx. cbn [forallb] in Hx.
      apply andb_true_iff in Hx. destruct Hx as [Hy Hx].
      apply andb_true_iff in Hx. destruct Hx as [He _].
      apply negb_true_iff in Hy, He. split; [exact Hy|exact He].
Qed.

Lemma chart_of_a_ranked_occupation_witness :
  exists final detailed points,
    load_and_process_data parse_digits stable_kind fs_X = Ok (final, detailed) /\
    chart_data stable_kind detailed (Str "X") = Ok points /\
    (2 <= List.length points)%nat.
Proof.
  destruct (load_and_process_data parse_digits stable_kind fs_X)
    as [[final detailed]|e] eqn:E; [|vm_compute in E; discriminate E].
  assert (Hfinal : exists r, In r final /\ OCC_CODE (trend r) = Str "X").
  { vm_compute in E. inversion E; subst. eexists. split; [now left|reflexivity]. }
  destruct Hfinal as [r [Hr Hcode]].
  destruct (chart_of_a_ranked_occupation parse_digits stable_kind stable_kind
              fs_X final detailed r E Hr) as [points [Hp [Hlen _]]].
  rewrite Hcode in Hp.
  exists final, detailed, points. split; [reflexivity|]. split; assumption.
Defined.

Lemma same_value_refl (v : cell) : same_value v v = true.
Proof.
  destruct v as [|q|s]; unfold same_value; simpl; trivial.
  - apply Qeq_bool_iff. reflexivity.
  - apply String.eqb_refl.
Qed.

Lemma same_value_sym (a b : cell) : same_value a b = same_value b a.
Proof.
  unfold same_value. now rewrite (andb_comm (isna a)), (key_eqb_sym a b).
Qed.

Lemma unique_from_sound (col seen : list cell) (u : cell) :
  In u (unique_from seen col) -> In u col.
Proof.
  revert seen. induction col as [|v col IH]; intros seen H; simpl in *; trivial.
  destruct (existsb (same_value v) seen).
  - right. now apply (IH seen).
  - destruct H as [<-|H]; [now left|right; now apply (IH (v :: seen))].
Qed.

Lemma unique_from_complete (col seen : list cell) (x : cell) :
  In x col ->
  existsb (same_value x) seen = true \/
  exists u, In u (unique_from seen col) /\ same_value x u = true.
Proof.
  revert seen. induction col as [|v col IH]; intros seen H; [destruct H|].
  simpl. destruct H as [->|H].
  - destruct (existsb (same_value x) seen) eqn:E; [now left|].
    right. exists x. split; [now left|apply same_value_refl].
  - destruct (existsb (same_value v) seen) eqn:E.
    + now apply IH.
    + destruct (IH (v :: seen) H) as [Hs|[u [Hu Hxu]]].
      * simpl in Hs. apply orb_true_iff in Hs. destruct Hs as [Hv|Hs].
        -- right. exists v. split; [now left|exact Hv].
        -- now left.
      * right. exists u. split; [now right|exact Hxu].
Qed.

Lemma unique_from_fresh (col seen : list cell) :
  Forall (fun u => existsb (same_value u) seen = false) (unique_from seen col) /\
  ForallOrdPairs (fun a b => same_value a b = false) (unique_from seen col).
Proof.
  revert seen. induction col as [|v col IH]; intro seen; simpl.
  - split; constructor.
  - destruct (existsb (same_value v) seen) eqn:E; [apply IH|].
    destruct (IH (v :: seen)) as [Hf Hp]. split.
    + constructor; [exact E|].
      apply Forall_forall. intros u Hu.
      pose proof (proj1 (Forall_forall _ _) Hf u Hu) as H. simpl in H.
      now apply orb_false_iff in H.
    + constructor; [|exact Hp].
      apply Forall_forall. intros u Hu.
      pose proof (proj1 (Forall_forall _ _) Hf u Hu) as H. simpl in H.
      apply orb_false_iff in H. rewrite same_value_sym. apply H.
Qed.

Lemma all_titles_sound (final_results : list RankedRow) (u : cell) :
  In u (all_titles final_results) ->
  exists r, In r final_results /\ OCC_TITLE (trend r) = u.
Proof.
  unfold all_titles, unique. intro Hu.
  apply unique_from_sound in Hu. apply in_map_iff in Hu.
  destruct Hu as [r [E Hr]]. now exists r.
Qed.

Lemma all_titles_complete (final_results : list RankedRow) (r : RankedRow) :
  In r final_results ->
  exists u, In u (all_titles final_results) /\
            same_value (OCC_TITLE (trend r)) u = true.
Proof.
  unfold all_titles, unique. intro Hr.
  destruct (unique_from_complete
              (map (fun r => OCC_TITLE (trend r)) final_results) []
              (OCC_TITLE (trend r))) as [H|H].
  - apply in_map_iff. now exists r.
  - discriminate.
  - exact H.
Qed.

(** X21.  [all_titles] lists titles of ranked rows only, has for each
    ranked row an entry equal to its title (a missing title counting as
    equal to a missing one), and contains no value twice. *)
Theorem all_titles_lists_each_title_once (final_results : list RankedRow) :
  (forall u, In u (all_titles final_results) ->
     exists r, In r final_results /\ OCC_TITLE (trend r) = u) /\
  (forall r, In r final_results ->
     exists u, In u (all_titles final_results) /\
               same_value (OCC_TITLE (trend r)) u = true) /\
  ForallOrdPairs (fun a b => same_value a b = false) (all_titles final_results).
Proof.
  split; [|split].
  - apply all_titles_sound.
  - apply all_titles_complete.
  - apply unique_from_fresh.
Qed.

(** ** Searching a title *)

Lemma comprehension_None lower (term : string) (titles : list cell) :
  comprehension lower term titles = None <->
  exists title, In title titles /\ forall s, title <> Str s.
Proof.
  induction titles as [|title rest IH]; simpl.
  - split; [discriminate|]. intros [x [[] _]].
  - destruct title as [|q|s].
    + split; trivial. intros _. exists NaN. split; [now left|discriminate].
    + split; trivial. intros _. exists (Num q). split; [now left|discriminate].
    + destruct (comprehension lower term rest) as [found|].
      * split; [discriminate|]. intros [x [[<-|Hx] Hns]].
        -- now destruct (Hns s).
        -- assert (Some found = None) by (apply IH; now exists x).
           discriminate.
      * split; trivial. intros _. destruct (proj1 IH eq_refl) as [x [Hx Hns]].
        exists x. split; [now right|exact Hns].
Qed.

Lemma comprehension_Some lower (term : string) (titles found : list cell) :
  comprehension lower term titles = Some found ->
  forall title, In title found <->
    exists s, title = Str s /\ In title titles /\
              occurs (lower term) (lower s) = true.
Proof.
  revert found. induction titles as [|x rest IH]; intros found H title;
    simpl in H.
  - inversion H. split; [intros []|]. intros [s [_ [[] _]]].
  - destruct x as [|q|s0]; try discriminate.
    destruct (comprehension lower term rest) as [found0|]; [|discriminate].
    inversion H; subst found; clear H.
    specialize (IH found0 eq_refl title).
    destruct (occurs (lower term) (lower s0)) eqn:E.
    + split.
      * intros [<-|Hin].
        -- exists s0. split; [reflexivity|]. split; [now left|exact E].
        -- destruct (proj1 IH Hin) as [s [-> [Hr Ho]]].
           exists s. split; [reflexivity|]. split; [now right|exact Ho].
      * intros [s [-> [[Hx|Hr] Ho]]]; [now left|].
        right. apply IH. now exists s.
    + split.
      * intro Hin. destruct (proj1 IH Hin) as [s [-> [Hr Ho]]].
        exists s. split; [reflexivity|]. split; [now right|exact Ho].
      * intros [s [-> [[Hx|Hr] Ho]]].
        -- inversion Hx; subst. congruence.
        -- apply IH. now exists s.
Qed.

(** X22.  A search with a non-empty term fails (AttributeError of
    [title.lower()]) exactly when some ranked row has a title that is no
    text; otherwise it offers exactly the titles of ranked rows whose
    lower-cased text contains the lower-cased term, and each offered
    title can be looked up in the ranking. *)
Theorem search_offers_matching_titles_or_fails_on_a_missing_one lower K
    (t : list TrendRow) (search_term : string) :
  search_term <> "" ->
  (matching_titles lower (all_titles (ranker K t)) search_term = None <->
   exists r, In r (ranker K t) /\ forall s, OCC_TITLE (trend r) <> Str s) /\
  (forall offered,
     matching_titles lower (all_titles (ranker K t)) search_term = Some offered ->
     (forall title, In title offered <->
        exists s r, title = Str s /\ In r (ranker K t) /\
                    OCC_TITLE (trend r) = title /\
                    occurs (lower search_term) (lower s) = true) /\
     (forall title, In title offered ->
        exists r, job_rank_data (ranker K t) title = Some r /\
                  OCC_TITLE (trend r) = title)).
Proof.
  intro Hterm. apply String.eqb_neq in Hterm.
  unfold matching_titles. rewrite Hterm.
  pose proof (all_titles_sound (ranker K t)) as Hsound.
  pose proof (all_titles_complete (ranker K t)) as Hcomplete.
  split.
  - rewrite comprehension_None. split.
    + intros [title [Hin Hns]]. destruct (Hsound title Hin) as [r [Hr E]].
      exists r. split; [exact Hr|]. now rewrite E.
    + intros [r [Hr Hns]]. destruct (Hcomplete r Hr) as [u [Hu Hsame]].
      exists u. split; [exact Hu|]. intros s ->.
      destruct (OCC_TITLE (trend r)) as [|q|s0] eqn:E;
        try discriminate. now destruct (Hns s0).
  - intros offered Hoff.
    pose proof (comprehension_Some lower _ _ _ Hoff) as Hspec.
    assert (Hfirst : forall title,
      In title offered <->
      exists s r, title = Str s /\ In r (ranker K t) /\
                  OCC_TITLE (trend r) = title /\
                  occurs (lower search_term) (lower s) = true).
    { intro title. rewrite Hspec. split.
      - intros [s [-> [Hin Ho]]]. destruct (Hsound _ Hin) as [r [Hr E]].
        exists s, r. auto.
      - intros [s [r [-> [Hr [E Ho]]]]]. exists s. split; [reflexivity|].
        split; [|exact Ho].
        destruct (Hcomplete r Hr) as [u [Hu Hsame]]. rewrite E in Hsame.
        destruct u as [|q|s']; try discriminate.
        unfold same_value in Hsame. simpl in Hsame.
        apply String.eqb_eq in Hsame. now subst. }
    split; [exact Hfirst|].
    intros title Hin. destruct (proj1 (Hfirst title) Hin) as [s [r0 [-> [Hr0 [E _]]]]].
    assert (Hsel : eq_value (OCC_TITLE (trend r0)) (Str s) = true)
      by (rewrite E; apply String.eqb_refl).
    destruct (first_match (fun a b => Rank a < Rank b)
                (fun r => eq_value (OCC_TITLE (trend r)) (Str s))
                _ (ranker_Rank_ascending K t) r0 Hr0 Hsel)
      as [r [Hr [_ [Hp _]]]].
    exists r. split; [exact Hr|].
    unfold eq_value in Hp. destruct (OCC_TITLE (trend r)); try discriminate.
    simpl in Hp. apply String.eqb_eq in Hp. now subst.
Qed.

Lemma search_offers_matching_titles_or_fails_on_a_missing_one_witness :
  exists offered,
    matching_titles (fun s => s) (all_titles (ranker stable_kind tied_table)) "1"
    = Some offered /\
    List.length offered = 10%nat /\
    (In (Str "01") offered <->
     exists s r, Str "01" = Str s /\ In r (ranker stable_kind tied_table) /\
                 OCC_TITLE (trend r) = Str "01" /\ occurs "1" s = true).
Proof.
  eexists. split; [vm_compute; reflexivity|]. split; [reflexivity|].
  assert (Hterm : "1" <> "") by discriminate.
  refine (proj1 (proj2 (search_offers_matching_titles_or_fails_on_a_missing_one
                          (fun s => s) stable_kind tied_table "1" Hterm) _ _)
                (Str "01")).
  vm_compute. reflexivity.
Defined.
